(** * Profile discovery workflow of prospectAgentOpenAi (utility.py)

    A shallow embedding of [extract_profiles], [deduplicate_by_url] and
    [improved_search], and the properties of the workflow proved on it.

    Python values are dynamically typed: the embedding keeps one type
    [pyval] of values, and every operation that Python may refuse
    (iterating a number, calling [.get] on a string, hashing a list)
    returns an exception in the model as it does in the interpreter. *)

From Stdlib Require Import List String Ascii ZArith QArith Bool Lia DecimalString.
From Stdlib Require Import RelationClasses.
Import ListNotations.
Close Scope Q_scope.
Local Open Scope string_scope.
Local Open Scope list_scope.
Local Open Scope Z_scope.

(** ** Exceptions and partial results *)

(** The exceptions the workflow can meet; all of them derive from
    Python's [Exception], so [except Exception] catches each one.
    [AgentError] stands for whatever a [Runner.run] call raises. *)
Inductive exn : Type :=
| TypeError
| AttributeError
| JSONDecodeError
| AgentError (msg : string).

Inductive except (A : Type) : Type :=
| Ok (a : A)
| Raise (e : exn).
Arguments Ok {A} a.
Arguments Raise {A} e.

Definition ebind {A B : Type} (m : except A) (f : A -> except B) : except B :=
  match m with
  | Ok a => f a
  | Raise e => Raise e
  end.

Declare Scope except_scope.
Delimit Scope except_scope with exc.
Notation "'let?' x ':=' m 'in' k" := (ebind m (fun x => k))
  (at level 10, x name, m at level 100, k at level 200) : except_scope.

(** ** Values *)

(** class PositionTitle(BaseModel) *)
Record PositionTitle : Type := mkPositionTitle {
  position_title : string;
  organization_name : string;
  linkedin_profile : string;
  experience : Z;
  current_company : string;
  current_company_experience : Z
}.

(** The Python values that reach the workflow: what [json.loads] builds
    (None, bool, int, float, str, list, dict with string keys), tuples,
    and instances of [PositionTitle].  A finite float is kept as its exact
    rational value; strings are ASCII text. *)
#[warnings="-register-all"]
Inductive pyval : Type :=
| PNone
| PBool (b : bool)
| PInt (z : Z)
| PFloat (q : Q)
| PStr (s : string)
| PList (l : list pyval)
| PTuple (l : list pyval)
| PDict (d : list (string * pyval))
| PObj (pt : PositionTitle).

(** Truth value of an object, as [if x:] and [x and ...] test it. *)
Definition py_truthy (v : pyval) : bool :=
  match v with
  | PNone => false
  | PBool b => b
  | PInt z => negb (z =? 0)
  | PFloat q => negb (Qeq_bool q 0)
  | PStr s => negb (String.eqb s "")
  | PList l => match l with [] => false | _ => true end
  | PTuple l => match l with [] => false | _ => true end
  | PDict d => match d with [] => false | _ => true end
  | PObj _ => true
  end.

(** Whether [hash(v)] succeeds: lists, dicts and (non-frozen) pydantic
    models are unhashable, a tuple is hashable when its items are. *)
Fixpoint hashable (v : pyval) : bool :=
  match v with
  | PNone | PBool _ | PInt _ | PFloat _ | PStr _ => true
  | PTuple l => forallb hashable l
  | PList _ | PDict _ | PObj _ => false
  end.

Definition num_val (v : pyval) : option Q :=
  match v with
  | PBool b => Some (inject_Z (Z.b2z b))
  | PInt z => Some (inject_Z z)
  | PFloat q => Some q
  | _ => None
  end.

(** [x == y] on hashable values, the comparison a set lookup uses:
    numbers compare by value across bool, int and float. *)
Fixpoint key_eq (x y : pyval) : bool :=
  match x, y with
  | PNone, PNone => true
  | PStr a, PStr b => String.eqb a b
  | PTuple xs, PTuple ys =>
      (fix all2 (xs ys : list pyval) : bool :=
         match xs, ys with
         | [], [] => true
         | a :: xs', b :: ys' => key_eq a b && all2 xs' ys'
         | _, _ => false
         end) xs ys
  | _, _ =>
      match num_val x, num_val y with
      | Some a, Some b => Qeq_bool a b
      | _, _ => false
      end
  end.

(** A Python [set] of hashable values, by its elements. *)
Definition pyset : Type := list pyval.

(** [x in s] : hashes [x] first, so an unhashable [x] raises [TypeError]
    even when [s] is empty. *)
Definition set_contains (s : pyset) (x : pyval) : except bool :=
  if hashable x then Ok (existsb (key_eq x) s) else Raise TypeError.

(** [s.add(x)] for an [x] whose hash was already taken by the membership
    test that guards every call in this program. *)
Definition set_insert (s : pyset) (x : pyval) : pyset :=
  if existsb (key_eq x) s then s else x :: s.

(** *** Dictionaries *)

Fixpoint dict_get (d : list (string * pyval)) (k : string) : option pyval :=
  match d with
  | [] => None
  | (k', v) :: d' => if String.eqb k' k then Some v else dict_get d' k
  end.

(** [k in d] *)
Definition dict_has (d : list (string * pyval)) (k : string) : bool :=
  match dict_get d k with Some _ => true | None => false end.

(** [d.get(k, default)] *)
Definition dict_get_default (d : list (string * pyval)) (k : string) (default : pyval) : pyval :=
  match dict_get d k with Some v => v | None => default end.

(** [v.get(k)] : only a dict has the method. *)
Definition py_get (v : pyval) (k : string) : except pyval :=
  match v with
  | PDict d => Ok (dict_get_default d k PNone)
  | _ => Raise AttributeError
  end.

Definition PositionTitle_items (pt : PositionTitle) : list pyval :=
  [ PTuple [PStr "position_title"; PStr (position_title pt)];
    PTuple [PStr "organization_name"; PStr (organization_name pt)];
    PTuple [PStr "linkedin_profile"; PStr (linkedin_profile pt)];
    PTuple [PStr "experience"; PInt (experience pt)];
    PTuple [PStr "current_company"; PStr (current_company pt)];
    PTuple [PStr "current_company_experience"; PInt (current_company_experience pt)] ].

(** The items a [for x in v] loop visits: the elements of a list or
    tuple, the keys of a dict, the characters of a string, the
    (name, value) pairs of a pydantic model; other values are not
    iterable. *)
Definition py_iter (v : pyval) : except (list pyval) :=
  match v with
  | PList l | PTuple l => Ok l
  | PDict d => Ok (map (fun kv => PStr (fst kv)) d)
  | PStr s => Ok (map (fun c => PStr (String c "")) (list_ascii_of_string s))
  | PObj pt => Ok (PositionTitle_items pt)
  | PNone | PBool _ | PInt _ | PFloat _ => Raise TypeError
  end.

Definition is_dict (v : pyval) : bool := match v with PDict _ => true | _ => false end.
Definition is_list (v : pyval) : bool := match v with PList _ => true | _ => false end.

(** [len(l)] as a Python int. *)
Definition len {A : Type} (l : list A) : Z := Z.of_nat (List.length l).

(** [l[:n]] for a Python int [n]: a negative [n] counts from the end. *)
Definition slice_to {A : Type} (l : list A) (n : Z) : list A :=
  if 0 <=? n then firstn (Z.to_nat n) l
  else firstn (List.length l - Z.to_nat (- n)) l.

(** *** Strings *)

(** [str.isspace] on an ASCII character. *)
Definition is_space (c : ascii) : bool :=
  let n := nat_of_ascii c in
  ((9 <=? n) && (n <=? 13) || (28 <=? n) && (n <=? 32))%nat.

Fixpoint lstrip_chars (l : list ascii) : list ascii :=
  match l with
  | c :: l' => if is_space c then lstrip_chars l' else l
  | [] => []
  end.

(** [s.strip()] *)
Definition strip (s : string) : string :=
  string_of_list_ascii
    (rev (lstrip_chars (rev (lstrip_chars (list_ascii_of_string s))))).

(** [s.startswith(p)] and [s.endswith(p)] *)
Definition startswith (s p : string) : bool := String.prefix p s.

Definition endswith (s p : string) : bool :=
  (String.length p <=? String.length s)%nat
  && String.eqb (substring (String.length s - String.length p) (String.length p) s) p.

(** [s[start:-3]] *)
Definition slice_inner (s : string) (start : nat) : string :=
  substring start (String.length s - 3 - start) s.

(** The markdown fence removal that [extract_profiles] and
    [improved_search] both carry:
<<
    if s.startswith('```json') and s.endswith('```'): s = s[7:-3].strip()
    elif s.startswith('```') and s.endswith('```'):   s = s[3:-3].strip()
>> *)
Definition strip_fence (s : string) : string :=
  if startswith s "```json" && endswith s "```" then strip (slice_inner s 7)
  else if startswith s "```" && endswith s "```" then strip (slice_inner s 3)
  else s.

(** ** The Result Extractor and the Deduplicator *)

Local Open Scope except_scope.

(** The dict literal built for each extracted profile. *)
Definition base_profile (title url content score : pyval) : pyval :=
  PDict [("title", title); ("url", url); ("content", content); ("score", score)].

(** The body of the loop [for res in profile_data] of [extract_profiles]:
    what one element appends to [profiles]. *)
Definition extract_one (res : pyval) : list pyval :=
  match res with
  | PDict d =>
      [base_profile (dict_get_default d "title" (PStr ""))
                    (dict_get_default d "url" (PStr ""))
                    (dict_get_default d "content" (PStr ""))
                    (dict_get_default d "score" (PInt 0))]
  | PObj pt =>
      [base_profile (PStr (position_title pt)) (PStr (linkedin_profile pt))
                    (PStr "") (PInt 0)]
  | _ => []
  end.

(** def deduplicate_by_url(profiles): the loop, with its two locals
    [seen] and [unique]. *)
Fixpoint dedup_loop (profiles : list pyval) (seen : pyset) (unique : list pyval)
  : except (list pyval) :=
  match profiles with
  | [] => Ok unique
  | p :: rest =>
      let? url := py_get p "url" in
      if py_truthy url then
        let? known := set_contains seen url in
        if negb known
        then dedup_loop rest (set_insert seen url) (unique ++ [p])
        else dedup_loop rest seen unique
      else dedup_loop rest seen unique
  end.

Definition deduplicate_by_url (profiles : list pyval) : except (list pyval) :=
  dedup_loop profiles [] [].

Section Extractor.

(** [json.loads] on a string; [None] is [json.JSONDecodeError]. *)
Variable json_loads : string -> option pyval.

(** def extract_profiles(result) *)
Definition extract_profiles (result : pyval) : except (list pyval) :=
  if negb (py_truthy result) then Ok []
  else
    let parsed :=
      match result with
      | PStr s => json_loads (strip_fence s)
      | _ => Some result
      end in
    match parsed with
    | None => Ok []
    | Some result =>
        if negb (is_dict result) then Ok []
        else
          let d := match result with PDict d => d | _ => [] end in
          let profile_data :=
            if dict_has d "results" then dict_get_default d "results" PNone
            else if dict_has d "profiles" then dict_get_default d "profiles" PNone
            else if is_list result then result
            else PNone in
          if py_truthy profile_data then
            let? items := py_iter profile_data in
            Ok (flat_map extract_one items)
          else Ok []
    end.

End Extractor.

(** ** Typing of profile records *)

(** A ProfileRecord of the data model, as the Deduplicator sees it: a
    mapping whose [url], when present, is a string. *)
Definition profile_record (p : pyval) : Prop :=
  exists d, p = PDict d /\
            (dict_get d "url" = None \/ exists s, dict_get d "url" = Some (PStr s)).

(** The [url] of a record; an absent one counts as empty. *)
Definition record_url (p : pyval) : string :=
  match p with
  | PDict d => match dict_get d "url" with Some (PStr s) => s | _ => "" end
  | _ => ""
  end.

(** The Deduplicator as the specification words it: walking the sequence
    in order, a record is retained when its url is non-empty and no
    earlier record of the sequence carries the same url.  [earlier] holds
    the urls of all the records already passed, retained or not. *)
Fixpoint first_occurrences (earlier : list string) (S : list pyval) : list pyval :=
  match S with
  | [] => []
  | p :: rest =>
      let u := record_url p in
      if negb (String.eqb u "") && negb (existsb (String.eqb u) earlier)
      then p :: first_occurrences (u :: earlier) rest
      else first_occurrences (u :: earlier) rest
  end.

(** Order-preserving subsequence. *)
Inductive subseq {A : Type} : list A -> list A -> Prop :=
| subseq_nil : subseq [] []
| subseq_skip x k l : subseq k l -> subseq k (x :: l)
| subseq_keep x k l : subseq k l -> subseq (x :: k) (x :: l).

(** ** The workflow monad *)

(** The two agents [improved_search] is given. *)
Inductive agent : Type := loop_agent | filter_agent.

(** The lines the workflow writes to its logger, by statement; the
    banner lines and the dumps of whole values are left out. *)
Inductive log_line : Type :=
| LogAttempt (number total : Z)
| LogSearchWeb (query : string)
| LogStopEarly (found target : Z)
| LogWebFailed (title : string) (e : exn)
| LogFoundAfterWeb (found : Z)
| LogNeedMore (needed : Z)
| LogSearchLinkedIn (query : string)
| LogReachedTarget (target : Z)
| LogLinkedInFailed (title : string) (e : exn)
| LogFiltering (target : Z)
| LogParseFailed (e : exn)
| LogAccumulated (count : Z)
| LogReachedDesired (target : Z)
| LogRetrying (returned needed : Z)
| LogNoProfiles
| LogExhausted (attempts target : Z).

(** What an observer of one run sees, in order: the log lines and the
    calls [await Runner.run(agent, prompt)]. *)
Inductive event : Type :=
| Log (line : log_line)
| Run (a : agent) (prompt : string).

(** [break] or normal completion of a loop body. *)
Inductive flow : Type := Continue | Break.

(** [str(n)] for a Python int. *)
Definition str_of_int (n : Z) : string := NilZero.string_of_int (Z.to_int n).

(** Whether [json.dumps] accepts a value: a pydantic model is not JSON
    serializable. *)
Fixpoint serializable (v : pyval) : bool :=
  match v with
  | PObj _ => false
  | PList l | PTuple l => forallb serializable l
  | PDict d => forallb (fun kv => serializable (snd kv)) d
  | _ => true
  end.

Section Workflow.

(** The outside world: the state of the two agents' capabilities, and
    what a call [Runner.run(agent, prompt)] answers in a given state,
    the [final_output] of its result or an exception.  Every
    behaviour of the search and filter capabilities is one choice of
    [W] and [respond]. *)
Variable W : Type.
Variable respond : W -> agent -> string -> W * except pyval.

(** [json.loads] and [json.dumps(_, indent=2)] of the standard library. *)
Variable json_loads : string -> option pyval.
Variable json_dumps : pyval -> string.

(** The arguments of [improved_search]. *)
Variable position_titles : list string.
Variable company : string.
Variable desired_profile : Z.
Variable max_retries : Z.

(** The variables of [improved_search] that its loops update, the
    world, and the trace of the run so far. *)
Record state : Type := mkState {
  world : W;
  trace : list event;
  all_profiles : list pyval;
  accumulated_profiles : list pyval;
  accumulated_urls : pyset
}.

Definition M (A : Type) : Type := state -> state * except A.

Definition ret {A : Type} (a : A) : M A := fun s => (s, Ok a).

Definition bind {A B : Type} (m : M A) (f : A -> M B) : M B :=
  fun s =>
    match m s with
    | (s', Ok a) => f a s'
    | (s', Raise e) => (s', Raise e)
    end.

Definition lift {A : Type} (r : except A) : M A := fun s => (s, r).

(** [try: m except Exception as e: handler e] : what [m] did to the
    state before it raised stays done. *)
Definition try_ {A : Type} (m : M A) (handler : exn -> M A) : M A :=
  fun s =>
    match m s with
    | (s', Ok a) => (s', Ok a)
    | (s', Raise e) => handler e s'
    end.

Definition get_state : M state := fun s => (s, Ok s).

Definition emit (e : event) : M unit :=
  fun s => (mkState (world s) (trace s ++ [e]) (all_profiles s)
                    (accumulated_profiles s) (accumulated_urls s), Ok tt).

Definition log (line : log_line) : M unit := emit (Log line).

Definition set_all_profiles (l : list pyval) : M unit :=
  fun s => (mkState (world s) (trace s) l
                    (accumulated_profiles s) (accumulated_urls s), Ok tt).

Definition set_accumulated_profiles (l : list pyval) : M unit :=
  fun s => (mkState (world s) (trace s) (all_profiles s) l (accumulated_urls s), Ok tt).

Definition set_accumulated_urls (u : pyset) : M unit :=
  fun s => (mkState (world s) (trace s) (all_profiles s) (accumulated_profiles s) u, Ok tt).

(** [await Runner.run(a, prompt)], then [.final_output]. *)
Definition Runner_run (a : agent) (prompt : string) : M pyval :=
  fun s =>
    let (w', r) := respond (world s) a prompt in
    (mkState w' (trace s ++ [Run a prompt]) (all_profiles s)
             (accumulated_profiles s) (accumulated_urls s), r).

Declare Scope workflow_scope.
Delimit Scope workflow_scope with wf.
Notation "x <- m ;; k" := (bind m (fun x => k))
  (at level 61, m at next level, right associativity) : workflow_scope.
Notation "m ;; k" := (bind m (fun _ => k))
  (at level 61, right associativity) : workflow_scope.
Local Open Scope workflow_scope.

(** [for title in titles: body], where the body may [break]. *)
Fixpoint for_titles (body : string -> M flow) (titles : list string) : M unit :=
  match titles with
  | [] => ret tt
  | title :: rest =>
      fl <- body title ;;
      match fl with
      | Break => ret tt
      | Continue => for_titles body rest
      end
  end.

Definition web_query (title : string) : string :=
  title ++ " at " ++ company ++ ". ".

Definition linkedin_query (title : string) : string :=
  title ++ " " ++ company ++
  " site:linkedin.com get Name, Position, complete work history and experience and previous roles in content Section".

Definition search_prompt (query : string) : string := "Search for: " ++ query.

(** The [try] block shared by the two stages up to its stop test:
    search, extract, extend the pool, deduplicate. *)
Definition search_and_pool (query : string) : M (list pyval) :=
  agent_result <- Runner_run loop_agent (search_prompt query) ;;
  profiles <- lift (extract_profiles json_loads agent_result) ;;
  s <- get_state ;;
  set_all_profiles (all_profiles s ++ profiles) ;;
  s <- get_state ;;
  lift (deduplicate_by_url (all_profiles s)).

(** Stage 2 (web-wide search), body of the loop over the titles. *)
Definition stage2_body (title : string) : M flow :=
  let query := web_query title in
  log (LogSearchWeb query) ;;
  try_
    (unique_profiles <- search_and_pool query ;;
     if len unique_profiles >? 2 * desired_profile then
       log (LogStopEarly (len unique_profiles) (2 * desired_profile)) ;;
       ret Break
     else ret Continue)
    (fun e => log (LogWebFailed title e) ;; ret Continue).

(** Stage 1 (LinkedIn-only search), body of the loop over the titles. *)
Definition stage1_body (title : string) : M flow :=
  let query := linkedin_query title in
  log (LogSearchLinkedIn query) ;;
  try_
    (unique_profiles <- search_and_pool query ;;
     if len unique_profiles >=? desired_profile then
       log (LogReachedTarget desired_profile) ;;
       ret Break
     else ret Continue)
    (fun e => log (LogLinkedInFailed title e) ;; ret Continue).

(** [json.dumps(unique_profiles, indent=2)] *)
Definition dumps (unique_profiles : list pyval) : except string :=
  if forallb serializable unique_profiles
  then Ok (json_dumps (PList unique_profiles))
  else Raise TypeError.

Definition filter_prompt (profiles_needed : Z) (filter_input : string) : string :=
  "Select the " ++ str_of_int profiles_needed ++
  " best profiles from this list (as a JSON array): " ++ filter_input.

(** [v.strip()] : a method of strings only. *)
Definition py_strip (v : pyval) : except string :=
  match v with
  | PStr s => Ok (strip s)
  | _ => Raise AttributeError
  end.

Definition loads (s : string) : except pyval :=
  match json_loads s with
  | Some v => Ok v
  | None => Raise JSONDecodeError
  end.

(** The [try] block that parses the filter agent's output, with its
    handler [filtered_profiles = []]. *)
Definition parse_filter_output (final_output : pyval) : M pyval :=
  try_
    (output <- lift (py_strip final_output) ;;
     lift (loads (strip_fence output)))
    (fun e => log (LogParseFailed e) ;; ret (PList [])).

(** The loop [for p in filtered_profiles] that fills [new_profiles]. *)
Fixpoint merge_loop (items : list pyval) (new_profiles : list pyval) : M (list pyval) :=
  match items with
  | [] => ret new_profiles
  | p :: rest =>
      url <- lift (py_get p "url") ;;
      if py_truthy url then
        s <- get_state ;;
        known <- lift (set_contains (accumulated_urls s) url) ;;
        if negb known then
          set_accumulated_urls (set_insert (accumulated_urls s) url) ;;
          merge_loop rest (new_profiles ++ [p])
        else merge_loop rest new_profiles
      else merge_loop rest new_profiles
  end.

(** The two-stage search of one attempt: lines 159 to 212. *)
Definition two_stage_search : M (list pyval) :=
  for_titles stage2_body position_titles ;;
  s <- get_state ;;
  unique_profiles <- lift (deduplicate_by_url (all_profiles s)) ;;
  log (LogFoundAfterWeb (len unique_profiles)) ;;
  (if len unique_profiles <? desired_profile then
     log (LogNeedMore (desired_profile - len unique_profiles)) ;;
     for_titles stage1_body (tl position_titles)
   else ret tt) ;;
  s <- get_state ;;
  lift (deduplicate_by_url (all_profiles s)).

(** Lines 159 to 217 of one iteration of [while attempt <= max_retries]:
    the pool is emptied, both stages run, the pool is deduplicated. *)
Definition attempt_search (attempt : Z) : M (list pyval) :=
  set_all_profiles [] ;;
  log (LogAttempt (attempt + 1) (max_retries + 1)) ;;
  unique_profiles <- two_stage_search ;;
  log (LogFiltering desired_profile) ;;
  ret unique_profiles.

(** Lines 220 to 248: the filter agent is asked once, its output parsed,
    the new profiles merged into the accumulator.  The value returned
    is what the later warning prints, [len(filtered_profiles)] and
    [profiles_needed]. *)
Definition filter_and_merge (unique_profiles : list pyval) : M (Z * Z) :=
  filter_input <- lift (dumps unique_profiles) ;;
  s <- get_state ;;
  let profiles_needed := desired_profile - len (accumulated_profiles s) in
  final_output <- Runner_run filter_agent (filter_prompt profiles_needed filter_input) ;;
  filtered_profiles <- parse_filter_output final_output ;;
  items <- lift (py_iter filtered_profiles) ;;
  new_profiles <- merge_loop items [] ;;
  s <- get_state ;;
  set_accumulated_profiles (accumulated_profiles s ++ new_profiles) ;;
  s <- get_state ;;
  log (LogAccumulated (len (accumulated_profiles s))) ;;
  ret (len items, profiles_needed).

(** Lines 219 to 255.  [Some l] is [return l], [None] falls through to
    [attempt += 1]. *)
Definition filter_and_accumulate (unique_profiles : list pyval) : M (option (list pyval)) :=
  if py_truthy (PList unique_profiles) then
    info <- filter_and_merge unique_profiles ;;
    s <- get_state ;;
    if len (accumulated_profiles s) >=? desired_profile then
      log (LogReachedDesired desired_profile) ;;
      ret (Some (slice_to (accumulated_profiles s) desired_profile))
    else
      log (LogRetrying (fst info) (snd info)) ;;
      ret None
  else
    log LogNoProfiles ;;
    ret None.

(** One iteration of [while attempt <= max_retries]. *)
Definition attempt_body (attempt : Z) : M (option (list pyval)) :=
  unique_profiles <- attempt_search attempt ;;
  filter_and_accumulate unique_profiles.

(** The lines after the loop. *)
Definition return_best_found : M (list pyval) :=
  log (LogExhausted (max_retries + 1) desired_profile) ;;
  s <- get_state ;;
  ret (if py_truthy (PList (accumulated_profiles s))
       then accumulated_profiles s else []).

(** [while attempt <= max_retries: ...; attempt += 1], started at
    [attempt = 0].  [remaining] counts the iterations the guard still
    allows, [max_retries + 1 - attempt]; once it is zero the guard is
    false. *)
Fixpoint retry_loop (remaining : nat) (attempt : Z) : M (list pyval) :=
  match remaining with
  | O => return_best_found
  | S remaining' =>
      outcome <- attempt_body attempt ;;
      match outcome with
      | Some profiles => ret profiles
      | None => retry_loop remaining' (attempt + 1)
      end
  end.

Definition initial_state (w : W) : state := mkState w [] [] [] [].

(** async def improved_search(position_titles, company, filter_agent,
    loop_agent, desired_profile, max_retries), run from the world [w]:
    the final state and the value returned or the exception raised. *)
Definition improved_search (w : W) : state * except (list pyval) :=
  retry_loop (Z.to_nat (max_retries + 1)) 0 (initial_state w).

End Workflow.

Arguments world {W} s.
Arguments trace {W} s.
Arguments all_profiles {W} s.
Arguments accumulated_profiles {W} s.
Arguments accumulated_urls {W} s.
Arguments M W A : clear implicits.
Arguments ret {W A} a s.
Arguments bind {W A B} m f s.
Arguments lift {W A} r s.
Arguments try_ {W A} m handler s.
Arguments get_state {W} s.
Arguments emit {W} e s.
Arguments log {W} line s.
Arguments set_all_profiles {W} l s.
Arguments set_accumulated_profiles {W} l s.
Arguments set_accumulated_urls {W} u s.
Arguments for_titles {W} body titles s.
Arguments initial_state {W} w.

(** main.py, [async def main(company, desired_profile, search_term)]:
    the [try] block that generates the titles and calls
    [improved_search] with [max_retries=2], and its handler
    [except Exception: return None].  The generation of the titles (the
    root agent and [parse_position_titles], with the fallback list) is
    the parameter [generate_titles]. *)
Definition main {W : Type}
    (respond : W -> agent -> string -> W * except pyval)
    (json_loads : string -> option pyval) (json_dumps : pyval -> string)
    (generate_titles : W -> W * except (list string))
    (company : string) (desired_profile : Z) (w : W) : option (list pyval) :=
  match generate_titles w with
  | (w1, Ok position_titles) =>
      match snd (improved_search W respond json_loads json_dumps
                                 position_titles company desired_profile 2 w1) with
      | Ok final_profiles => Some final_profiles
      | Raise _ => None
      end
  | (_, Raise _) => None
  end.

(** The number of attempts a trace shows started. *)
Definition is_attempt_start (e : event) : bool :=
  match e with
  | Log (LogAttempt _ _) => true
  | _ => false
  end.

Definition attempts_started (tr : list event) : nat :=
  List.length (filter is_attempt_start tr).

(** The prompts sent to an agent, in order. *)
Definition prompts_to (a : agent) (tr : list event) : list string :=
  flat_map (fun e =>
              match e, a with
              | Run loop_agent prompt, loop_agent => [prompt]
              | Run filter_agent prompt, filter_agent => [prompt]
              | _, _ => []
              end) tr.

(** ** Vocabulary of the statements *)

(** A computation [m] of the workflow respects a relation [R] on states
    when every run of it, normal or raising, takes a state to one that
    [R] relates to it. *)
Definition respects {W A : Type} (R : state W -> state W -> Prop) (m : M W A) : Prop :=
  forall s, R s (fst (m s)).

(** The cross-attempt accumulator is left as it was. *)
Definition same_accumulator {W : Type} (s s' : state W) : Prop :=
  accumulated_profiles s' = accumulated_profiles s
  /\ accumulated_urls s' = accumulated_urls s.

(** No attempt was started in between. *)
Definition same_attempts {W : Type} (s s' : state W) : Prop :=
  attempts_started (trace s') = attempts_started (trace s).

(** The state after one more log line. *)
Definition logged {W : Type} (s : state W) (line : log_line) : state W :=
  fst (log line s).

(** The state after the call [Runner.run(a, prompt)] that left the world
    in [w']. *)
Definition called {W : Type} (s : state W) (a : agent) (prompt : string) (w' : W)
  : state W :=
  mkState W w' (trace s ++ [Run a prompt]) (all_profiles s)
          (accumulated_profiles s) (accumulated_urls s).

(** The state with [profiles] appended to the pool of the attempt. *)
Definition pooled {W : Type} (s : state W) (profiles : list pyval) : state W :=
  mkState W (world s) (trace s) (all_profiles s ++ profiles)
          (accumulated_profiles s) (accumulated_urls s).

(** [len(deduplicate_by_url(all_profiles))] in a state, the count both
    stages compare with their threshold. *)
Definition pool_size {W : Type} (s : state W) : except Z :=
  let? unique_profiles := deduplicate_by_url (all_profiles s) in
  Ok (len unique_profiles).

(** The deduplicated pool holds more than [n] profiles. *)
Definition pool_exceeds {W : Type} (n : Z) (s : state W) : Prop :=
  exists k, pool_size s = Ok k /\ n < k.

(** The deduplicated pool holds at most [n] profiles (a pool that
    [deduplicate_by_url] refuses has no count, and is within any bound). *)
Definition pool_within {W : Type} (n : Z) (s : state W) : Prop :=
  forall k, pool_size s = Ok k -> k <= n.

(** The deduplicated pool holds at least [n] profiles. *)
Definition pool_reaches {W : Type} (n : Z) (s : state W) : Prop :=
  exists k, pool_size s = Ok k /\ n <= k.

(** The deduplicated pool holds fewer than [n] profiles (with the same
    convention). *)
Definition pool_below {W : Type} (n : Z) (s : state W) : Prop :=
  forall k, pool_size s = Ok k -> k < n.

(** The state with [new_profiles] appended to the accumulator. *)
Definition merged {W : Type} (s : state W) (new_profiles : list pyval) : state W :=
  mkState W (world s) (trace s) (all_profiles s)
          (accumulated_profiles s ++ new_profiles) (accumulated_urls s).

(** [p.get('url')] of a record, [None] when [p] has no such method. *)
Definition url_of (p : pyval) : pyval :=
  match py_get p "url" with
  | Ok url => url
  | Raise _ => PNone
  end.

(** A record fit for the accumulator: a mapping with a url that is
    non-empty (true as Python tests it) and hashable. *)
Definition keyed_record (p : pyval) : Prop :=
  is_dict p = true /\ py_truthy (url_of p) = true /\ hashable (url_of p) = true.

(** No two records of the list carry the same url, as Python compares
    urls. *)
Definition distinct_urls (l : list pyval) : Prop :=
  ForallOrdPairs
    (fun p q => key_eq (url_of p) (url_of q) = false
                /\ key_eq (url_of q) (url_of p) = false) l.

(** A profile list and a url set that fit together: the records are
    keyed, their urls are pairwise distinct, and the set holds exactly
    their urls. *)
Definition accumulator_consistent (profiles : list pyval) (urls : pyset) : Prop :=
  Forall keyed_record profiles
  /\ distinct_urls profiles
  /\ (forall url, In url urls <-> In url (map url_of profiles)).

(** The accumulator of a state is well formed. *)
Definition accumulator_ok {W : Type} (s : state W) : Prop :=
  accumulator_consistent (accumulated_profiles s) (accumulated_urls s).

(** From [s] to [s'] the accumulator only grew: the profile list was
    extended at its end, and every url of the set is still in it. *)
Definition accumulator_grows {W : Type} (s s' : state W) : Prop :=
  (exists new_profiles,
      accumulated_profiles s' = accumulated_profiles s ++ new_profiles)
  /\ incl (accumulated_urls s) (accumulated_urls s').



(** No search finds a profile: whatever the world and the prompt, the
    loop agent raises, or answers something [extract_profiles] gets no
    profile from. *)
Definition search_finds_nothing {W : Type}
    (respond : W -> agent -> string -> W * except pyval)
    (json_loads : string -> option pyval) : Prop :=
  forall w prompt,
    match snd (respond w loop_agent prompt) with
    | Ok agent_result =>
        match extract_profiles json_loads agent_result with
        | Ok profiles => profiles = []
        | Raise _ => True
        end
    | Raise _ => True
    end.

(** [unfulfilled n attempt s s'] : from the state [s], the [n] attempts
    numbered from [attempt] on each run to their end without reaching the
    desired count (none returns, none raises), and leave the state [s']. *)
Inductive unfulfilled {W : Type}
    (respond : W -> agent -> string -> W * except pyval)
    (json_loads : string -> option pyval) (json_dumps : pyval -> string)
    (position_titles : list string) (company : string)
    (desired_profile max_retries : Z)
  : nat -> Z -> state W -> state W -> Prop :=
| unfulfilled_done attempt s :
    unfulfilled respond json_loads json_dumps position_titles company
                desired_profile max_retries 0 attempt s s
| unfulfilled_step n attempt s s1 s2 :
    attempt_body W respond json_loads json_dumps position_titles company
                 desired_profile max_retries attempt s = (s1, Ok None) ->
    unfulfilled respond json_loads json_dumps position_titles company
                desired_profile max_retries n (attempt + 1) s1 s2 ->
    unfulfilled respond json_loads json_dumps position_titles company
                desired_profile max_retries (S n) attempt s s2.

(** What a search that finds nothing may change: an empty pool stays
    empty, the filter agent is not called, the accumulated profiles are
    as they were. *)
Definition nothing_found {W : Type} (s s' : state W) : Prop :=
  (all_profiles s = [] -> all_profiles s' = [])
  /\ prompts_to filter_agent (trace s') = prompts_to filter_agent (trace s)
  /\ accumulated_profiles s' = accumulated_profiles s.

(** A profile the pool can hold without harm: a profile record that
    [json.dumps] accepts. *)
Definition poolable (p : pyval) : Prop :=
  profile_record p /\ serializable p = true.

(** Every search answers with poolable profiles, or raises. *)
Definition searches_well_formed {W : Type}
    (respond : W -> agent -> string -> W * except pyval)
    (json_loads : string -> option pyval) : Prop :=
  forall w prompt,
    match snd (respond w loop_agent prompt) with
    | Ok agent_result =>
        match extract_profiles json_loads agent_result with
        | Ok profiles => Forall poolable profiles
        | Raise _ => True
        end
    | Raise _ => True
    end.

(** What the parsing block of the filter step makes of a final output:
    the decoded value, or the empty list when stripping or decoding
    raises. *)
Definition decoded (json_loads : string -> option pyval) (final_output : pyval) : pyval :=
  match (let? output := py_strip final_output in
         loads json_loads (strip_fence output)) with
  | Ok filtered_profiles => filtered_profiles
  | Raise _ => PList []
  end.

(** A record the merge loop passes over: a mapping whose url is absent
    or empty. *)
Definition unusable (p : pyval) : Prop :=
  is_dict p = true /\ py_truthy (url_of p) = false.

(** The filter keeps nothing: every call of the filter agent answers,
    and what its answer decodes to holds only unusable records (no
    record at all when the answer is not JSON). *)
Definition filter_keeps_nothing {W : Type}
    (respond : W -> agent -> string -> W * except pyval)
    (json_loads : string -> option pyval) : Prop :=
  forall w prompt,
    match snd (respond w filter_agent prompt) with
    | Ok final_output =>
        exists items,
          py_iter (decoded json_loads final_output) = Ok items
          /\ Forall unusable items
    | Raise _ => False
    end.

(** What a well-formed search may change: a poolable pool stays
    poolable, the accumulator is as it was. *)
Definition pool_kept_poolable {W : Type} (s s' : state W) : Prop :=
  (Forall poolable (all_profiles s) -> Forall poolable (all_profiles s'))
  /\ same_accumulator s s'.

(** ** A scripted environment, for the concrete runs *)

(** The double quote character, and a quoted word. *)
Definition dquote : string := String (ascii_of_nat 34) "".

Definition quoted (s : string) : string := dquote ++ s ++ dquote.

Fixpoint join (sep : string) (parts : list string) : string :=
  match parts with
  | [] => ""
  | [x] => x
  | x :: rest => x ++ sep ++ join sep rest
  end.

(** The JSON text of a value built from None, bool, int, plain strings,
    lists and dicts, which is all the concrete runs use. *)
Fixpoint demo_dumps (v : pyval) : string :=
  match v with
  | PNone => "null"
  | PBool true => "true"
  | PBool false => "false"
  | PInt z => str_of_int z
  | PStr s => quoted s
  | PList l | PTuple l => ("[" ++ join ", " (map demo_dumps l) ++ "]")%string
  | PDict d =>
      ("{" ++ join ", "
         (map (fun kv => (quoted (fst kv) ++ ": " ++ demo_dumps (snd kv))%string) d)
       ++ "}")%string
  | PFloat _ | PObj _ => "null"
  end.

Definition demo_record (title url : string) : pyval :=
  PDict [("title", PStr title); ("url", PStr url)].

Definition demo_results (records : list pyval) : pyval :=
  PDict [("results", PList records)].

Definition alice : pyval := demo_record "Alice, CTO" "https://example.com/alice".
Definition bob : pyval := demo_record "Bob, VP" "https://example.com/bob".
Definition carol : pyval := demo_record "Carol, Head" "https://example.com/carol".
Definition nameless : pyval := demo_record "No link" "".

(** The values whose text the scripted agents answer with. *)
Definition demo_values : list pyval :=
  [ demo_results [alice];
    demo_results [alice; nameless];
    demo_results [bob];
    demo_results [alice; bob; carol];
    demo_results [];
    PList [alice; bob];
    PList [alice];
    PList [bob; alice];
    PList [];
    PList [PStr "alice"];
    PDict [];
    PInt 5 ].

(** [json.loads] on the texts of the concrete runs: the text of each of
    [demo_values] decodes to that value, any other text is refused. *)
Definition demo_loads (s : string) : option pyval :=
  find (fun v => String.eqb (demo_dumps v) s) demo_values.

(** An agent's answer carrying the JSON text of [v], bare or inside a
    markdown fence. *)
Definition says (v : pyval) : except pyval := Ok (PStr (demo_dumps v)).

Definition says_fenced (v : pyval) : except pyval :=
  Ok (PStr ("```json " ++ demo_dumps v ++ " ```")).

(** A scripted capability: the world is the number of calls made so far,
    and the n-th call is answered by the n-th entry of the script,
    whichever agent is called; once the script is over every call
    fails. *)
Definition scripted (script : list (except pyval))
  : nat -> agent -> string -> nat * except pyval :=
  fun n _ _ => (S n, nth n script (Raise (AgentError "no answer"))).

Definition demo_titles : list string := ["CTO"; "VP Engineering"; "Head of R&D"].

(** The run of [improved_search] on a script, for Acme. *)
Abbreviation demo_run script desired_profile max_retries :=
  (improved_search nat (scripted script) demo_loads demo_dumps
                   demo_titles "Acme" desired_profile max_retries 0%nat).

(** Attempt 1: the first search fails, the next two find Alice only, the
    fallback stage finds Bob on its first title, the filter keeps both. *)
Definition script_success : list (except pyval) :=
  [ Raise (AgentError "timeout");
    says (demo_results [alice]);
    says (demo_results [alice; nameless]);
    says (demo_results [bob]);
    says_fenced (PList [alice; bob]) ].

(** The three searches of the broad stage when each of them finds Alice,
    Bob and Carol: enough for a desired count of 2 to skip the fallback
    stage, not enough to end the broad stage early. *)
Definition found_three : list (except pyval) :=
  repeat (says (demo_results [alice; bob; carol])) 3.

(** Two attempts: the filter keeps Alice in the first, Bob and Alice in
    the second. *)
Definition script_retry : list (except pyval) :=
  found_three ++ [says (PList [alice])] ++
  found_three ++ [says (PList [bob; alice])].

(** Every search comes back without a profile. *)
Definition script_nothing : list (except pyval) :=
  repeat (says (demo_results [])) 15.

(** The filter answers with a JSON array of strings. *)
Definition script_strings : list (except pyval) :=
  found_three ++ [says (PList [PStr "alice"])].

(** The filter answers with an empty JSON object at every attempt. *)
Definition script_empty_object : list (except pyval) :=
  found_three ++ [says (PDict [])] ++
  found_three ++ [says (PDict [])] ++
  found_three ++ [says (PDict [])].

(** A pool with two urls seen twice, an empty url and an absent one. *)
Definition demo_pool : list pyval :=
  [ alice; nameless; bob; alice; PDict [("title", PStr "No url at all")]; bob; carol ].

(** The broad stage finds Alice only; in the fallback stage the first
    search fails and the second finds Bob. *)
Definition script_fallback_failure : list (except pyval) :=
  repeat (says (demo_results [alice])) 3 ++
  [ Raise (AgentError "rate limit");
    says (demo_results [bob]);
    says (PList [alice; bob]) ].

(** Capabilities without memory: every search is answered with
    [search_answer], every call of the filter agent with
    [filter_answer]. *)
Definition constant_answers (search_answer filter_answer : except pyval)
  : unit -> agent -> string -> unit * except pyval :=
  fun _ a _ =>
    (tt, match a with
         | loop_agent => search_answer
         | filter_agent => filter_answer
         end).

(** Every search finds Alice, Bob and Carol; the filter always answers
    with an empty JSON object. *)
Definition fruitless : unit -> agent -> string -> unit * except pyval :=
  constant_answers (says (demo_results [alice; bob; carol])) (says (PDict [])).


(** The pieces of the workflow on a script, for Acme and the three
    titles, with [max_retries = 2]. *)
Abbreviation demo_stage2 script desired_profile :=
  (stage2_body nat (scripted script) demo_loads "Acme" desired_profile).

Abbreviation demo_stage1 script desired_profile :=
  (stage1_body nat (scripted script) demo_loads "Acme" desired_profile).

Abbreviation demo_two_stage_search script desired_profile :=
  (two_stage_search nat (scripted script) demo_loads demo_titles "Acme" desired_profile).

Abbreviation demo_attempt_search script desired_profile :=
  (attempt_search nat (scripted script) demo_loads demo_titles "Acme" desired_profile 2).

Abbreviation demo_filter_and_merge script desired_profile :=
  (filter_and_merge nat (scripted script) demo_loads demo_dumps desired_profile).

Abbreviation demo_filter_and_accumulate script desired_profile :=
  (filter_and_accumulate nat (scripted script) demo_loads demo_dumps desired_profile).

Abbreviation demo_attempt_body script desired_profile :=
  (attempt_body nat (scripted script) demo_loads demo_dumps demo_titles "Acme"
                desired_profile 2).

Abbreviation demo_retry_loop script desired_profile :=
  (retry_loop nat (scripted script) demo_loads demo_dumps demo_titles "Acme"
              desired_profile 2).

(** The state in which a run starts. *)
Definition demo_start : state nat := initial_state 0%nat.

(** The state after the broad stage of the first attempt, and the
    deduplicated pool there. *)
Definition after_broad_stage (script : list (except pyval)) (desired_profile : Z)
  : state nat :=
  fst (for_titles (demo_stage2 script desired_profile) demo_titles demo_start).

Definition pool_after_broad_stage (script : list (except pyval)) (desired_profile : Z)
  : list pyval :=
  match deduplicate_by_url (all_profiles (after_broad_stage script desired_profile)) with
  | Ok unique_profiles => unique_profiles
  | Raise _ => []
  end.

(** The state after the search part of the first attempt, the pool it
    hands to the filter, and the state after the merge. *)
Definition after_search (script : list (except pyval)) (desired_profile : Z)
  : state nat :=
  fst (demo_attempt_search script desired_profile 0 demo_start).

Definition pool_after_search (script : list (except pyval)) (desired_profile : Z)
  : list pyval :=
  match snd (demo_attempt_search script desired_profile 0 demo_start) with
  | Ok unique_profiles => unique_profiles
  | Raise _ => []
  end.

Definition after_merge (script : list (except pyval)) (desired_profile : Z)
  : state nat :=
  fst (demo_filter_and_merge script desired_profile
         (pool_after_search script desired_profile)
         (after_search script desired_profile)).

(** The state after the whole first attempt. *)
Definition after_attempt (script : list (except pyval)) (desired_profile : Z)
  : state nat :=
  fst (demo_attempt_body script desired_profile 0 demo_start).

(** ** The title parser *)

(** The text after the first opening bracket. *)
Fixpoint from_open_bracket (s : string) : option string :=
  match s with
  | EmptyString => None
  | String c s' => if Ascii.eqb c "["%char then Some s' else from_open_bracket s'
  end.

(** The text up to the last closing bracket, that bracket included. *)
Fixpoint upto_close_bracket (s : string) : option string :=
  match s with
  | EmptyString => None
  | String c s' =>
      match upto_close_bracket s' with
      | Some m => Some (String c m)
      | None => if Ascii.eqb c "]"%char then Some (String c EmptyString) else None
      end
  end.

(** [re.search(r'\[.*\]', s, re.DOTALL)], and [.group()] of the match:
    the search starts at the first opening bracket, and the greedy [.*]
    (which spans lines) runs to the last closing bracket after it. *)
Definition json_match (s : string) : option string :=
  match from_open_bracket s with
  | Some rest =>
      match upto_close_bracket rest with
      | Some m => Some (String "["%char m)
      | None => None
      end
  | None => None
  end.

Definition newline : ascii := "010"%char.

(** [s.split('\n')] *)
Fixpoint split_lines (s : string) : list string :=
  match s with
  | EmptyString => [EmptyString]
  | String c s' =>
      if Ascii.eqb c newline then EmptyString :: split_lines s'
      else match split_lines s' with
           | line :: lines => String c line :: lines
           | [] => [String c EmptyString]
           end
  end.

(** The class [[\d\-\.\s]] of the pattern that removes the numbering, on
    an ASCII character: a digit, a dash, a dot, or a blank as [is_space]
    has it. *)
Definition is_numbering (c : ascii) : bool :=
  let n := nat_of_ascii c in
  ((48 <=? n) && (n <=? 57))%nat
  || Ascii.eqb c "-"%char || Ascii.eqb c "."%char || is_space c.

(** [re.sub(r'^[\d\-\.\s]+', '', line)] *)
Fixpoint drop_numbering (line : string) : string :=
  match line with
  | EmptyString => EmptyString
  | String c line' => if is_numbering c then drop_numbering line' else line
  end.

(** The body of the loop [for line in lines] of [parse_position_titles]:
    what one line appends to [position_titles].  The line is read
    character by character, which for ASCII text is how [strip], [len]
    and the pattern read it. *)
Definition title_of_line (line : string) : list pyval :=
  let line := strip line in
  if negb (String.eqb line "") && negb (startswith line "#")
     && (3 <? String.length line)%nat
  then
    let clean_line := drop_numbering line in
    if negb (String.eqb clean_line "") then [PStr clean_line] else []
  else [].

Section TitleParser.

(** [json.loads] on a string; [None] is the exception it raises. *)
Variable json_loads : string -> option pyval.

(** def parse_position_titles(agent_output) *)
Definition parse_position_titles (agent_output : pyval) : pyval :=
  match agent_output with
  | PStr s =>
      match json_match s with
      | Some m =>
          match json_loads m with
          | Some position_titles => position_titles
          | None => if py_truthy agent_output then PList [agent_output] else PList []
          end
      | None => PList (flat_map title_of_line (split_lines s))
      end
  | _ => agent_output
  end.

(** The fallback list of [main]. *)
Definition fallback_titles : list pyval :=
  [ PStr "VP of R&D"; PStr "Head of R&D"; PStr "CTO"; PStr "CIO";
    PStr "Director of Innovation"; PStr "Head of Digital Transformation";
    PStr "VP Engineering"; PStr "Chief Innovation Officer" ].

(** main.py, lines 138 to 155: the titles [main] goes on with, from the
    final output of the root agent.  The loop that logs the titles
    raises on a value that cannot be iterated. *)
Definition titles_for_search (final_output : pyval) : except pyval :=
  let position_titles := parse_position_titles final_output in
  if py_truthy position_titles then
    let? _ := py_iter position_titles in
    Ok position_titles
  else Ok (PList fallback_titles).

End TitleParser.

(** A text of ASCII characters only.  On such a text a character of the
    model is a character of the Python string, [String.length] is [len],
    and [is_space] and [is_numbering] are what [str.strip] and the
    classes [\s] and [\d] of a pattern take for blanks and digits. *)
Fixpoint ascii_text (s : string) : bool :=
  match s with
  | EmptyString => true
  | String c s' => (nat_of_ascii c <? 128)%nat && ascii_text s'
  end.


(** Whether the character [c] occurs in [s]. *)
Fixpoint occurs (c : ascii) (s : string) : bool :=
  match s with
  | EmptyString => false
  | String c' s' => Ascii.eqb c' c || occurs c s'
  end.



(** ** api.py: the job store and its endpoints *)

Module Api.

(** utility.py, [class FilteredProfile(BaseModel)] *)
Record FilteredProfile : Type := mkFilteredProfile {
  title : string;
  url : string;
  content : string;
  score : Q;
  experience : pyval
}.

(** The dict kept under [job_status[request_id]], by its six keys. *)
Record job : Type := mkJob {
  status : string;
  message : string;
  profiles : pyval;
  created_at : string;
  completed_at : option string;
  error : option string
}.

(** [job_status = {}] : the dict of the jobs, in insertion order. *)
Definition store : Type := list (string * job).

(** What the endpoints and the background task raise: the exceptions
    they raise themselves, the [ValidationError] of pydantic when a
    response is built from values its model refuses, and an exception
    of [json.loads] that is no [json.JSONDecodeError], by its text. *)
Inductive failure : Type :=
| HTTPException (status_code : Z) (detail : string)
| KeyError (key : string)
| ValidationError
| LoadsError (text : string).

Inductive result (A : Type) : Type :=
| Done (a : A)
| Failed (f : failure).

Arguments Done {A} a.
Arguments Failed {A} f.

(** [json.loads] on a string, as the handlers of this file tell its
    outcomes apart: the value, a [json.JSONDecodeError], or an exception
    of another class (the [RecursionError] of a deep nesting, the
    [ValueError] of an integer of too many digits), of which [str(e)] is
    kept. *)
Inductive loaded : Type :=
| Loaded (v : pyval)
| NotJSON
| Refused (text : string).

(** [job_status[request_id]], [None] when the key is absent. *)
Fixpoint lookup (job_status : store) (request_id : string) : option job :=
  match job_status with
  | [] => None
  | (k, j) :: rest => if String.eqb k request_id then Some j else lookup rest request_id
  end.

(** [job_status[request_id] = j] : an existing key keeps its place, a new
    one goes to the end. *)
Fixpoint assign (job_status : store) (request_id : string) (j : job) : store :=
  match job_status with
  | [] => [(request_id, j)]
  | (k, j0) :: rest =>
      if String.eqb k request_id then (k, j) :: rest
      else (k, j0) :: assign rest request_id j
  end.

(** [del job_status[request_id]] *)
Fixpoint remove (job_status : store) (request_id : string) : store :=
  match job_status with
  | [] => []
  | (k, j) :: rest =>
      if String.eqb k request_id then rest else (k, j) :: remove rest request_id
  end.

(** The arguments [search_prospects] builds its [ProspectResponse] from. *)
Module ProspectResponse.
Record t : Type := mk {
  request_id : string;
  status : string;
  message : string;
  profiles : option (list pyval);
  created_at : string
}.
End ProspectResponse.

(** The arguments [get_search_status] builds its [SearchStatusResponse]
    from. *)
Module SearchStatusResponse.
Record t : Type := mk {
  request_id : string;
  status : string;
  message : string;
  profiles : list pyval;
  created_at : string;
  completed_at : option string
}.
End SearchStatusResponse.

(** One entry of the list [list_searches] returns. *)
Module Summary.
Record t : Type := mk {
  request_id : string;
  status : string;
  created_at : string;
  completed_at : option string
}.
End Summary.

(** async def search_prospects(request, background_tasks), where
    [request_id] is the value of [str(uuid.uuid4())] and [now] that of
    [datetime.now().isoformat()]: the store with the new job, and the
    response.  The background task it schedules is
    [process_prospect_search] below. *)
Definition search_prospects (request_id now : string) (job_status : store)
  : store * ProspectResponse.t :=
  let job_status :=
    assign job_status request_id
           (mkJob "processing" "Search initiated" PNone now None None) in
  (job_status,
   ProspectResponse.mk
     request_id "processing"
     "Search initiated successfully. Use GET /prospect/status/{request_id} to check progress."
     None
     (match lookup job_status request_id with
      | Some j => created_at j
      | None => now
      end)).

(** Lines 158 to 188 of [get_search_status]: the list [valid_profiles]
    made from what the job holds under [profiles].  The handler of line
    170 catches a [json.JSONDecodeError] only; any other exception of
    [json.loads] leaves the endpoint. *)
Definition valid_profiles (json_loads : string -> loaded) (stored : pyval)
  : result (list pyval) :=
  let profiles := if py_truthy stored then stored else PList [] in
  let parsed : result pyval :=
    match profiles with
    | PStr s =>
        match json_loads (strip_fence s) with
        | Loaded v => Done v
        | NotJSON => Done (PList [])
        | Refused text => Failed (LoadsError text)
        end
    | _ => Done profiles
    end in
  match parsed with
  | Failed f => Failed f
  | Done profiles =>
      let profiles := match profiles with PList l => l | _ => [] end in
      Done (flat_map
              (fun p =>
                 match p with
                 | PDict d =>
                     [PDict [("title", dict_get_default d "title" (PStr ""));
                             ("url", dict_get_default d "url" (PStr ""));
                             ("content", dict_get_default d "content" (PStr ""));
                             ("score", dict_get_default d "score" (PFloat 0))]]
                 | _ => []
                 end) profiles)
  end.

(** async def get_search_status(request_id).  [accepts_profile p] tells
    whether pydantic takes the mapping [p] for a [Profile] (title, url
    and content of type str, score of type float) when
    [SearchStatusResponse(profiles=valid_profiles, ...)] is built; a
    mapping it refuses makes the constructor raise its
    [ValidationError].  The other arguments are texts of the job, which
    the model of the response accepts. *)
Definition get_search_status (json_loads : string -> loaded)
    (accepts_profile : pyval -> bool)
    (request_id : string) (job_status : store) : result SearchStatusResponse.t :=
  match lookup job_status request_id with
  | None => Failed (HTTPException 404 "Request ID not found")
  | Some j =>
      match valid_profiles json_loads (profiles j) with
      | Failed f => Failed f
      | Done valid =>
          if forallb accepts_profile valid then
            Done (SearchStatusResponse.mk request_id (status j) (message j) valid
                    (created_at j) (completed_at j))
          else Failed ValidationError
      end
  end.

(** async def list_searches() : the entries and the total. *)
Definition list_searches (job_status : store) : list Summary.t * Z :=
  (map (fun entry =>
          Summary.mk (fst entry) (status (snd entry))
                     (created_at (snd entry)) (completed_at (snd entry)))
       job_status,
   len job_status).

(** async def delete_search(request_id) : the store, and the message
    returned. *)
Definition delete_search (request_id : string) (job_status : store)
  : store * result string :=
  match lookup job_status request_id with
  | None => (job_status, Failed (HTTPException 404 "Request ID not found"))
  | Some _ =>
      (remove job_status request_id,
       Done ("Search request " ++ request_id ++ " deleted successfully")%string)
  end.

(** What [await prospect_main(...)] comes back with: a value of the
    Python fragment, a list that holds [FilteredProfile] instances, or an
    exception, of which [str(search_error)] is kept. *)
Inductive returned : Type :=
| Value (v : pyval)
| Listing (l : list (FilteredProfile + pyval)).

Inductive main_outcome : Type :=
| Returns (r : returned)
| Raises (text : string).

(** [if profiles:] *)
Definition truthy (r : returned) : bool :=
  match r with
  | Value v => py_truthy v
  | Listing l => match l with [] => false | _ => true end
  end.

(** Lines 291 to 301: the loop that fills [profile_dicts]. *)
Definition dicts_of (profiles : list (FilteredProfile + pyval)) : list pyval :=
  flat_map (fun profile =>
              match profile with
              | inl fp =>
                  [PDict [("title", PStr (title fp)); ("url", PStr (url fp));
                          ("content", PStr (content fp)); ("score", PFloat (score fp))]]
              | inr (PDict d) => [PDict d]
              | inr _ => []
              end) profiles.

(** Lines 273 to 301: the list [profile_dicts], or the text of the
    exception of [json.loads] that the handler of line 282 does not
    catch. *)
Definition profile_dicts (json_loads : string -> loaded) (r : returned)
  : list pyval + string :=
  match r with
  | Value (PStr s) =>
      match json_loads (strip_fence s) with
      | Loaded (PList l) => inl (dicts_of (map inr l))
      | Loaded _ => inl []
      | NotJSON => inl []
      | Refused text => inr text
      end
  | Value (PList l) => inl (dicts_of (map inr l))
  | Value _ => inl []
  | Listing l => inl (dicts_of l)
  end.

(** [needle in text] on strings. *)
Fixpoint contains (text needle : string) : bool :=
  String.prefix needle text
  || match text with
     | EmptyString => false
     | String _ text' => contains text' needle
     end.

(** [company.replace(' ', '_')] *)
Fixpoint replace_spaces (s : string) : string :=
  match s with
  | EmptyString => EmptyString
  | String c s' =>
      String (if Ascii.eqb c " "%char then "_"%char else c) (replace_spaces s')
  end.

(** The two [update] calls of the handler of a failed search. *)
Definition failed_job (text now : string) (j : job) : job :=
  let pydantic_msg :=
    "Pydantic version compatibility issue detected. Please ensure you have the correct version of dependencies installed." in
  mkJob "error"
        (if contains text "experimental_allow_partial"
         then ("Search failed due to dependency compatibility issue: " ++ pydantic_msg)%string
         else ("Search failed: " ++ text)%string)
        (profiles j) (created_at j) (Some now) (Some text).

(** The handler of line 324, for an exception with the text [text]. *)
Definition crashed_job (text now : string) (j : job) : job :=
  mkJob "error" ("Search failed: " ++ text)%string
        (profiles j) (created_at j) (Some now) (Some text).

(** Lines 302 (or 318) and 320 to 322. *)
Definition completed_job (dicts : list pyval) (now : string) (j : job) : job :=
  mkJob "completed" "Search completed successfully." (PList dicts)
        (created_at j) (Some now) (error j).

(** Lines 236 and 237. *)
Definition processing_job (j : job) : job :=
  mkJob "processing" "Searching for prospects..." (profiles j)
        (created_at j) (completed_at j) (error j).

(** [process_prospect_search] up to its [await]: lines 233 to 237.  An
    absent job makes every access to [job_status[request_id]] raise
    [KeyError], in the handler of line 324 too, so the exception leaves
    the task. *)
Definition start_processing (request_id : string) (job_status : store)
  : store * result unit :=
  match lookup job_status request_id with
  | None => (job_status, Failed (KeyError request_id))
  | Some j => (assign job_status request_id (processing_job j), Done tt)
  end.

(** [process_prospect_search] from the point where the awaited call
    comes back: lines 243 to 329.  [prospect_main] is what it comes back
    with, [file_now] and [now] are the values of
    [datetime.now().isoformat()].  The result is the store, the lines the
    task asks to append to files (file name and JSON value; a failure to
    write is logged and changes nothing else), and how the task ends.
    An exception of [json.loads] that is no [json.JSONDecodeError]
    reaches the handler of line 324, before anything is stored or
    written. *)
Definition finish_processing
    (json_loads : string -> loaded) (prospect_main : main_outcome)
    (file_now now : string) (request_id company : string) (job_status : store)
  : store * list (string * pyval) * result unit :=
  match lookup job_status request_id with
  | None => (job_status, [], Failed (KeyError request_id))
  | Some j =>
      match prospect_main with
      | Raises text =>
          (assign job_status request_id (failed_job text now j), [], Done tt)
      | Returns r =>
          if truthy r then
            match profile_dicts json_loads r with
            | inl dicts =>
                (assign job_status request_id (completed_job dicts now j),
                 [((replace_spaces company ++ ".json")%string,
                   PDict [("timestamp", PStr file_now); ("company", PStr company);
                          ("profiles", PList dicts)])],
                 Done tt)
            | inr text =>
                (assign job_status request_id (crashed_job text now j), [], Done tt)
            end
          else
            (assign job_status request_id (completed_job [] now j), [], Done tt)
      end
  end.

(** async def process_prospect_search(request_id, company, search_term,
    max_profiles), where [meanwhile] is what the other requests do to
    the store while the call of [main] is awaited. *)
Definition process_prospect_search
    (json_loads : string -> loaded)
    (prospect_main : main_outcome) (meanwhile : store -> store)
    (file_now now : string) (request_id company : string) (job_status : store)
  : store * list (string * pyval) * result unit :=
  match start_processing request_id job_status with
  | (job_status, Failed f) => (job_status, [], Failed f)
  | (job_status, Done _) =>
      finish_processing json_loads prospect_main file_now now request_id company
                        (meanwhile job_status)
  end.

(** What the task gets from [main] of main.py: the list it returns, or
    [None] when its handler caught an exception. *)
Definition main_returned (final_profiles : option (list pyval)) : main_outcome :=
  Returns (Value (match final_profiles with
                  | Some l => PList l
                  | None => PNone
                  end)).

(** The store is a dict: no key occurs twice. *)
Definition well_formed (job_status : store) : Prop :=
  NoDup (map fst job_status).

(** The profiles of a job as the task stores them: a list of mappings. *)
Definition stored_list (j : job) : Prop :=
  exists l, profiles j = PList l /\ forallb is_dict l = true.

(** The stores the service can be in: it starts empty, and every step
    is a request served or a part of a background task, in any order
    and with any arguments. *)
Inductive reachable (json_loads : string -> loaded) : store -> Prop :=
| reachable_empty : reachable json_loads []
| reachable_search job_status request_id now :
    reachable json_loads job_status ->
    reachable json_loads (fst (search_prospects request_id now job_status))
| reachable_delete job_status request_id :
    reachable json_loads job_status ->
    reachable json_loads (fst (delete_search request_id job_status))
| reachable_start job_status request_id :
    reachable json_loads job_status ->
    reachable json_loads (fst (start_processing request_id job_status))
| reachable_finish job_status prospect_main file_now now request_id company :
    reachable json_loads job_status ->
    reachable json_loads
      (fst (fst (finish_processing json_loads prospect_main file_now now
                                   request_id company job_status))).

(** The entry [get_search_status] makes of a stored mapping. *)
Definition four_keys (p : pyval) : pyval :=
  match p with
  | PDict d =>
      PDict [("title", dict_get_default d "title" (PStr ""));
             ("url", dict_get_default d "url" (PStr ""));
             ("content", dict_get_default d "content" (PStr ""));
             ("score", dict_get_default d "score" (PFloat 0))]
  | _ => p
  end.

End Api.

(** ** Vocabulary of the further properties *)

(** What [extract_profiles] looks into: the value itself, or what its
    text decodes to once the fence is removed. *)
Definition decoded_result (json_loads : string -> option pyval) (result : pyval)
  : option pyval :=
  match result with
  | PStr s => json_loads (strip_fence s)
  | _ => Some result
  end.

(** The value [extract_profiles] takes the profiles from in a mapping:
    the one under [results], else the one under [profiles]. *)
Definition selected_data (d : list (string * pyval)) : pyval :=
  if dict_has d "results" then dict_get_default d "results" PNone
  else if dict_has d "profiles" then dict_get_default d "profiles" PNone
  else PNone.

(** A value that passes [if v:] and that a [for] loop refuses: True, or
    a number other than zero. *)
Definition truthy_scalar (v : pyval) : bool :=
  py_truthy v && match py_iter v with Raise _ => true | Ok _ => false end.

(** A record of the shape [extract_profiles] builds. *)
Definition base_shaped (p : pyval) : Prop :=
  exists title url content score, p = base_profile title url content score.

(** A record [deduplicate_by_url] accepts: a mapping whose url is empty
    (false as Python tests it) or hashable. *)
Definition dedupable (p : pyval) : Prop :=
  is_dict p = true
  /\ (py_truthy (url_of p) = false \/ hashable (url_of p) = true).

(** The set [seen] of [deduplicate_by_url] once its loop has gone
    through [profiles], started from [seen]. *)
Fixpoint seen_after (profiles : list pyval) (seen : pyset) : pyset :=
  match profiles with
  | [] => seen
  | p :: rest =>
      if py_truthy (url_of p) && hashable (url_of p)
         && negb (existsb (key_eq (url_of p)) seen)
      then seen_after rest (set_insert seen (url_of p))
      else seen_after rest seen
  end.

(** A pool whose urls are numbers and text: 1, 1.0 and True are one and
    the same key of a Python set, 0 is an empty url. *)
Definition numbered_pool : list pyval :=
  [ PDict [("url", PInt 1)]; PDict [("url", PFloat 1)]; PDict [("url", PBool true)];
    PDict [("url", PStr "a")]; PDict [("url", PInt 0)]; PDict [("url", PStr "a")] ].

(** No prompt was sent to the agent [a] in between. *)
Definition same_calls {W : Type} (a : agent) (s s' : state W) : Prop :=
  prompts_to a (trace s') = prompts_to a (trace s).

(** At most [n] prompts were sent to the agent [a] in between. *)
Definition calls_within {W : Type} (a : agent) (n : nat) (s s' : state W) : Prop :=
  (List.length (prompts_to a (trace s'))
   <= List.length (prompts_to a (trace s)) + n)%nat.

(** The searches [improved_search] has to choose from: the web-wide
    query of each title, the LinkedIn query of each title but the
    first. *)
Definition search_prompts_of (position_titles : list string) (company : string)
  : list string :=
  map (fun title => search_prompt (web_query company title)) position_titles
  ++ map (fun title => search_prompt (linkedin_query company title))
         (tl position_titles).

(** The prompts sent to the loop agent in between are all among
    [allowed]. *)
Definition only_searches {W : Type} (allowed : list string) (s s' : state W) : Prop :=
  exists extra,
    prompts_to loop_agent (trace s') = prompts_to loop_agent (trace s) ++ extra
    /\ incl extra allowed.

(** A prompt that asks the filter agent for a number of profiles
    between [lo] and [hi]. *)
Definition asks_between (lo hi : Z) (prompt : string) : Prop :=
  exists n filter_input, lo <= n <= hi /\ prompt = filter_prompt n filter_input.

(** The filter agent was asked at most once in between, and then for
    the number of profiles the accumulator of [s] still lacks. *)
Definition asked_for_the_rest {W : Type} (desired_profile : Z) (s s' : state W) : Prop :=
  prompts_to filter_agent (trace s') = prompts_to filter_agent (trace s)
  \/ exists filter_input,
      prompts_to filter_agent (trace s')
      = prompts_to filter_agent (trace s)
        ++ [filter_prompt (desired_profile - len (accumulated_profiles s)) filter_input].

(** A value that some answer of the filter agent holds: an item of what
    the parsing block makes of one of its final outputs. *)
Definition filter_item {W : Type}
    (respond : W -> agent -> string -> W * except pyval)
    (json_loads : string -> option pyval) (p : pyval) : Prop :=
  exists w prompt final_output items,
    snd (respond w filter_agent prompt) = Ok final_output
    /\ py_iter (decoded json_loads final_output) = Ok items
    /\ In p items.

(** The accumulator still holds items of filter answers only, if it did
    before. *)
Definition keeps_filter_items {W : Type}
    (respond : W -> agent -> string -> W * except pyval)
    (json_loads : string -> option pyval) (s s' : state W) : Prop :=
  Forall (filter_item respond json_loads) (accumulated_profiles s) ->
  Forall (filter_item respond json_loads) (accumulated_profiles s').



Definition output_with_two_arrays : string := "Use [CTO] or [CIO] here".

Definition output_of_short_titles : string :=
  join (String newline "") ["CTO"; "CIO"; ""; " VP "].

(** A store with two jobs, and the times of the concrete runs. *)
Definition first_job : Api.job :=
  Api.mkJob "processing" "Searching for prospects..." PNone "2024-05-01T10:00:00" None None.

Definition second_job : Api.job :=
  Api.mkJob "completed" "Search completed successfully." (PList [alice])
            "2024-05-01T09:00:00" (Some "2024-05-01T09:05:00") None.

Definition two_jobs : Api.store := [("job-1", first_job); ("job-2", second_job)].

(** A title generation that fails, which makes [main] return [None]. *)
Definition failing_titles (w : nat) : nat * except (list string) :=
  (w, Raise (AgentError "no titles")).

(** [json.loads] of the service on the texts of the concrete runs: no
    text is refused for another reason than not being JSON. *)
Definition demo_api_loads (s : string) : Api.loaded :=
  match demo_loads s with
  | Some v => Api.Loaded v
  | None => Api.NotJSON
  end.

(** The mappings the concrete runs take to be accepted as a [Profile]:
    the three texts are texts and the score is a number. *)
Definition demo_accepts (p : pyval) : bool :=
  match p with
  | PDict d =>
      match dict_get d "title", dict_get d "url", dict_get d "content", dict_get d "score" with
      | Some (PStr _), Some (PStr _), Some (PStr _), Some (PInt _ | PFloat _) => true
      | _, _, _, _ => false
      end
  | _ => false
  end.

(** A record whose title is null, which the response model refuses. *)
Definition untitled : pyval :=
  PDict [("title", PNone); ("url", PStr "https://example.com/dave")].

(** The store after one search was registered, started, and finished
    with Alice, a text that is no profile, and Bob. *)
Definition served_store : Api.store :=
  fst (fst (Api.finish_processing demo_api_loads
              (Api.Returns (Api.Value (PList [alice; PStr "noise"; bob])))
              "2024-05-01T10:04:59" "2024-05-01T10:05:00" "job-1" "Acme Corp"
              (fst (Api.start_processing "job-1"
                      (fst (Api.search_prospects "job-1" "2024-05-01T10:00:00" [])))))).

(** The same, when the search came back with a record without title. *)
Definition store_with_untitled : Api.store :=
  fst (fst (Api.finish_processing demo_api_loads
              (Api.Returns (Api.Value (PList [alice; untitled])))
              "2024-05-01T10:04:59" "2024-05-01T10:05:00" "job-1" "Acme Corp"
              (fst (Api.start_processing "job-1"
                      (fst (Api.search_prospects "job-1" "2024-05-01T10:00:00" [])))))).

(** * Properties *)

(** ** The Result Extractor *)

Section ExtractorFacts.

Variable json_loads : string -> option pyval.

(** C1 (the code departs from the claim).  A raw response that is a
    list, given as such or decoded from a text after its fence is
    removed, is never treated as the profile sequence:
    [extract_profiles] leaves at its test
    [if not isinstance(result, dict)] before it reaches the branch
    written for lists, and returns the empty sequence whatever the list
    holds. *)
Theorem extract_profiles_returns_nothing_for_a_list :
  (forall l : list pyval, extract_profiles json_loads (PList l) = Ok [])
  /\ (forall (s : string) (l : list pyval),
        json_loads (strip_fence s) = Some (PList l) ->
        extract_profiles json_loads (PStr s) = Ok []).
Proof.
  split.
  - intros l. unfold extract_profiles.
    destruct (negb (py_truthy (PList l))); reflexivity.
  - intros s l H. unfold extract_profiles.
    destruct (negb (py_truthy (PStr s))); [reflexivity|].
    rewrite H. reflexivity.
Qed.

(** The same mapping inside a list and under the key [results]: only
    the second is extracted. *)
Example extract_profiles_one_mapping_in_a_list :
  extract_profiles json_loads
    (PList [PDict [("title", PStr "CTO"); ("url", PStr "https://example.com/a")]]) = Ok []
  /\ extract_profiles json_loads
       (PDict [("results",
                PList [PDict [("title", PStr "CTO"); ("url", PStr "https://example.com/a")]])])
     = Ok [base_profile (PStr "CTO") (PStr "https://example.com/a") (PStr "") (PInt 0)].
Proof. split; reflexivity. Qed.

End ExtractorFacts.

(** ** The Deduplicator *)

Lemma dedup_loop_unique :
  forall profiles seen unique,
    dedup_loop profiles seen unique
    = (let? kept := dedup_loop profiles seen [] in Ok (unique ++ kept)).
Proof.
  induction profiles as [|p rest IH]; intros seen unique; simpl.
  - now rewrite app_nil_r.
  - destruct (py_get p "url") as [url|e]; simpl; [|reflexivity].
    destruct (py_truthy url); [|apply IH].
    destruct (set_contains seen url) as [known|e]; simpl; [|reflexivity].
    destruct known; simpl; [apply IH|].
    rewrite (IH _ (unique ++ [p])), (IH _ [p]).
    destruct (dedup_loop rest (set_insert seen url) []); simpl; [|reflexivity].
    now rewrite <- app_assoc.
Qed.

Lemma dedup_loop_cons_kept :
  forall rest seen p kept,
    dedup_loop rest seen [p] = Ok kept ->
    exists kept', kept = p :: kept' /\ dedup_loop rest seen [] = Ok kept'.
Proof.
  intros rest seen p kept H. rewrite dedup_loop_unique in H.
  destruct (dedup_loop rest seen []) as [kept'|e]; simpl in H; [|discriminate].
  injection H as <-. now exists kept'.
Qed.

Lemma dedup_loop_fixed :
  forall profiles seen kept,
    dedup_loop profiles seen [] = Ok kept ->
    dedup_loop kept seen [] = Ok kept.
Proof.
  induction profiles as [|p rest IH]; intros seen kept H; simpl in H.
  - now injection H as <-.
  - destruct (py_get p "url") as [url|e] eqn:Eurl; simpl in H; [|discriminate].
    destruct (py_truthy url) eqn:Etruthy; [|now apply IH].
    destruct (set_contains seen url) as [known|e] eqn:Eknown; simpl in H; [|discriminate].
    destruct known; simpl in H; [now apply IH|].
    apply dedup_loop_cons_kept in H as (kept' & -> & H).
    apply IH in H. simpl.
    rewrite Eurl; simpl. rewrite Etruthy, Eknown; simpl.
    rewrite dedup_loop_unique, H. reflexivity.
Qed.

Lemma profile_record_cases :
  forall p, profile_record p ->
    (record_url p = "" /\ exists v, py_get p "url" = Ok v /\ py_truthy v = false)
    \/ (record_url p <> "" /\ py_get p "url" = Ok (PStr (record_url p))).
Proof.
  intros p (d & -> & [Hnone | [s Hsome]]); unfold py_get, dict_get_default, record_url.
  - rewrite Hnone. left. split; [reflexivity|]. now exists PNone.
  - rewrite Hsome. destruct (String.eqb_spec s "") as [->|Hs].
    + left. split; [reflexivity|]. now exists (PStr "").
    + right. now split.
Qed.

Lemma py_truthy_str : forall u, u <> "" -> py_truthy (PStr u) = true.
Proof. intros u Hu. simpl. now destruct (String.eqb_spec u ""). Qed.

(** The loop of [deduplicate_by_url] against the specification's
    wording, on records of the data model: [seen] and [earlier] agree on
    every non-empty url. *)
Lemma dedup_loop_first_occurrences :
  forall S seen earlier unique,
    Forall profile_record S ->
    (forall x, x <> "" ->
       existsb (key_eq (PStr x)) seen = existsb (String.eqb x) earlier) ->
    dedup_loop S seen unique = Ok (unique ++ first_occurrences earlier S).
Proof.
  induction S as [|p rest IH]; intros seen earlier unique HS Hseen;
    cbn [dedup_loop first_occurrences].
  - now rewrite app_nil_r.
  - inversion HS as [|? ? Hp Hrest]; subst.
    destruct (profile_record_cases p Hp) as [(Hu & v & -> & Hv) | (Hu & ->)];
      cbn [ebind].
    + rewrite Hv, Hu. simpl.
      apply IH; [assumption|].
      intros x Hx. rewrite (Hseen x Hx). cbn [existsb].
      now destruct (String.eqb_spec x "").
    + rewrite (py_truthy_str _ Hu).
      unfold set_contains. cbn [hashable ebind].
      rewrite (Hseen _ Hu).
      destruct (String.eqb_spec (record_url p) "") as [|_]; [contradiction|].
      destruct (existsb (String.eqb (record_url p)) earlier) eqn:Eknown; simpl.
      * apply IH; [assumption|].
        intros x Hx. rewrite (Hseen x Hx). cbn [existsb].
        destruct (String.eqb_spec x (record_url p)) as [->|]; [now rewrite Eknown|reflexivity].
      * rewrite IH with (earlier := record_url p :: earlier);
          [now rewrite <- app_assoc | assumption |].
        intros x Hx. unfold set_insert. rewrite (Hseen _ Hu), Eknown.
        change (existsb (key_eq (PStr x)) (PStr (record_url p) :: seen))
          with (String.eqb x (record_url p) || existsb (key_eq (PStr x)) seen).
        now rewrite (Hseen x Hx).
Qed.

Lemma existsb_eqb_In :
  forall (u : string) (l : list string),
    existsb (String.eqb u) l = true <-> In u l.
Proof.
  intros u l. rewrite existsb_exists. split.
  - intros (x & Hx & E). apply String.eqb_eq in E. now subst.
  - intros H. exists u. split; [assumption|apply String.eqb_refl].
Qed.

Lemma existsb_eqb_not_In :
  forall (u : string) (l : list string),
    existsb (String.eqb u) l = false <-> ~ In u l.
Proof.
  intros u l. rewrite <- existsb_eqb_In. now destruct (existsb _ l).
Qed.

Lemma first_occurrences_subseq :
  forall S earlier, subseq (first_occurrences earlier S) S.
Proof.
  induction S as [|p rest IH]; intros earlier; cbn [first_occurrences].
  - constructor.
  - destruct (_ && _); constructor; apply IH.
Qed.

Lemma first_occurrences_urls :
  forall S earlier p,
    In p (first_occurrences earlier S) ->
    record_url p <> "" /\ ~ In (record_url p) earlier.
Proof.
  induction S as [|q rest IH]; intros earlier p Hin; cbn [first_occurrences] in Hin.
  - destruct Hin.
  - assert (Hrest : In p (first_occurrences (record_url q :: earlier) rest) ->
                    record_url p <> "" /\ ~ In (record_url p) earlier).
    { intros H. apply IH in H as [H1 H2]. split; [assumption|].
      intros H3. apply H2. now right. }
    destruct (negb (String.eqb (record_url q) "")) eqn:E1;
      destruct (negb (existsb (String.eqb (record_url q)) earlier)) eqn:E2;
      cbn [andb] in Hin; try now apply Hrest.
    destruct Hin as [<-|Hin]; [|now apply Hrest].
    apply negb_true_iff in E1, E2. split.
    + now apply String.eqb_neq.
    + now apply existsb_eqb_not_In.
Qed.

Lemma first_occurrences_NoDup :
  forall S earlier, NoDup (map record_url (first_occurrences earlier S)).
Proof.
  induction S as [|q rest IH]; intros earlier; cbn [first_occurrences].
  - constructor.
  - destruct (_ && _); [|apply IH].
    cbn [map]. constructor; [|apply IH].
    intros Hin. apply in_map_iff in Hin as (p & Hp & Hin).
    apply first_occurrences_urls in Hin as [_ Hin].
    apply Hin. left. now symmetry.
Qed.

Lemma first_occurrences_app :
  forall l1 l2 earlier,
    first_occurrences earlier (l1 ++ l2)
    = first_occurrences earlier l1
      ++ first_occurrences (rev (map record_url l1) ++ earlier) l2.
Proof.
  induction l1 as [|q l1 IH]; intros l2 earlier; [reflexivity|].
  cbn [app first_occurrences map rev].
  rewrite IH, <- app_assoc. cbn [app].
  now destruct (_ && _).
Qed.

(** The first record of [S] that carries a given non-empty url is
    retained. *)
Lemma first_occurrences_keeps_first :
  forall pre p post,
    record_url p <> "" ->
    ~ In (record_url p) (map record_url pre) ->
    In p (first_occurrences [] (pre ++ p :: post)).
Proof.
  intros pre p post Hu Hnew.
  rewrite first_occurrences_app, app_nil_r. apply in_or_app. right.
  cbn [first_occurrences].
  destruct (String.eqb_spec (record_url p) ""); [contradiction|].
  replace (existsb (String.eqb (record_url p)) (rev (map record_url pre))) with false.
  - now left.
  - symmetry. apply existsb_eqb_not_In. now rewrite <- in_rev.
Qed.

(** C7.  On every sequence of profile records, [deduplicate_by_url]
    returns, and what it returns is the sequence the specification
    describes: the records whose url is non-empty and not carried by an
    earlier record, in their order of appearance.  It is a subsequence of
    the input, no record of it has an empty or absent url, no url occurs
    twice in it, and the first record of each non-empty url is in it. *)
Theorem deduplicate_by_url_keeps_first_occurrences :
  forall S : list pyval,
    Forall profile_record S ->
    exists kept,
      deduplicate_by_url S = Ok kept
      /\ kept = first_occurrences [] S
      /\ subseq kept S
      /\ Forall (fun p => record_url p <> "") kept
      /\ NoDup (map record_url kept)
      /\ (forall pre p post,
            S = pre ++ p :: post ->
            record_url p <> "" ->
            ~ In (record_url p) (map record_url pre) ->
            In p kept).
Proof.
  intros S HS. exists (first_occurrences [] S).
  split; [|split; [reflexivity|split; [|split; [|split]]]].
  - unfold deduplicate_by_url.
    now rewrite dedup_loop_first_occurrences with (earlier := []).
  - apply first_occurrences_subseq.
  - apply Forall_forall. intros p Hp.
    now apply first_occurrences_urls in Hp.
  - apply first_occurrences_NoDup.
  - intros pre p post -> Hu Hnew. now apply first_occurrences_keeps_first.
Qed.

(** C8.  [deduplicate_by_url] is idempotent: running it on its own
    result changes nothing (and an input it refuses is refused the same
    way); on a sequence of profile records it does return, so the equation
    is one between two sequences. *)
Theorem deduplicate_by_url_idempotent :
  forall S : list pyval,
    (let? kept := deduplicate_by_url S in deduplicate_by_url kept)
    = deduplicate_by_url S
    /\ (Forall profile_record S ->
        exists kept,
          deduplicate_by_url S = Ok kept /\ deduplicate_by_url kept = Ok kept).
Proof.
  intros S. unfold deduplicate_by_url. split.
  - destruct (dedup_loop S [] []) as [kept|e] eqn:E; cbn [ebind]; [|reflexivity].
    now apply dedup_loop_fixed in E.
  - intros HS. exists (first_occurrences [] S).
    assert (E : dedup_loop S [] [] = Ok (first_occurrences [] S))
      by now rewrite dedup_loop_first_occurrences with (earlier := []).
    split; [assumption|]. now apply dedup_loop_fixed in E.
Qed.


(** ** Keys of sets *)

Lemma Qeq_bool_sym : forall a b : Q, Qeq_bool a b = Qeq_bool b a.
Proof. intros a b. unfold Qeq_bool. apply Z.eqb_sym. Qed.

Lemma key_eq_sym : forall x y, key_eq x y = key_eq y x.
Proof.
  fix IH 1. intros x y.
  destruct x, y; try reflexivity; cbn [key_eq num_val];
    try apply Qeq_bool_sym; try apply String.eqb_sym.
  revert l0. induction l as [|a l IHl]; intros [|b l0]; try reflexivity.
  rewrite (IH a b). f_equal. apply IHl.
Qed.

Lemma ForallOrdPairs_snoc :
  forall (A : Type) (R : A -> A -> Prop) (l : list A) (x : A),
    ForallOrdPairs R l -> Forall (fun y => R y x) l -> ForallOrdPairs R (l ++ [x]).
Proof.
  intros A R l x Hl Hx. induction Hl as [|y l Hy Hl IH]; cbn.
  - repeat constructor.
  - inversion Hx as [|? ? Hyx Hlx]; subst. constructor.
    + apply Forall_app. split; [assumption|]. now constructor.
    + now apply IH.
Qed.

Lemma In_firstn :
  forall (A : Type) (n : nat) (l : list A) (x : A), In x (firstn n l) -> In x l.
Proof.
  intros A n l x H. rewrite <- (firstn_skipn n l). apply in_or_app. now left.
Qed.

Lemma ForallOrdPairs_firstn :
  forall (A : Type) (R : A -> A -> Prop) (n : nat) (l : list A),
    ForallOrdPairs R l -> ForallOrdPairs R (firstn n l).
Proof.
  intros A R n l Hl. revert n.
  induction Hl as [|y l Hy Hl IH]; intros [|n]; cbn; try constructor.
  - apply Forall_forall. intros z Hz. apply In_firstn in Hz.
    revert z Hz. now apply Forall_forall.
  - apply IH.
Qed.

Lemma slice_to_prefix :
  forall (A : Type) (l : list A) (n : Z),
    exists k, slice_to l n = firstn k l.
Proof.
  intros A l n. unfold slice_to. destruct (0 <=? n); eexists; reflexivity.
Qed.

(** A record whose url passes the two tests of the merge loop is keyed. *)
Lemma keyed_record_intro :
  forall p url known,
    py_get p "url" = Ok url ->
    py_truthy url = true ->
    set_contains [] url = Ok known ->
    keyed_record p /\ url_of p = url.
Proof.
  intros p url known Hget Htruthy Hhash.
  assert (Hurl : url_of p = url) by (unfold url_of; now rewrite Hget).
  split; [|assumption]. unfold keyed_record. rewrite Hurl.
  split; [|split; [assumption|]].
  - destruct p; try discriminate. reflexivity.
  - unfold set_contains in Hhash. now destruct (hashable url).
Qed.

Lemma accumulator_consistent_snoc :
  forall profiles urls p,
    accumulator_consistent profiles urls ->
    keyed_record p ->
    existsb (key_eq (url_of p)) urls = false ->
    accumulator_consistent (profiles ++ [p]) (set_insert urls (url_of p)).
Proof.
  intros profiles urls p (Hkeyed & Hdistinct & Hurls) Hp Hnew.
  unfold set_insert. rewrite Hnew. split; [|split].
  - apply Forall_app. split; [assumption|]. now constructor.
  - apply ForallOrdPairs_snoc; [assumption|].
    apply Forall_forall. intros q Hq.
    assert (Hpq : key_eq (url_of p) (url_of q) = false).
    { destruct (key_eq (url_of p) (url_of q)) eqn:E; [|reflexivity].
      rewrite <- Hnew. symmetry. apply existsb_exists.
      exists (url_of q). split; [|assumption].
      apply Hurls. now apply in_map. }
    split; [|assumption]. now rewrite key_eq_sym.
  - intros url. rewrite map_app, in_app_iff. cbn [map In].
    rewrite <- Hurls. tauto.
Qed.

(** ** Iterating a value that is not a list of mappings *)



(** ** Reasoning in the workflow monad *)

Section Respects.

Context {W : Type}.
Variable R : state W -> state W -> Prop.
Context {R_preorder : PreOrder R}.

Lemma respects_ret : forall (A : Type) (a : A), respects R (ret a).
Proof. intros A a s. reflexivity. Qed.

Lemma respects_lift : forall (A : Type) (r : except A), respects R (lift r).
Proof. intros A r s. reflexivity. Qed.

Lemma respects_get_state : respects R get_state.
Proof. intros s. reflexivity. Qed.

Lemma respects_bind :
  forall (A B : Type) (m : M W A) (f : A -> M W B),
    respects R m -> (forall a, respects R (f a)) -> respects R (bind m f).
Proof.
  intros A B m f Hm Hf s. unfold bind.
  specialize (Hm s). destruct (m s) as [s1 [a|e]]; cbn [fst] in *.
  - etransitivity; [eassumption|apply Hf].
  - assumption.
Qed.

Lemma respects_try :
  forall (A : Type) (m : M W A) (h : exn -> M W A),
    respects R m -> (forall e, respects R (h e)) -> respects R (try_ m h).
Proof.
  intros A m h Hm Hh s. unfold try_.
  specialize (Hm s). destruct (m s) as [s1 [a|e]]; cbn [fst] in *.
  - assumption.
  - etransitivity; [eassumption|apply Hh].
Qed.

Lemma respects_for_titles :
  forall (body : string -> M W flow) (titles : list string),
    (forall title, respects R (body title)) -> respects R (for_titles body titles).
Proof.
  intros body titles Hbody. induction titles as [|title rest IH]; cbn [for_titles].
  - apply respects_ret.
  - apply respects_bind; [apply Hbody|].
    intros [|]; [assumption|apply respects_ret].
Qed.

End Respects.

Ltac respects_step prim :=
  first
    [ apply respects_ret; typeclasses eauto
    | apply respects_lift; typeclasses eauto
    | apply respects_get_state; typeclasses eauto
    | apply respects_bind; [typeclasses eauto| |intros ?]
    | apply respects_try; [typeclasses eauto| |intros ?]
    | apply respects_for_titles; [typeclasses eauto|intros ?]
    | prim
    | match goal with
      | |- respects _ (if ?b then _ else _) => destruct b
      | |- respects _ (match ?x with _ => _ end) => destruct x
      end ].

Lemma attempts_started_snoc :
  forall (tr : list event) (e : event),
    attempts_started (tr ++ [e])
    = (attempts_started tr + (if is_attempt_start e then 1 else 0))%nat.
Proof.
  intros tr e. unfold attempts_started.
  rewrite filter_app, length_app. cbn [filter].
  now destruct (is_attempt_start e).
Qed.

#[local] Instance same_attempts_preorder (W : Type) : PreOrder (@same_attempts W).
Proof.
  split.
  - intros s. reflexivity.
  - unfold same_attempts. intros s1 s2 s3 H12 H23. congruence.
Qed.

#[local] Instance same_accumulator_preorder (W : Type) : PreOrder (@same_accumulator W).
Proof.
  split.
  - intros s. now split.
  - unfold same_accumulator. intros s1 s2 s3 [? ?] [? ?]. split; congruence.
Qed.

Section WorkflowFacts.

Variable W : Type.
Variable respond : W -> agent -> string -> W * except pyval.
Variable json_loads : string -> option pyval.
Variable json_dumps : pyval -> string.
Variable position_titles : list string.
Variable company : string.
Variable desired_profile : Z.
Variable max_retries : Z.

Local Abbreviation Runner_run' := (Runner_run W respond).
Local Abbreviation search_and_pool' := (search_and_pool W respond json_loads).
Local Abbreviation stage2_body' := (stage2_body W respond json_loads company desired_profile).
Local Abbreviation stage1_body' := (stage1_body W respond json_loads company desired_profile).
Local Abbreviation two_stage_search' :=
  (two_stage_search W respond json_loads position_titles company desired_profile).
Local Abbreviation attempt_search' :=
  (attempt_search W respond json_loads position_titles company desired_profile max_retries).
Local Abbreviation parse_filter_output' := (parse_filter_output W json_loads).
Local Abbreviation merge_loop' := (merge_loop W).
Local Abbreviation filter_and_merge' :=
  (filter_and_merge W respond json_loads json_dumps desired_profile).
Local Abbreviation filter_and_accumulate' :=
  (filter_and_accumulate W respond json_loads json_dumps desired_profile).
Local Abbreviation attempt_body' :=
  (attempt_body W respond json_loads json_dumps position_titles company
                desired_profile max_retries).
Local Abbreviation return_best_found' := (return_best_found W desired_profile max_retries).
Local Abbreviation retry_loop' :=
  (retry_loop W respond json_loads json_dumps position_titles company
              desired_profile max_retries).
Local Abbreviation improved_search' :=
  (improved_search W respond json_loads json_dumps position_titles company
                   desired_profile max_retries).

(** *** What each step leaves alone *)

Lemma emit_same_attempts :
  forall e, is_attempt_start e = false -> respects same_attempts (@emit W e).
Proof.
  intros e He s. unfold same_attempts, emit. cbn [fst trace].
  rewrite attempts_started_snoc, He. apply Nat.add_0_r.
Qed.

Lemma Runner_run_same_attempts :
  forall a prompt, respects same_attempts (Runner_run' a prompt).
Proof.
  intros a prompt s. unfold same_attempts, Runner_run.
  destruct (respond (world s) a prompt) as [w' r]. cbn [fst trace].
  rewrite attempts_started_snoc. apply Nat.add_0_r.
Qed.

Lemma set_all_profiles_same_attempts :
  forall l, respects same_attempts (@set_all_profiles W l).
Proof. intros l s. reflexivity. Qed.

Lemma set_accumulated_profiles_same_attempts :
  forall l, respects same_attempts (@set_accumulated_profiles W l).
Proof. intros l s. reflexivity. Qed.

Lemma set_accumulated_urls_same_attempts :
  forall u, respects same_attempts (@set_accumulated_urls W u).
Proof. intros u s. reflexivity. Qed.

Lemma emit_same_accumulator :
  forall e, respects same_accumulator (@emit W e).
Proof. intros e s. now split. Qed.

Lemma Runner_run_same_accumulator :
  forall a prompt, respects same_accumulator (Runner_run' a prompt).
Proof.
  intros a prompt s. unfold Runner_run.
  destruct (respond (world s) a prompt). now split.
Qed.

Lemma set_all_profiles_same_accumulator :
  forall l, respects same_accumulator (@set_all_profiles W l).
Proof. intros l s. now split. Qed.

Ltac attempts_prim :=
  first
    [ apply Runner_run_same_attempts
    | apply set_all_profiles_same_attempts
    | apply set_accumulated_profiles_same_attempts
    | apply set_accumulated_urls_same_attempts
    | apply emit_same_attempts; reflexivity ].

Ltac accumulator_prim :=
  first
    [ apply Runner_run_same_accumulator
    | apply set_all_profiles_same_accumulator
    | apply emit_same_accumulator ].

Ltac frame_solve :=
  repeat first [respects_step attempts_prim | respects_step accumulator_prim].

Lemma two_stage_search_same_attempts : respects same_attempts two_stage_search'.
Proof.
  unfold two_stage_search, stage2_body, stage1_body, search_and_pool, log.
  frame_solve.
Qed.

Lemma two_stage_search_same_accumulator : respects same_accumulator two_stage_search'.
Proof.
  unfold two_stage_search, stage2_body, stage1_body, search_and_pool, log.
  frame_solve.
Qed.

Lemma attempt_search_same_accumulator :
  forall attempt, respects same_accumulator (attempt_search' attempt).
Proof.
  intros attempt. unfold attempt_search, log.
  repeat first [apply two_stage_search_same_accumulator | respects_step accumulator_prim].
Qed.

Lemma merge_loop_same_attempts :
  forall items new_profiles, respects same_attempts (merge_loop' items new_profiles).
Proof.
  induction items as [|p rest IH]; intros new_profiles; cbn [merge_loop].
  - frame_solve.
  - repeat first [apply IH | respects_step attempts_prim].
Qed.

Lemma filter_and_accumulate_same_attempts :
  forall unique_profiles,
    respects same_attempts (filter_and_accumulate' unique_profiles).
Proof.
  intros unique_profiles.
  unfold filter_and_accumulate, filter_and_merge, parse_filter_output, log.
  repeat first [apply merge_loop_same_attempts | respects_step attempts_prim].
Qed.

(** *** One search *)

(** The [try] block of a stage up to its stop test, case by case: the
    call raises; the call answers and [extract_profiles] raises; the
    extracted profiles join the pool, which is then deduplicated. *)
Lemma search_and_pool_run :
  forall query s,
    search_and_pool' query s
    = (let (w', r) := respond (world s) loop_agent (search_prompt query) in
       let s1 := called s loop_agent (search_prompt query) w' in
       match r with
       | Raise e => (s1, Raise e)
       | Ok agent_result =>
           match extract_profiles json_loads agent_result with
           | Raise e => (s1, Raise e)
           | Ok profiles =>
               (pooled s1 profiles, deduplicate_by_url (all_profiles s1 ++ profiles))
           end
       end).
Proof.
  intros query s. unfold search_and_pool, bind at 1, Runner_run, called.
  destruct (respond (world s) loop_agent (search_prompt query)) as [w' [v|e]];
    [|reflexivity].
  unfold bind at 1, lift at 1.
  destruct (extract_profiles json_loads v) as [profiles|e]; reflexivity.
Qed.

(** A body of either stage: a [try] block that runs one search, then
    stops the loop when [stop] holds of the deduplicated count. *)
Lemma stage_body_run :
  forall (stop : Z -> bool) (hit : Z -> log_line) (failed : exn -> log_line) query s,
    try_ (bind (search_and_pool' query)
               (fun unique_profiles =>
                  if stop (len unique_profiles)
                  then bind (log (hit (len unique_profiles))) (fun _ => ret Break)
                  else ret Continue))
         (fun e => bind (log (failed e)) (fun _ => ret Continue)) s
    = (let (s1, r) := search_and_pool' query s in
       match r with
       | Raise e => (logged s1 (failed e), Ok Continue)
       | Ok unique_profiles =>
           if stop (len unique_profiles)
           then (logged s1 (hit (len unique_profiles)), Ok Break)
           else (s1, Ok Continue)
       end).
Proof.
  intros stop hit failed query s. unfold try_, bind at 1.
  destruct (search_and_pool' query s) as [s1 [unique_profiles|e]]; [|reflexivity].
  destruct (stop (len unique_profiles)); reflexivity.
Qed.

Lemma stage2_body_run :
  forall title s,
    stage2_body' title s
    = (let (s1, r) := search_and_pool' (web_query company title)
                                       (logged s (LogSearchWeb (web_query company title))) in
       match r with
       | Raise e => (logged s1 (LogWebFailed title e), Ok Continue)
       | Ok unique_profiles =>
           if len unique_profiles >? 2 * desired_profile
           then (logged s1 (LogStopEarly (len unique_profiles) (2 * desired_profile)),
                 Ok Break)
           else (s1, Ok Continue)
       end).
Proof.
  intros title s. unfold stage2_body. cbv zeta. unfold bind at 1.
  change (log (LogSearchWeb (web_query company title)) s)
    with (logged s (LogSearchWeb (web_query company title)), @Ok unit tt).
  cbv iota.
  exact (stage_body_run (fun n => n >? 2 * desired_profile)
           (fun n => LogStopEarly n (2 * desired_profile)) (LogWebFailed title) _ _).
Qed.

Lemma stage1_body_run :
  forall title s,
    stage1_body' title s
    = (let (s1, r) := search_and_pool' (linkedin_query company title)
                        (logged s (LogSearchLinkedIn (linkedin_query company title))) in
       match r with
       | Raise e => (logged s1 (LogLinkedInFailed title e), Ok Continue)
       | Ok unique_profiles =>
           if len unique_profiles >=? desired_profile
           then (logged s1 (LogReachedTarget desired_profile), Ok Break)
           else (s1, Ok Continue)
       end).
Proof.
  intros title s. unfold stage1_body. cbv zeta. unfold bind at 1.
  change (log (LogSearchLinkedIn (linkedin_query company title)) s)
    with (logged s (LogSearchLinkedIn (linkedin_query company title)), @Ok unit tt).
  cbv iota.
  exact (stage_body_run (fun n => n >=? desired_profile)
           (fun _ => LogReachedTarget desired_profile) (LogLinkedInFailed title) _ _).
Qed.

(** Neither stage body ever raises. *)
Lemma stage2_body_total :
  forall title s, exists fl, snd (stage2_body' title s) = Ok fl.
Proof.
  intros title s. rewrite stage2_body_run.
  destruct (search_and_pool' _ _) as [s1 [u|e]]; [|now exists Continue].
  destruct (len u >? 2 * desired_profile); eexists; reflexivity.
Qed.

Lemma stage1_body_total :
  forall title s, exists fl, snd (stage1_body' title s) = Ok fl.
Proof.
  intros title s. rewrite stage1_body_run.
  destruct (search_and_pool' _ _) as [s1 [u|e]]; [|now exists Continue].
  destruct (len u >=? desired_profile); eexists; reflexivity.
Qed.

Lemma for_titles_total :
  forall (body : string -> M W flow),
    (forall title s, exists fl, snd (body title s) = Ok fl) ->
    forall titles s, snd (for_titles body titles s) = Ok tt.
Proof.
  intros body Hbody. induction titles as [|title rest IH]; intros s; [reflexivity|].
  cbn [for_titles]. unfold bind.
  destruct (Hbody title s) as [fl Hfl].
  destruct (body title s) as [s1 r]. cbn [snd] in Hfl. subst r.
  destruct fl; [apply IH|reflexivity].
Qed.

(** *** The stop rule of a stage *)

Lemma pool_size_pooled :
  forall (s : state W) profiles,
    pool_size (pooled s profiles)
    = (let? u := deduplicate_by_url (all_profiles s ++ profiles) in Ok (len u)).
Proof. reflexivity. Qed.

(** After one pass through the body of a stage that started with a pool
    under its threshold, the loop stops exactly when the deduplicated
    pool satisfies the stop test. *)
Lemma stage_stop_rule :
  forall (stop : Z -> bool) (hit : Z -> log_line) (failed : exn -> log_line) query s0,
    (forall k, pool_size s0 = Ok k -> stop k = false) ->
    exists s1 fl,
      (let (s1, r) := search_and_pool' query s0 in
       match r with
       | Raise e => (logged s1 (failed e), Ok Continue)
       | Ok unique_profiles =>
           if stop (len unique_profiles)
           then (logged s1 (hit (len unique_profiles)), Ok Break)
           else (s1, Ok Continue)
       end) = (s1, Ok fl)
      /\ (fl = Break <-> exists k, pool_size s1 = Ok k /\ stop k = true).
Proof.
  intros stop hit failed query s0 Hs0. rewrite search_and_pool_run.
  assert (Hskip : forall s1 : state W,
             all_profiles s1 = all_profiles s0 ->
             Continue = Break <-> (exists k, pool_size s1 = Ok k /\ stop k = true)).
  { intros s1 Hpool. split; [discriminate|]. intros (k & Hk & Hstop).
    unfold pool_size in Hk. rewrite Hpool in Hk. apply Hs0 in Hk. congruence. }
  destruct (respond (world s0) loop_agent (search_prompt query)) as [w' [v|e]]; cbv zeta.
  - destruct (extract_profiles json_loads v) as [profiles|e].
    + destruct (deduplicate_by_url (all_profiles (called s0 loop_agent (search_prompt query) w') ++ profiles))
        as [u|e] eqn:Eu.
      * destruct (stop (len u)) eqn:Estop; eexists; eexists; (split; [reflexivity|]).
        -- split; [intros _|reflexivity]. exists (len u).
           unfold pool_size, logged. cbn [fst log emit all_profiles pooled].
           now rewrite Eu.
        -- split; [discriminate|]. intros (k & Hk & Hstop).
           rewrite pool_size_pooled, Eu in Hk. injection Hk as <-. congruence.
      * eexists; eexists; split; [reflexivity|].
        split; [discriminate|]. intros (k & Hk & _).
        unfold pool_size, logged in Hk. cbn [fst log emit all_profiles pooled] in Hk.
        now rewrite Eu in Hk.
    + eexists; eexists; split; [reflexivity|]. now apply Hskip.
  - eexists; eexists; split; [reflexivity|]. now apply Hskip.
Qed.

Lemma for_titles_cons :
  forall (body : string -> M W flow) title rest s s1 fl,
    body title s = (s1, Ok fl) ->
    for_titles body (title :: rest) s
    = match fl with
      | Break => (s1, Ok tt)
      | Continue => for_titles body rest s1
      end.
Proof.
  intros body title rest s s1 fl H. cbn [for_titles]. unfold bind. rewrite H.
  now destruct fl.
Qed.

Lemma stage2_stop_rule :
  forall title rest s,
    pool_within (2 * desired_profile) s ->
    exists s1 fl,
      stage2_body' title s = (s1, Ok fl)
      /\ (fl = Break <-> pool_exceeds (2 * desired_profile) s1)
      /\ for_titles stage2_body' (title :: rest) s
         = match fl with
           | Break => (s1, Ok tt)
           | Continue => for_titles stage2_body' rest s1
           end.
Proof.
  intros title rest s Hs.
  destruct (stage_stop_rule (fun n => n >? 2 * desired_profile)
              (fun n => LogStopEarly n (2 * desired_profile)) (LogWebFailed title)
              (web_query company title)
              (logged s (LogSearchWeb (web_query company title))))
    as (s1 & fl & Hrun & Hfl).
  { intros k Hk. apply Hs in Hk. rewrite Z.gtb_ltb. now apply Z.ltb_ge. }
  rewrite <- stage2_body_run in Hrun.
  exists s1, fl. split; [assumption|]. split.
  - rewrite Hfl. unfold pool_exceeds.
    split; intros (k & Hk & Hstop); exists k; (split; [assumption|]).
    + apply Z.gtb_lt in Hstop. lia.
    + apply Z.gtb_lt. lia.
  - now apply for_titles_cons.
Qed.

Lemma stage1_stop_rule :
  forall title rest s,
    pool_below desired_profile s ->
    exists s1 fl,
      stage1_body' title s = (s1, Ok fl)
      /\ (fl = Break <-> pool_reaches desired_profile s1)
      /\ for_titles stage1_body' (title :: rest) s
         = match fl with
           | Break => (s1, Ok tt)
           | Continue => for_titles stage1_body' rest s1
           end.
Proof.
  intros title rest s Hs.
  destruct (stage_stop_rule (fun n => n >=? desired_profile)
              (fun _ => LogReachedTarget desired_profile) (LogLinkedInFailed title)
              (linkedin_query company title)
              (logged s (LogSearchLinkedIn (linkedin_query company title))))
    as (s1 & fl & Hrun & Hfl).
  { intros k Hk. apply Hs in Hk. destruct (Z.geb_spec k desired_profile); [lia|reflexivity]. }
  rewrite <- stage1_body_run in Hrun.
  exists s1, fl. split; [assumption|]. split.
  - rewrite Hfl. unfold pool_reaches.
    split; intros (k & Hk & Hstop); exists k; (split; [assumption|]).
    + destruct (Z.geb_spec k desired_profile); [lia|discriminate].
    + destruct (Z.geb_spec k desired_profile); [reflexivity|lia].
  - now apply for_titles_cons.
Qed.

(** *** The two stages in sequence *)

Lemma two_stage_search_run :
  forall s,
    two_stage_search' s
    = (let (s2, _) := for_titles stage2_body' position_titles s in
       match deduplicate_by_url (all_profiles s2) with
       | Raise e => (s2, Raise e)
       | Ok u =>
           let s3 := logged s2 (LogFoundAfterWeb (len u)) in
           if len u <? desired_profile then
             let (s4, _) :=
               for_titles stage1_body' (tl position_titles)
                          (logged s3 (LogNeedMore (desired_profile - len u))) in
             (s4, deduplicate_by_url (all_profiles s4))
           else (s3, Ok u)
       end).
Proof.
  intros s. unfold two_stage_search, bind at 1.
  pose proof (for_titles_total stage2_body' stage2_body_total position_titles s) as H2.
  destruct (for_titles stage2_body' position_titles s) as [s2 r2].
  cbn [snd] in H2. subst r2.
  unfold bind at 1, get_state at 1, bind at 1, lift at 1.
  destruct (deduplicate_by_url (all_profiles s2)) as [u|e] eqn:Eu; [|reflexivity].
  unfold bind at 1.
  change (log (LogFoundAfterWeb (len u)) s2)
    with (logged s2 (LogFoundAfterWeb (len u)), @Ok unit tt).
  cbv iota zeta. unfold bind at 1.
  destruct (len u <? desired_profile).
  - unfold bind at 1.
    change (log (LogNeedMore (desired_profile - len u)) (logged s2 (LogFoundAfterWeb (len u))))
      with (logged (logged s2 (LogFoundAfterWeb (len u)))
                   (LogNeedMore (desired_profile - len u)), @Ok unit tt).
    cbv iota.
    pose proof (for_titles_total stage1_body' stage1_body_total (tl position_titles)
                  (logged (logged s2 (LogFoundAfterWeb (len u)))
                          (LogNeedMore (desired_profile - len u)))) as H1.
    destruct (for_titles stage1_body' (tl position_titles) _) as [s4 r4].
    cbn [snd] in H1. subst r4. reflexivity.
  - cbv [ret bind get_state lift].
    change (all_profiles (logged s2 (LogFoundAfterWeb (len u)))) with (all_profiles s2).
    now rewrite Eu.
Qed.

(** *** The searches a stage sends *)

Lemma prompts_to_app :
  forall a tr1 tr2, prompts_to a (tr1 ++ tr2) = prompts_to a tr1 ++ prompts_to a tr2.
Proof. intros a tr1 tr2. unfold prompts_to. apply flat_map_app. Qed.

Lemma search_and_pool_prompts :
  forall query s,
    prompts_to loop_agent (trace (fst (search_and_pool' query s)))
    = prompts_to loop_agent (trace s) ++ [search_prompt query].
Proof.
  intros query s. rewrite search_and_pool_run.
  destruct (respond (world s) loop_agent (search_prompt query)) as [w' [v|e]]; cbv zeta.
  - destruct (extract_profiles json_loads v); cbn [fst called pooled trace];
      now rewrite prompts_to_app.
  - cbn [fst called trace]. now rewrite prompts_to_app.
Qed.

Lemma logged_prompts :
  forall (s : state W) line a,
    prompts_to a (trace (logged s line)) = prompts_to a (trace s).
Proof.
  intros s line a. unfold logged. cbn [fst log emit trace].
  rewrite prompts_to_app. cbn. now rewrite app_nil_r.
Qed.

Lemma stage2_body_prompts :
  forall title s,
    prompts_to loop_agent (trace (fst (stage2_body' title s)))
    = prompts_to loop_agent (trace s) ++ [search_prompt (web_query company title)].
Proof.
  intros title s. rewrite stage2_body_run.
  pose proof (search_and_pool_prompts (web_query company title)
                (logged s (LogSearchWeb (web_query company title)))) as H.
  rewrite logged_prompts in H.
  destruct (search_and_pool' _ _) as [s1 [u|e]]; cbn [fst] in *.
  - destruct (len u >? 2 * desired_profile); cbn [fst]; now rewrite ?logged_prompts.
  - now rewrite logged_prompts.
Qed.

Lemma stage1_body_prompts :
  forall title s,
    prompts_to loop_agent (trace (fst (stage1_body' title s)))
    = prompts_to loop_agent (trace s) ++ [search_prompt (linkedin_query company title)].
Proof.
  intros title s. rewrite stage1_body_run.
  pose proof (search_and_pool_prompts (linkedin_query company title)
                (logged s (LogSearchLinkedIn (linkedin_query company title)))) as H.
  rewrite logged_prompts in H.
  destruct (search_and_pool' _ _) as [s1 [u|e]]; cbn [fst] in *.
  - destruct (len u >=? desired_profile); cbn [fst]; now rewrite ?logged_prompts.
  - now rewrite logged_prompts.
Qed.

(** A loop over titles sends the searches of a prefix of its titles, one
    each, in order. *)
Lemma for_titles_prompts :
  forall (body : string -> M W flow) (query : string -> string),
    (forall title s,
        prompts_to loop_agent (trace (fst (body title s)))
        = prompts_to loop_agent (trace s) ++ [search_prompt (query title)]) ->
    forall titles s,
    exists k,
      (k <= List.length titles)%nat
      /\ prompts_to loop_agent (trace (fst (for_titles body titles s)))
         = prompts_to loop_agent (trace s)
           ++ map (fun title => search_prompt (query title)) (firstn k titles).
Proof.
  intros body query Hbody. induction titles as [|title rest IH]; intros s.
  - exists 0%nat. split; [constructor|]. cbn. now rewrite app_nil_r.
  - cbn [for_titles]. unfold bind. specialize (Hbody title s).
    destruct (body title s) as [s1 [[|]|e]]; cbn [fst] in *.
    + destruct (IH s1) as (k & Hk & Hp). exists (S k). split; [cbn; lia|].
      rewrite Hp, Hbody, <- app_assoc. reflexivity.
    + exists 1%nat. split; [cbn; lia|]. cbn [ret fst]. rewrite Hbody. reflexivity.
    + exists 1%nat. split; [cbn; lia|]. rewrite Hbody. reflexivity.
Qed.

(** *** A search that fails *)

Lemma search_and_pool_failed :
  forall query s w' e,
    respond (world s) loop_agent (search_prompt query) = (w', Raise e) ->
    search_and_pool' query s = (called s loop_agent (search_prompt query) w', Raise e).
Proof. intros query s w' e H. rewrite search_and_pool_run. now rewrite H. Qed.

(** C9.  When the search capability raises for a title, in either
    stage, the exception is caught in the body of the loop over the
    titles: the pool is as it was (the title brings no profile), the body
    ends normally, and the loop goes on with the titles that remain.
    Whatever the searches do, neither loop raises, so the attempt goes on
    after each stage. *)
Theorem failed_search_is_skipped :
  (forall title rest s w' e,
      respond (world s) loop_agent (search_prompt (web_query company title))
      = (w', Raise e) ->
      let query := web_query company title in
      let s' := logged (called (logged s (LogSearchWeb query))
                               loop_agent (search_prompt query) w')
                       (LogWebFailed title e) in
      all_profiles s' = all_profiles s
      /\ stage2_body' title s = (s', Ok Continue)
      /\ for_titles stage2_body' (title :: rest) s = for_titles stage2_body' rest s')
  /\ (forall title rest s w' e,
        respond (world s) loop_agent (search_prompt (linkedin_query company title))
        = (w', Raise e) ->
        let query := linkedin_query company title in
        let s' := logged (called (logged s (LogSearchLinkedIn query))
                                 loop_agent (search_prompt query) w')
                         (LogLinkedInFailed title e) in
        all_profiles s' = all_profiles s
        /\ stage1_body' title s = (s', Ok Continue)
        /\ for_titles stage1_body' (title :: rest) s = for_titles stage1_body' rest s')
  /\ (forall titles s,
        snd (for_titles stage2_body' titles s) = Ok tt
        /\ snd (for_titles stage1_body' titles s) = Ok tt).
Proof.
  split; [|split].
  - intros title rest s w' e H. cbv zeta.
    pose proof (search_and_pool_failed (web_query company title)
                  (logged s (LogSearchWeb (web_query company title))) w' e H) as Hrun.
    assert (Hbody : stage2_body' title s
                    = (logged (called (logged s (LogSearchWeb (web_query company title)))
                                      loop_agent (search_prompt (web_query company title)) w')
                              (LogWebFailed title e), Ok Continue))
      by (rewrite stage2_body_run; now rewrite Hrun).
    split; [reflexivity|]. split; [assumption|].
    now rewrite (for_titles_cons _ _ rest _ _ _ Hbody).
  - intros title rest s w' e H. cbv zeta.
    pose proof (search_and_pool_failed (linkedin_query company title)
                  (logged s (LogSearchLinkedIn (linkedin_query company title))) w' e H) as Hrun.
    assert (Hbody : stage1_body' title s
                    = (logged (called (logged s (LogSearchLinkedIn (linkedin_query company title)))
                                      loop_agent (search_prompt (linkedin_query company title)) w')
                              (LogLinkedInFailed title e), Ok Continue))
      by (rewrite stage1_body_run; now rewrite Hrun).
    split; [reflexivity|]. split; [assumption|].
    now rewrite (for_titles_cons _ _ rest _ _ _ Hbody).
  - intros titles s. split.
    + apply for_titles_total, stage2_body_total.
    + apply for_titles_total, stage1_body_total.
Qed.

(** *** The thresholds of the two stages *)

(** C3.  Within one attempt: (1) the pool of a fresh attempt is within
    the threshold of the broad stage, and after each title of that stage
    the loop stops exactly when the deduplicated pool holds more than
    [2 * desired_profile] profiles, and goes on to the next title
    otherwise; (2) with [u] the deduplicated pool after the broad stage,
    the fallback stage runs when [len u < desired_profile], over the
    titles without the first, and does not run when
    [desired_profile <= len u]; (3) the searches the fallback loop sends
    are those of a prefix of the titles without the first; (4) after each
    title of the fallback stage the loop stops exactly when the
    deduplicated pool holds at least [desired_profile] profiles. *)
Theorem stages_stop_at_their_thresholds :
  (forall s : state W,
      all_profiles s = [] -> 0 <= desired_profile ->
      pool_within (2 * desired_profile) s)
  /\ (forall title rest s,
        pool_within (2 * desired_profile) s ->
        exists s1 fl,
          stage2_body' title s = (s1, Ok fl)
          /\ (fl = Break <-> pool_exceeds (2 * desired_profile) s1)
          /\ (fl = Continue -> pool_within (2 * desired_profile) s1)
          /\ for_titles stage2_body' (title :: rest) s
             = match fl with
               | Break => (s1, Ok tt)
               | Continue => for_titles stage2_body' rest s1
               end)
  /\ (forall s s2 u,
        for_titles stage2_body' position_titles s = (s2, Ok tt) ->
        deduplicate_by_url (all_profiles s2) = Ok u ->
        let s3 := logged s2 (LogFoundAfterWeb (len u)) in
        (len u < desired_profile ->
         let s4 := logged s3 (LogNeedMore (desired_profile - len u)) in
         pool_below desired_profile s4
         /\ two_stage_search' s
            = (let (s5, _) := for_titles stage1_body' (tl position_titles) s4 in
               (s5, deduplicate_by_url (all_profiles s5))))
        /\ (desired_profile <= len u -> two_stage_search' s = (s3, Ok u)))
  /\ (forall s,
        exists k,
          (k <= List.length (tl position_titles))%nat
          /\ prompts_to loop_agent
               (trace (fst (for_titles stage1_body' (tl position_titles) s)))
             = prompts_to loop_agent (trace s)
               ++ map (fun title => search_prompt (linkedin_query company title))
                      (firstn k (tl position_titles)))
  /\ (forall title rest s,
        pool_below desired_profile s ->
        exists s1 fl,
          stage1_body' title s = (s1, Ok fl)
          /\ (fl = Break <-> pool_reaches desired_profile s1)
          /\ (fl = Continue -> pool_below desired_profile s1)
          /\ for_titles stage1_body' (title :: rest) s
             = match fl with
               | Break => (s1, Ok tt)
               | Continue => for_titles stage1_body' rest s1
               end).
Proof.
  split; [|split; [|split; [|split]]].
  - intros s Hs Hd k Hk. unfold pool_size in Hk. rewrite Hs in Hk.
    change (Ok 0 = Ok k) in Hk. injection Hk as <-. lia.
  - intros title rest s Hs.
    destruct (stage2_stop_rule title rest s Hs) as (s1 & fl & Hbody & Hfl & Hloop).
    exists s1, fl. repeat split; try assumption; try apply Hfl.
    intros -> k Hk. destruct (Z.le_gt_cases k (2 * desired_profile)) as [|Hgt]; [assumption|].
    assert (Hex : pool_exceeds (2 * desired_profile) s1) by (exists k; split; [assumption|lia]).
    apply Hfl in Hex. discriminate.
  - intros s s2 u H2 Hu. rewrite two_stage_search_run, H2, Hu. cbv zeta.
    split.
    + intros Hlt. split.
      * intros k Hk. unfold pool_size in Hk.
        change (all_profiles (logged (logged s2 (LogFoundAfterWeb (len u)))
                                     (LogNeedMore (desired_profile - len u))))
          with (all_profiles s2) in Hk.
        rewrite Hu in Hk. injection Hk as <-. assumption.
      * apply Z.ltb_lt in Hlt. now rewrite Hlt.
    + intros Hge. apply Z.ltb_ge in Hge. now rewrite Hge.
  - intros s. apply for_titles_prompts. apply stage1_body_prompts.
  - intros title rest s Hs.
    destruct (stage1_stop_rule title rest s Hs) as (s1 & fl & Hbody & Hfl & Hloop).
    exists s1, fl. repeat split; try assumption; try apply Hfl.
    intros -> k Hk. destruct (Z.lt_ge_cases k desired_profile) as [|Hge]; [assumption|].
    assert (Hex : pool_reaches desired_profile s1) by (exists k; split; [assumption|lia]).
    apply Hfl in Hex. discriminate.
Qed.

(** *** Running a sequence *)

Lemma bind_ok :
  forall (A B : Type) (m : M W A) (f : A -> M W B) s s' b,
    bind m f s = (s', Ok b) ->
    exists s1 a, m s = (s1, Ok a) /\ f a s1 = (s', Ok b).
Proof.
  intros A B m f s s' b H. unfold bind in H.
  destruct (m s) as [s1 [a|e]]; [|discriminate]. now exists s1, a.
Qed.

Lemma bind_run :
  forall (A B : Type) (m : M W A) (f : A -> M W B) s s1 a,
    m s = (s1, Ok a) -> bind m f s = f a s1.
Proof. intros A B m f s s1 a H. unfold bind. now rewrite H. Qed.


Lemma slice_to_length :
  forall (A : Type) (l : list A) (n : Z), 0 <= n -> len (slice_to l n) <= n.
Proof.
  intros A l n Hn. unfold slice_to, len.
  destruct (Z.leb_spec 0 n); [|lia].
  rewrite length_firstn. lia.
Qed.

(** *** The outcome of one attempt *)

(** What [filter_and_accumulate] hands back: the first [desired_profile]
    accumulated profiles when there are that many, and otherwise nothing,
    with an accumulator that is either short or untouched. *)
Lemma filter_and_accumulate_outcome :
  forall unique_profiles s s' outcome,
    filter_and_accumulate' unique_profiles s = (s', Ok outcome) ->
    match outcome with
    | Some l =>
        l = slice_to (accumulated_profiles s') desired_profile
        /\ desired_profile <= len (accumulated_profiles s')
    | None =>
        len (accumulated_profiles s') < desired_profile \/ same_accumulator s s'
    end.
Proof.
  intros unique_profiles s s' outcome H. unfold filter_and_accumulate in H.
  destruct (py_truthy (PList unique_profiles)).
  - apply bind_ok in H as (s1 & info & _ & H).
    cbv [bind get_state] in H.
    destruct (Z.geb_spec (len (accumulated_profiles s1)) desired_profile) as [Hge|Hlt];
      cbv [log emit ret] in H; injection H as <- <-; cbn [accumulated_profiles].
    + split; [reflexivity|lia].
    + left. lia.
  - cbv [bind log emit ret] in H. injection H as <- <-. right. now split.
Qed.

Lemma attempt_body_outcome :
  forall attempt s s' outcome,
    attempt_body' attempt s = (s', Ok outcome) ->
    match outcome with
    | Some l =>
        l = slice_to (accumulated_profiles s') desired_profile
        /\ desired_profile <= len (accumulated_profiles s')
    | None =>
        len (accumulated_profiles s') < desired_profile
        \/ accumulated_profiles s' = accumulated_profiles s
    end.
Proof.
  intros attempt s s' outcome H. unfold attempt_body in H.
  apply bind_ok in H as (s1 & unique_profiles & Hsearch & H).
  apply filter_and_accumulate_outcome in H.
  destruct outcome as [l|]; [assumption|].
  destruct H as [H|[H _]]; [now left|right].
  pose proof (attempt_search_same_accumulator attempt s) as [Hacc _].
  rewrite Hsearch in Hacc. cbn [fst] in Hacc. congruence.
Qed.

Lemma retry_loop_bounded :
  forall remaining attempt s s' l,
    0 <= desired_profile ->
    len (accumulated_profiles s) <= desired_profile ->
    retry_loop' remaining attempt s = (s', Ok l) ->
    len l <= desired_profile.
Proof.
  induction remaining as [|remaining IH]; intros attempt s s' l Hd Hacc H;
    cbn [retry_loop] in H.
  - cbv [return_best_found bind log emit get_state ret] in H.
    cbn [accumulated_profiles] in H.
    destruct (py_truthy (PList (accumulated_profiles s)));
      injection H as <- <-; [assumption|]. cbn. assumption.
  - apply bind_ok in H as (s1 & outcome & Hbody & H).
    apply attempt_body_outcome in Hbody.
    destruct outcome as [profiles|].
    + cbv [ret] in H. injection H as <- <-.
      destruct Hbody as [-> _]. now apply slice_to_length.
    + apply IH in H; [assumption|assumption|].
      destruct Hbody as [Hlt|Heq]; [lia|now rewrite Heq].
Qed.

(** C2.  Whatever the search and filter capabilities answer, whatever
    the titles, the company and [max_retries], a sequence returned by
    [improved_search] for a desired count of at least 1 has at most that
    many elements. *)
Theorem improved_search_returns_at_most_desired :
  forall (w : W) (l : list pyval),
    1 <= desired_profile ->
    snd (improved_search' w) = Ok l ->
    len l <= desired_profile.
Proof.
  intros w l Hd H. unfold improved_search in H.
  destruct (retry_loop' _ 0 (initial_state w)) as [s' r] eqn:E.
  cbn [snd] in H. subst r.
  apply retry_loop_bounded in E; [assumption|lia|].
  cbn. lia.
Qed.

(** *** The filter and the merge *)

Lemma parse_filter_output_run :
  forall final_output s,
    parse_filter_output' final_output s
    = match (let? output := py_strip final_output in
             loads json_loads (strip_fence output)) with
      | Ok filtered_profiles => (s, Ok filtered_profiles)
      | Raise e => (logged s (LogParseFailed e), Ok (PList []))
      end.
Proof.
  intros final_output s. unfold parse_filter_output, try_, bind at 1, lift at 1.
  destruct (py_strip final_output) as [output|e]; cbn [ebind]; [|reflexivity].
  unfold lift. destruct (loads json_loads (strip_fence output)); reflexivity.
Qed.

Lemma merge_loop_cons :
  forall p rest new_profiles s,
    merge_loop' (p :: rest) new_profiles s
    = match py_get p "url" with
      | Raise e => (s, Raise e)
      | Ok url =>
          if py_truthy url then
            match set_contains (accumulated_urls s) url with
            | Raise e => (s, Raise e)
            | Ok known =>
                if negb known
                then merge_loop' rest (new_profiles ++ [p])
                       (fst (set_accumulated_urls (set_insert (accumulated_urls s) url) s))
                else merge_loop' rest new_profiles s
            end
          else merge_loop' rest new_profiles s
      end.
Proof.
  intros p rest new_profiles s. cbn [merge_loop]. unfold bind at 1, lift at 1.
  destruct (py_get p "url") as [url|e]; [|reflexivity].
  destruct (py_truthy url); [|reflexivity].
  unfold bind at 1, get_state at 1, bind at 1, lift at 1.
  destruct (set_contains (accumulated_urls s) url) as [[|]|e]; reflexivity.
Qed.

Lemma filter_and_merge_run :
  forall unique_profiles s,
    filter_and_merge' unique_profiles s
    = match dumps json_dumps unique_profiles with
      | Raise e => (s, Raise e)
      | Ok filter_input =>
          let profiles_needed := desired_profile - len (accumulated_profiles s) in
          let prompt := filter_prompt profiles_needed filter_input in
          let (w', r) := respond (world s) filter_agent prompt in
          let s1 := called s filter_agent prompt w' in
          match r with
          | Raise e => (s1, Raise e)
          | Ok final_output =>
              let (s2, parsed) := parse_filter_output' final_output s1 in
              match parsed with
              | Raise e => (s2, Raise e)
              | Ok filtered_profiles =>
                  match py_iter filtered_profiles with
                  | Raise e => (s2, Raise e)
                  | Ok items =>
                      let (s3, r3) := merge_loop' items [] s2 in
                      match r3 with
                      | Raise e => (s3, Raise e)
                      | Ok new_profiles =>
                          (logged (merged s3 new_profiles)
                                  (LogAccumulated
                                     (len (accumulated_profiles s3 ++ new_profiles))),
                           Ok (len items, profiles_needed))
                      end
                  end
              end
          end
      end.
Proof.
  intros unique_profiles s. unfold filter_and_merge, bind at 1, lift at 1.
  destruct (dumps json_dumps unique_profiles) as [filter_input|e]; [|reflexivity].
  unfold bind at 1, get_state at 1. cbv zeta. unfold bind at 1, Runner_run at 1.
  destruct (respond (world s) filter_agent _) as [w' [final_output|e]]; [|reflexivity].
  fold (called s filter_agent
          (filter_prompt (desired_profile - len (accumulated_profiles s)) filter_input) w').
  unfold bind at 1.
  destruct (parse_filter_output' final_output _) as [s2 [filtered_profiles|e]]; [|reflexivity].
  unfold bind at 1, lift at 1.
  destruct (py_iter filtered_profiles) as [items|e]; [|reflexivity].
  unfold bind at 1.
  destruct (merge_loop' items [] s2) as [s3 [new_profiles|e]]; reflexivity.
Qed.

Lemma filter_and_accumulate_after_merge :
  forall unique_profiles s s2 info,
    unique_profiles <> [] ->
    filter_and_merge' unique_profiles s = (s2, Ok info) ->
    filter_and_accumulate' unique_profiles s
    = if len (accumulated_profiles s2) >=? desired_profile
      then (logged s2 (LogReachedDesired desired_profile),
            Ok (Some (slice_to (accumulated_profiles s2) desired_profile)))
      else (logged s2 (LogRetrying (fst info) (snd info)), Ok None).
Proof.
  intros unique_profiles s s2 info Hne Hmerge. unfold filter_and_accumulate.
  destruct unique_profiles as [|p rest]; [contradiction|]. cbn [py_truthy].
  rewrite (bind_run _ _ _ _ _ _ _ Hmerge).
  cbv [bind get_state].
  destruct (len (accumulated_profiles s2) >=? desired_profile); reflexivity.
Qed.

(** The merge loop leaves the accumulated profiles alone and only adds
    to the url set, even when it raises. *)
Lemma merge_loop_grows :
  forall items new_profiles s,
    accumulated_profiles (fst (merge_loop' items new_profiles s)) = accumulated_profiles s
    /\ incl (accumulated_urls s) (accumulated_urls (fst (merge_loop' items new_profiles s))).
Proof.
  induction items as [|p rest IH]; intros new_profiles s.
  - split; [reflexivity|apply incl_refl].
  - rewrite merge_loop_cons.
    destruct (py_get p "url") as [url|e]; [|split; [reflexivity|apply incl_refl]].
    destruct (py_truthy url); [|apply IH].
    destruct (set_contains (accumulated_urls s) url) as [[|]|e];
      [apply IH| |split; [reflexivity|apply incl_refl]].
    cbn [negb].
    destruct (IH (new_profiles ++ [p])
                 (fst (set_accumulated_urls (set_insert (accumulated_urls s) url) s)))
      as [Hacc Hurls].
    split; [exact Hacc|].
    eapply incl_tran; [|exact Hurls].
    cbn [fst set_accumulated_urls accumulated_urls]. unfold set_insert.
    destruct (existsb (key_eq url) (accumulated_urls s)); [apply incl_refl|apply incl_tl, incl_refl].
Qed.

(** The merge loop keeps the accumulator and the url set consistent. *)
Lemma merge_loop_consistent :
  forall items new_profiles s s' out,
    merge_loop' items new_profiles s = (s', Ok out) ->
    accumulator_consistent (accumulated_profiles s ++ new_profiles) (accumulated_urls s) ->
    accumulator_consistent (accumulated_profiles s ++ out) (accumulated_urls s').
Proof.
  induction items as [|p rest IH]; intros new_profiles s s' out Hrun Hok.
  - cbn in Hrun. injection Hrun as <- <-. assumption.
  - rewrite merge_loop_cons in Hrun.
    destruct (py_get p "url") as [url|e] eqn:Hget; [|discriminate].
    destruct (py_truthy url) eqn:Htruthy; [|now apply (IH _ _ _ _ Hrun)].
    destruct (set_contains (accumulated_urls s) url) as [known|e] eqn:Hknown; [|discriminate].
    assert (Hhash : set_contains [] url = Ok false).
    { unfold set_contains in *. now destruct (hashable url). }
    destruct (keyed_record_intro p url false Hget Htruthy Hhash) as [Hp Hurl].
    destruct known; cbn [negb] in Hrun; [now apply (IH _ _ _ _ Hrun)|].
    apply (IH _ _ _ _ Hrun).
    cbn [fst set_accumulated_urls accumulated_urls accumulated_profiles].
    rewrite app_assoc, <- Hurl. apply accumulator_consistent_snoc; [assumption|assumption|].
    unfold set_contains in Hknown. rewrite Hurl.
    destruct (hashable url); [|discriminate]. now injection Hknown.
Qed.


(** *** Counting the attempts *)

(** The counter [remaining] of [retry_loop] and the guard of the
    [while] loop: with [remaining = max_retries + 1 - attempt], the guard
    [attempt <= max_retries] holds exactly when [remaining] is not zero,
    and [attempt += 1] takes one off [remaining]. *)
Lemma retry_loop_guard :
  forall attempt,
    0 <= attempt ->
    (attempt <=? max_retries)
    = negb (Nat.eqb (Z.to_nat (max_retries + 1 - attempt)) 0)
    /\ Z.to_nat (max_retries + 1 - (attempt + 1))
       = Nat.pred (Z.to_nat (max_retries + 1 - attempt)).
Proof.
  intros attempt Hattempt. split; [|lia].
  destruct (Z.leb_spec attempt max_retries);
    destruct (Nat.eqb_spec (Z.to_nat (max_retries + 1 - attempt)) 0); cbn; lia.
Qed.

Lemma attempt_search_attempts :
  forall attempt s,
    attempts_started (trace (fst (attempt_search' attempt s)))
    = S (attempts_started (trace s)).
Proof.
  intros attempt s. unfold attempt_search, bind at 1 2.
  cbv [set_all_profiles log emit]. cbv iota.
  assert (H : respects same_attempts
                (bind two_stage_search'
                   (fun u => bind (log (LogFiltering desired_profile))
                               (fun _ => @ret W _ u)))).
  { unfold log.
    repeat first [apply two_stage_search_same_attempts | respects_step attempts_prim]. }
  rewrite (H _). cbn [trace]. rewrite attempts_started_snoc. cbn. lia.
Qed.

Lemma attempt_body_attempts :
  forall attempt s,
    attempts_started (trace (fst (attempt_body' attempt s)))
    = S (attempts_started (trace s)).
Proof.
  intros attempt s. unfold attempt_body, bind.
  pose proof (attempt_search_attempts attempt s) as H.
  destruct (attempt_search' attempt s) as [s1 [u|e]]; cbn [fst] in *; [|assumption].
  now rewrite (filter_and_accumulate_same_attempts u s1).
Qed.

Lemma return_best_found_run :
  forall s,
    return_best_found' s
    = (logged s (LogExhausted (max_retries + 1) desired_profile),
       Ok (accumulated_profiles s)).
Proof.
  intros s. cbv [return_best_found bind log emit get_state ret logged fst].
  cbn [accumulated_profiles py_truthy].
  now destruct (accumulated_profiles s).
Qed.

Lemma retry_loop_attempts :
  forall remaining attempt s,
    (attempts_started (trace (fst (retry_loop' remaining attempt s)))
     <= attempts_started (trace s) + remaining)%nat.
Proof.
  induction remaining as [|remaining IH]; intros attempt s; cbn [retry_loop].
  - rewrite return_best_found_run. cbn [fst logged log emit trace].
    rewrite attempts_started_snoc. cbn. lia.
  - unfold bind. pose proof (attempt_body_attempts attempt s) as H.
    destruct (attempt_body' attempt s) as [s1 [[l|]|e]]; cbn [fst] in *.
    + cbn [ret fst]. lia.
    + specialize (IH (attempt + 1) s1). lia.
    + lia.
Qed.

Lemma retry_loop_unfulfilled :
  forall remaining attempt s s2,
    unfulfilled respond json_loads json_dumps position_titles company
                desired_profile max_retries remaining attempt s s2 ->
    retry_loop' remaining attempt s
    = (logged s2 (LogExhausted (max_retries + 1) desired_profile),
       Ok (accumulated_profiles s2))
    /\ attempts_started (trace s2) = (attempts_started (trace s) + remaining)%nat.
Proof.
  intros remaining attempt s s2 H.
  induction H as [attempt s|n attempt s s1 s2 Hbody _ [IHrun IHcount]]; cbn [retry_loop].
  - split; [apply return_best_found_run|lia].
  - rewrite (bind_run _ _ _ _ _ _ _ Hbody). split; [assumption|].
    pose proof (attempt_body_attempts attempt s) as Hone.
    rewrite Hbody in Hone. cbn [fst] in Hone. lia.
Qed.

(** *** Searches that find nothing *)

#[local] Instance nothing_found_preorder : PreOrder (@nothing_found W).
Proof.
  split.
  - intros s. now repeat split.
  - intros s1 s2 s3 (Ha & Hb & Hc) (Ha' & Hb' & Hc').
    repeat split; [auto|congruence|congruence].
Qed.

Lemma emit_log_nothing_found :
  forall line, respects nothing_found (@emit W (Log line)).
Proof.
  intros line s. repeat split; [auto|].
  cbn [fst emit trace]. rewrite prompts_to_app. cbn. apply app_nil_r.
Qed.

Lemma search_and_pool_nothing_found :
  search_finds_nothing respond json_loads ->
  forall query, respects nothing_found (search_and_pool' query).
Proof.
  intros Hnothing query s. rewrite search_and_pool_run.
  specialize (Hnothing (world s) (search_prompt query)).
  assert (Hcalled : nothing_found s (called s loop_agent (search_prompt query)
                       (fst (respond (world s) loop_agent (search_prompt query))))).
  { repeat split; [auto|]. cbn [called trace]. rewrite prompts_to_app. cbn. apply app_nil_r. }
  destruct (respond (world s) loop_agent (search_prompt query)) as [w' [v|e]];
    cbn [fst snd] in *; cbv zeta; [|assumption].
  destruct (extract_profiles json_loads v) as [profiles|e]; [|assumption].
  subst profiles. cbn [fst].
  destruct Hcalled as (Ha & Hb & Hc). split; [|split; assumption].
  intros Hs. cbn [pooled all_profiles called]. now rewrite Hs.
Qed.

Lemma stage_loops_nothing_found :
  search_finds_nothing respond json_loads ->
  forall titles,
    respects nothing_found (for_titles stage2_body' titles)
    /\ respects nothing_found (for_titles stage1_body' titles).
Proof.
  intros Hnothing titles.
  split; apply respects_for_titles; try typeclasses eauto; intros title;
    unfold stage2_body, stage1_body, log;
    repeat first [ apply (search_and_pool_nothing_found Hnothing)
                 | apply emit_log_nothing_found
                 | respects_step fail ].
Qed.

Lemma logged_nothing_found :
  forall (s : state W) line, nothing_found s (logged s line).
Proof. intros s line. apply (emit_log_nothing_found line s). Qed.

Lemma attempt_body_nothing_found :
  search_finds_nothing respond json_loads ->
  forall attempt s,
    exists s1,
      attempt_body' attempt s = (s1, Ok None)
      /\ accumulated_profiles s1 = accumulated_profiles s
      /\ prompts_to filter_agent (trace s1) = prompts_to filter_agent (trace s).
Proof.
  intros Hnothing attempt s.
  unfold attempt_body, attempt_search, bind at 1 2 3.
  cbv [set_all_profiles]. cbv iota.
  change (log (LogAttempt (attempt + 1) (max_retries + 1)) ?s0)
    with (logged s0 (LogAttempt (attempt + 1) (max_retries + 1)), @Ok unit tt).
  cbv iota.
  set (s0 := logged _ (LogAttempt (attempt + 1) (max_retries + 1))).
  assert (H0 : all_profiles s0 = []
               /\ prompts_to filter_agent (trace s0) = prompts_to filter_agent (trace s)
               /\ accumulated_profiles s0 = accumulated_profiles s).
  { subst s0. repeat split. cbn [logged fst log emit trace].
    rewrite prompts_to_app. cbn. apply app_nil_r. }
  destruct H0 as (Hpool0 & Hprompts0 & Hacc0).
  unfold bind at 1. rewrite two_stage_search_run.
  destruct (stage_loops_nothing_found Hnothing position_titles) as [H2 _].
  destruct (stage_loops_nothing_found Hnothing (tl position_titles)) as [_ H1].
  specialize (H2 s0).
  destruct (for_titles stage2_body' position_titles s0) as [s2 r2]. cbn [fst] in H2.
  destruct H2 as (Hpool2 & Hprompts2 & Hacc2). specialize (Hpool2 Hpool0).
  rewrite Hpool2. change (deduplicate_by_url []) with (@Ok (list pyval) []).
  cbv iota zeta.
  assert (Hdone : forall s3 : state W,
             nothing_found s2 s3 ->
             exists s1,
               (let (s', r) := bind (log (LogFiltering desired_profile))
                                 (fun _ => @ret W _ []) s3 in
                match r with
                | Ok a => filter_and_accumulate' a s'
                | Raise e => (s', Raise e)
                end) = (s1, Ok None)
               /\ accumulated_profiles s1 = accumulated_profiles s
               /\ prompts_to filter_agent (trace s1) = prompts_to filter_agent (trace s)).
  { intros s3 (_ & Hprompts3 & Hacc3).
    cbv [bind log emit ret filter_and_accumulate py_truthy].
    eexists. split; [reflexivity|]. cbn [accumulated_profiles trace].
    split; [congruence|].
    rewrite !prompts_to_app. cbn. rewrite !app_nil_r. congruence. }
  destruct (len (@nil pyval) <? desired_profile).
  - specialize (H1 (logged (logged s2 (LogFoundAfterWeb (len (@nil pyval))))
                           (LogNeedMore (desired_profile - len (@nil pyval))))).
    destruct (for_titles stage1_body' (tl position_titles) _) as [s5 r5]. cbn [fst] in H1.
    assert (H5 : nothing_found s2 s5).
    { etransitivity; [|exact H1].
      etransitivity; apply logged_nothing_found. }
    destruct H5 as (Hpool5 & Hrest5). rewrite (Hpool5 Hpool2).
    change (deduplicate_by_url []) with (@Ok (list pyval) []).
    apply Hdone. split; [assumption|exact Hrest5].
  - apply Hdone. apply logged_nothing_found.
Qed.

Lemma unfulfilled_nothing_found :
  search_finds_nothing respond json_loads ->
  forall remaining attempt s,
    exists s2,
      unfulfilled respond json_loads json_dumps position_titles company
                  desired_profile max_retries remaining attempt s s2
      /\ accumulated_profiles s2 = accumulated_profiles s
      /\ prompts_to filter_agent (trace s2) = prompts_to filter_agent (trace s).
Proof.
  intros Hnothing. induction remaining as [|remaining IH]; intros attempt s.
  - exists s. split; [constructor|]. now split.
  - destruct (attempt_body_nothing_found Hnothing attempt s) as (s1 & Hbody & Hacc & Hp).
    destruct (IH (attempt + 1) s1) as (s2 & Hrest & Hacc2 & Hp2).
    exists s2. split; [econstructor; eassumption|]. split; congruence.
Qed.

(** *** A filter that keeps nothing *)

#[local] Instance pool_kept_poolable_preorder : PreOrder (@pool_kept_poolable W).
Proof.
  split.
  - intros s. split; [auto|reflexivity].
  - intros s1 s2 s3 [H12 A12] [H23 A23]. split; [auto|now transitivity s2].
Qed.

Lemma emit_log_poolable :
  forall line, respects pool_kept_poolable (@emit W (Log line)).
Proof. intros line s. split; [auto|now split]. Qed.

Lemma search_and_pool_poolable :
  searches_well_formed respond json_loads ->
  forall query, respects pool_kept_poolable (search_and_pool' query).
Proof.
  intros Hsearch query s. rewrite search_and_pool_run.
  specialize (Hsearch (world s) (search_prompt query)).
  destruct (respond (world s) loop_agent (search_prompt query)) as [w' [v|e]];
    cbn [fst snd] in *; cbv zeta; [|split; [auto|now split]].
  destruct (extract_profiles json_loads v) as [profiles|e]; [|split; [auto|now split]].
  split; [|now split]. intros Hpool.
  cbn [fst pooled all_profiles called]. apply Forall_app. now split.
Qed.

Lemma stage_loops_poolable :
  searches_well_formed respond json_loads ->
  forall titles,
    respects pool_kept_poolable (for_titles stage2_body' titles)
    /\ respects pool_kept_poolable (for_titles stage1_body' titles).
Proof.
  intros Hsearch titles.
  split; apply respects_for_titles; try typeclasses eauto; intros title;
    unfold stage2_body, stage1_body, log;
    repeat first [ apply (search_and_pool_poolable Hsearch)
                 | apply emit_log_poolable
                 | respects_step fail ].
Qed.

Lemma logged_poolable :
  forall (s : state W) line, pool_kept_poolable s (logged s line).
Proof. intros s line. apply (emit_log_poolable line s). Qed.

Lemma subseq_Forall :
  forall (A : Type) (P : A -> Prop) (k l : list A),
    subseq k l -> Forall P l -> Forall P k.
Proof.
  intros A P k l H. induction H as [|x k l H IH|x k l H IH]; intros Hl.
  - constructor.
  - inversion Hl; subst. now apply IH.
  - inversion Hl; subst. constructor; [assumption|now apply IH].
Qed.

Lemma deduplicate_poolable :
  forall l,
    Forall poolable l ->
    exists u, deduplicate_by_url l = Ok u /\ Forall poolable u.
Proof.
  intros l Hl. exists (first_occurrences [] l). split.
  - unfold deduplicate_by_url.
    rewrite dedup_loop_first_occurrences with (earlier := []); [reflexivity| |reflexivity].
    apply Forall_forall. intros p Hp. rewrite Forall_forall in Hl. now apply Hl.
  - apply (subseq_Forall _ _ _ l); [apply first_occurrences_subseq|assumption].
Qed.

Lemma dumps_poolable :
  forall l, Forall poolable l -> dumps json_dumps l = Ok (json_dumps (PList l)).
Proof.
  intros l Hl. unfold dumps.
  replace (forallb serializable l) with true; [reflexivity|].
  symmetry. apply forallb_forall. intros p Hp.
  rewrite Forall_forall in Hl. now apply Hl.
Qed.

Lemma merge_loop_unusable :
  forall items new_profiles s,
    Forall unusable items ->
    merge_loop' items new_profiles s = (s, Ok new_profiles).
Proof.
  induction items as [|p rest IH]; intros new_profiles s Hitems; [reflexivity|].
  inversion Hitems as [|? ? [Hdict Hurl] Hrest]; subst.
  rewrite merge_loop_cons. destruct p; try discriminate.
  unfold url_of in Hurl. cbn [py_get] in *. rewrite Hurl. now apply IH.
Qed.

Lemma parse_filter_output_decoded :
  forall final_output s,
    exists s',
      parse_filter_output' final_output s = (s', Ok (decoded json_loads final_output))
      /\ same_accumulator s s' /\ world s' = world s.
Proof.
  intros final_output s. rewrite parse_filter_output_run. unfold decoded.
  destruct (let? output := py_strip final_output in _);
    eexists; (split; [reflexivity|]); now repeat split.
Qed.

Lemma filter_and_accumulate_keeps_nothing :
  filter_keeps_nothing respond json_loads ->
  forall unique_profiles s,
    Forall poolable unique_profiles ->
    len (accumulated_profiles s) < desired_profile ->
    exists s',
      filter_and_accumulate' unique_profiles s = (s', Ok None)
      /\ same_accumulator s s'.
Proof.
  intros Hfilter unique_profiles s Hpool Hshort.
  destruct unique_profiles as [|p rest] eqn:Eunique.
  { cbv [filter_and_accumulate py_truthy bind log emit ret].
    eexists. split; [reflexivity|now split]. }
  rewrite <- Eunique in *.
  assert (Hne : unique_profiles <> []) by (rewrite Eunique; discriminate).
  assert (Hmerge : exists s2 info,
             filter_and_merge' unique_profiles s = (s2, Ok info)
             /\ same_accumulator s s2).
  { rewrite filter_and_merge_run, (dumps_poolable _ Hpool). cbv zeta.
    specialize (Hfilter (world s)
                  (filter_prompt (desired_profile - len (accumulated_profiles s))
                                 (json_dumps (PList unique_profiles)))).
    destruct (respond (world s) filter_agent _) as [w' [final_output|e]];
      cbn [snd] in Hfilter; [|contradiction].
    destruct Hfilter as (items & Hiter & Hitems).
    destruct (parse_filter_output_decoded final_output
                (called s filter_agent
                   (filter_prompt (desired_profile - len (accumulated_profiles s))
                                  (json_dumps (PList unique_profiles))) w'))
      as (s1 & Hparse & [Hacc Hurls] & _).
    rewrite Hparse, Hiter, (merge_loop_unusable items [] s1 Hitems).
    eexists; eexists. split; [reflexivity|].
    split; cbn [logged fst log emit merged accumulated_profiles accumulated_urls].
    - rewrite app_nil_r. exact Hacc.
    - exact Hurls. }
  destruct Hmerge as (s2 & info & Hmerge & [Hacc Hurls]).
  rewrite (filter_and_accumulate_after_merge _ _ _ _ Hne Hmerge).
  destruct (Z.geb_spec (len (accumulated_profiles s2)) desired_profile) as [Hge|_].
  - rewrite Hacc in Hge. lia.
  - eexists. split; [reflexivity|]. now split.
Qed.

Lemma attempt_search_poolable :
  searches_well_formed respond json_loads ->
  forall attempt s,
    exists s1 unique_profiles,
      attempt_search' attempt s = (s1, Ok unique_profiles)
      /\ Forall poolable unique_profiles
      /\ same_accumulator s s1.
Proof.
  intros Hsearch attempt s.
  unfold attempt_search, bind at 1 2 3.
  cbv [set_all_profiles]. cbv iota.
  change (log (LogAttempt (attempt + 1) (max_retries + 1)) ?s0)
    with (logged s0 (LogAttempt (attempt + 1) (max_retries + 1)), @Ok unit tt).
  cbv iota.
  set (s0 := logged _ (LogAttempt (attempt + 1) (max_retries + 1))).
  assert (Hpool0 : Forall poolable (all_profiles s0)) by constructor.
  assert (Hacc0 : same_accumulator s s0) by now split.
  rewrite two_stage_search_run.
  destruct (stage_loops_poolable Hsearch position_titles) as [H2 _].
  destruct (stage_loops_poolable Hsearch (tl position_titles)) as [_ H1].
  specialize (H2 s0).
  destruct (for_titles stage2_body' position_titles s0) as [s2 r2]. cbn [fst] in H2.
  destruct H2 as [Hpool2 Hacc2]. specialize (Hpool2 Hpool0).
  destruct (deduplicate_poolable _ Hpool2) as (u & Hu & Hupool). rewrite Hu. cbv zeta.
  destruct (len u <? desired_profile).
  - specialize (H1 (logged (logged s2 (LogFoundAfterWeb (len u)))
                           (LogNeedMore (desired_profile - len u)))).
    destruct (for_titles stage1_body' (tl position_titles) _) as [s5 r5]. cbn [fst] in H1.
    destruct H1 as [Hpool5 Hacc5]. specialize (Hpool5 Hpool2).
    destruct (deduplicate_poolable _ Hpool5) as (u' & Hu' & Hupool'). rewrite Hu'.
    cbv [bind log emit ret]. eexists; eexists. split; [reflexivity|].
    split; [assumption|].
    transitivity s0; [assumption|]. transitivity s2; [assumption|].
    destruct Hacc5 as [Ha Hb]. now split.
  - cbv [bind log emit ret logged fst]. eexists; eexists. split; [reflexivity|].
    split; [assumption|].
    transitivity s0; [assumption|]. destruct Hacc2 as [Ha Hb]. now split.
Qed.

Lemma unfulfilled_keeps_nothing :
  searches_well_formed respond json_loads ->
  filter_keeps_nothing respond json_loads ->
  forall remaining attempt s,
    len (accumulated_profiles s) < desired_profile ->
    exists s2,
      unfulfilled respond json_loads json_dumps position_titles company
                  desired_profile max_retries remaining attempt s s2
      /\ same_accumulator s s2.
Proof.
  intros Hsearch Hfilter. induction remaining as [|remaining IH]; intros attempt s Hshort.
  - exists s. split; [constructor|reflexivity].
  - destruct (attempt_search_poolable Hsearch attempt s)
      as (s1 & unique_profiles & Hrun & Hpool & Hacc1).
    assert (Hshort1 : len (accumulated_profiles s1) < desired_profile).
    { destruct Hacc1 as [Ha _]. now rewrite Ha. }
    destruct (filter_and_accumulate_keeps_nothing Hfilter unique_profiles s1 Hpool Hshort1)
      as (s1' & Hfilterrun & Hacc1').
    assert (Hshort1' : len (accumulated_profiles s1') < desired_profile).
    { destruct Hacc1' as [Ha _]. now rewrite Ha. }
    destruct (IH (attempt + 1) s1' Hshort1') as (s2 & Hrest & Hacc2).
    exists s2. split.
    + apply unfulfilled_step with (s1 := s1'); [|assumption].
      unfold attempt_body. now rewrite (bind_run _ _ _ _ _ _ _ Hrun).
    + transitivity s1; [assumption|]. now transitivity s1'.
Qed.

(** C4.  (1) Whatever happens, [improved_search] starts at most
    [max_retries + 1] attempts.  (2) When each of the attempts runs to
    its end without reaching the desired count, [improved_search]
    returns, as an ordinary value, the list accumulated by then, after
    exactly [max_retries + 1] attempts.  (3) In particular when no search
    finds a profile, it returns the empty list after exactly
    [max_retries + 1] attempts, without a call to the filter agent.
    (4) And when the searches find well-formed profiles but the filter
    keeps none of them, it returns the empty list after exactly
    [max_retries + 1] attempts, for a desired count of at least 1. *)
Theorem exhaustion_returns_the_accumulator :
  (forall w,
      (attempts_started (trace (fst (improved_search' w)))
       <= Z.to_nat (max_retries + 1))%nat)
  /\ (forall w s2,
        unfulfilled respond json_loads json_dumps position_titles company
                    desired_profile max_retries
                    (Z.to_nat (max_retries + 1)) 0 (initial_state w) s2 ->
        improved_search' w
        = (logged s2 (LogExhausted (max_retries + 1) desired_profile),
           Ok (accumulated_profiles s2))
        /\ attempts_started (trace s2) = Z.to_nat (max_retries + 1))
  /\ (search_finds_nothing respond json_loads ->
      forall w,
      exists s',
        improved_search' w = (s', Ok [])
        /\ attempts_started (trace s') = Z.to_nat (max_retries + 1)
        /\ prompts_to filter_agent (trace s') = [])
  /\ (searches_well_formed respond json_loads ->
      filter_keeps_nothing respond json_loads ->
      1 <= desired_profile ->
      forall w,
      exists s',
        improved_search' w = (s', Ok [])
        /\ attempts_started (trace s') = Z.to_nat (max_retries + 1)).
Proof.
  split; [|split; [|split]].
  - intros w. unfold improved_search.
    apply (retry_loop_attempts (Z.to_nat (max_retries + 1)) 0 (initial_state w)).
  - intros w s2 H. unfold improved_search.
    apply retry_loop_unfulfilled in H. exact H.
  - intros Hnothing w. unfold improved_search.
    destruct (unfulfilled_nothing_found Hnothing (Z.to_nat (max_retries + 1)) 0
                                        (initial_state w))
      as (s2 & H & Hacc & Hp).
    apply retry_loop_unfulfilled in H as [Hrun Hcount].
    eexists. split; [rewrite Hrun, Hacc; reflexivity|]. split.
    + cbn [logged fst log emit trace]. rewrite attempts_started_snoc, Hcount. cbn. lia.
    + rewrite logged_prompts, Hp. reflexivity.
  - intros Hsearch Hfilter Hd w. unfold improved_search.
    destruct (unfulfilled_keeps_nothing Hsearch Hfilter (Z.to_nat (max_retries + 1)) 0
                                        (initial_state w))
      as (s2 & H & [Hacc _]); [cbn; lia|].
    apply retry_loop_unfulfilled in H as [Hrun Hcount].
    eexists. split; [rewrite Hrun, Hacc; reflexivity|].
    cbn [logged fst log emit trace]. rewrite attempts_started_snoc, Hcount. cbn. lia.
Qed.

(** *** Success *)

(** C5.  Once the filtered profiles of an attempt are merged and the
    accumulator holds at least [desired_profile] profiles,
    [improved_search] returns [accumulated_profiles[:desired_profile]],
    which for a count that is not negative is the list of the first
    [desired_profile] accumulated profiles, exactly that many; the run
    ends in the state the merge left, with one log line more, so that no
    later attempt starts and no further call is made.  In particular,
    when this happens in the first attempt, the whole run started one
    attempt. *)
Theorem success_returns_at_once :
  (forall remaining attempt s s1 unique_profiles s2 info,
      attempt_search' attempt s = (s1, Ok unique_profiles) ->
      unique_profiles <> [] ->
      filter_and_merge' unique_profiles s1 = (s2, Ok info) ->
      desired_profile <= len (accumulated_profiles s2) ->
      retry_loop' (S remaining) attempt s
      = (logged s2 (LogReachedDesired desired_profile),
         Ok (slice_to (accumulated_profiles s2) desired_profile))
      /\ attempts_started (trace (logged s2 (LogReachedDesired desired_profile)))
         = S (attempts_started (trace s))
      /\ (0 <= desired_profile ->
          slice_to (accumulated_profiles s2) desired_profile
          = firstn (Z.to_nat desired_profile) (accumulated_profiles s2)
          /\ len (slice_to (accumulated_profiles s2) desired_profile) = desired_profile))
  /\ (forall w s1 unique_profiles s2 info,
        0 <= max_retries ->
        attempt_search' 0 (initial_state w) = (s1, Ok unique_profiles) ->
        unique_profiles <> [] ->
        filter_and_merge' unique_profiles s1 = (s2, Ok info) ->
        desired_profile <= len (accumulated_profiles s2) ->
        improved_search' w
        = (logged s2 (LogReachedDesired desired_profile),
           Ok (slice_to (accumulated_profiles s2) desired_profile))
        /\ attempts_started (trace (fst (improved_search' w))) = 1%nat
        /\ (0 <= desired_profile ->
            slice_to (accumulated_profiles s2) desired_profile
            = firstn (Z.to_nat desired_profile) (accumulated_profiles s2)
            /\ len (slice_to (accumulated_profiles s2) desired_profile)
               = desired_profile)).
Proof.
  assert (Hfirst_n : forall l : list pyval,
             desired_profile <= len l ->
             0 <= desired_profile ->
             slice_to l desired_profile = firstn (Z.to_nat desired_profile) l
             /\ len (slice_to l desired_profile) = desired_profile).
  { intros l Hreached Hd. unfold slice_to, len in *.
    destruct (Z.leb_spec 0 desired_profile); [|lia].
    split; [reflexivity|]. rewrite length_firstn. lia. }
  assert (Hstep : forall remaining attempt s s1 unique_profiles s2 info,
      attempt_search' attempt s = (s1, Ok unique_profiles) ->
      unique_profiles <> [] ->
      filter_and_merge' unique_profiles s1 = (s2, Ok info) ->
      desired_profile <= len (accumulated_profiles s2) ->
      retry_loop' (S remaining) attempt s
      = (logged s2 (LogReachedDesired desired_profile),
         Ok (slice_to (accumulated_profiles s2) desired_profile))
      /\ attempts_started (trace (logged s2 (LogReachedDesired desired_profile)))
         = S (attempts_started (trace s))).
  { intros remaining attempt s s1 unique_profiles s2 info Hsearch Hne Hmerge Hreached.
    assert (Hbody : attempt_body' attempt s
                    = (logged s2 (LogReachedDesired desired_profile),
                       Ok (Some (slice_to (accumulated_profiles s2) desired_profile)))).
    { unfold attempt_body. rewrite (bind_run _ _ _ _ _ _ _ Hsearch).
      rewrite (filter_and_accumulate_after_merge _ _ _ _ Hne Hmerge).
      destruct (Z.geb_spec (len (accumulated_profiles s2)) desired_profile); [reflexivity|lia]. }
    split.
    - cbn [retry_loop]. now rewrite (bind_run _ _ _ _ _ _ _ Hbody).
    - pose proof (attempt_body_attempts attempt s) as H. now rewrite Hbody in H. }
  split.
  - intros remaining attempt s s1 unique_profiles s2 info Hsearch Hne Hmerge Hreached.
    destruct (Hstep remaining attempt s s1 unique_profiles s2 info
                    Hsearch Hne Hmerge Hreached) as [Hrun Hcount].
    split; [exact Hrun|]. split; [exact Hcount|]. now apply Hfirst_n.
  - intros w s1 unique_profiles s2 info Hretries Hsearch Hne Hmerge Hreached.
    unfold improved_search.
    destruct (Z.to_nat (max_retries + 1)) as [|remaining] eqn:E; [lia|].
    destruct (Hstep remaining 0 (initial_state w) s1 unique_profiles s2 info
                    Hsearch Hne Hmerge Hreached) as [Hrun Hcount].
    split; [assumption|]. split; [|now apply Hfirst_n].
    rewrite Hrun. cbn [fst]. rewrite Hcount. reflexivity.
Qed.

(** *** The accumulator across attempts *)

#[local] Instance accumulator_grows_preorder : PreOrder (@accumulator_grows W).
Proof.
  split.
  - intros s. split; [exists []; now rewrite app_nil_r|apply incl_refl].
  - intros s1 s2 s3 [[n12 H12] I12] [[n23 H23] I23]. split.
    + exists (n12 ++ n23). now rewrite H23, H12, app_assoc.
    + now apply incl_tran with (accumulated_urls s2).
Qed.

Lemma same_accumulator_grows :
  forall s s' : state W, same_accumulator s s' -> accumulator_grows s s'.
Proof.
  intros s s' [Hacc Hurls]. split.
  - exists []. now rewrite app_nil_r.
  - rewrite Hurls. apply incl_refl.
Qed.

Lemma same_accumulator_ok :
  forall s s' : state W, same_accumulator s s' -> accumulator_ok s -> accumulator_ok s'.
Proof. intros s s' [Hacc Hurls]. unfold accumulator_ok. now rewrite Hacc, Hurls. Qed.

Lemma parse_filter_output_same_accumulator :
  forall final_output, respects same_accumulator (parse_filter_output' final_output).
Proof.
  intros final_output s. rewrite parse_filter_output_run.
  destruct (let? output := py_strip final_output in _); now split.
Qed.

Lemma filter_and_merge_grows :
  forall unique_profiles, respects accumulator_grows (filter_and_merge' unique_profiles).
Proof.
  intros unique_profiles s. rewrite filter_and_merge_run.
  destruct (dumps json_dumps unique_profiles) as [filter_input|e]; [|reflexivity].
  cbv zeta.
  destruct (respond (world s) filter_agent _) as [w' [final_output|e]];
    [|apply same_accumulator_grows; now split].
  pose proof (parse_filter_output_same_accumulator final_output
                (called s filter_agent
                   (filter_prompt (desired_profile - len (accumulated_profiles s)) filter_input)
                   w')) as Hparse.
  destruct (parse_filter_output' final_output _) as [s2 parsed]. cbn [fst] in Hparse.
  assert (H2 : accumulator_grows s s2).
  { apply same_accumulator_grows. destruct Hparse as [Ha Hu]. now split. }
  destruct parsed as [filtered_profiles|e]; [|assumption].
  destruct (py_iter filtered_profiles) as [items|e]; [|assumption].
  pose proof (merge_loop_grows items [] s2) as [Hacc Hurls].
  destruct (merge_loop' items [] s2) as [s3 r3]. cbn [fst] in *.
  assert (H3 : accumulator_grows s2 s3).
  { split; [exists []; now rewrite app_nil_r|assumption]. }
  destruct r3 as [new_profiles|e]; cbn [fst]; [|now transitivity s2].
  transitivity s2; [assumption|]. transitivity s3; [assumption|].
  split; [now exists new_profiles|apply incl_refl].
Qed.

Lemma filter_and_merge_ok :
  forall unique_profiles s s' info,
    filter_and_merge' unique_profiles s = (s', Ok info) ->
    accumulator_ok s -> accumulator_ok s'.
Proof.
  intros unique_profiles s s' info Hrun Hok. rewrite filter_and_merge_run in Hrun.
  destruct (dumps json_dumps unique_profiles) as [filter_input|e]; [|discriminate].
  cbv zeta in Hrun.
  destruct (respond (world s) filter_agent _) as [w' [final_output|e]]; [|discriminate].
  pose proof (parse_filter_output_same_accumulator final_output
                (called s filter_agent
                   (filter_prompt (desired_profile - len (accumulated_profiles s)) filter_input)
                   w')) as Hparse.
  destruct (parse_filter_output' final_output _) as [s2 parsed]. cbn [fst] in Hparse.
  assert (H2 : accumulator_ok s2).
  { apply (same_accumulator_ok s); [|assumption]. destruct Hparse as [Ha Hu]. now split. }
  destruct parsed as [filtered_profiles|e]; [|discriminate].
  destruct (py_iter filtered_profiles) as [items|e]; [|discriminate].
  destruct (merge_loop' items [] s2) as [s3 [new_profiles|e]] eqn:Hmerge; [|discriminate].
  injection Hrun as <- _.
  pose proof (merge_loop_grows items [] s2) as [Hacc _].
  rewrite Hmerge in Hacc. cbn [fst] in Hacc.
  apply merge_loop_consistent in Hmerge.
  - unfold accumulator_ok. cbn [logged fst log emit merged accumulated_profiles accumulated_urls].
    now rewrite Hacc.
  - now rewrite app_nil_r.
Qed.

Lemma filter_and_accumulate_grows :
  forall unique_profiles,
    respects accumulator_grows (filter_and_accumulate' unique_profiles).
Proof.
  intros unique_profiles. unfold filter_and_accumulate.
  assert (Hlog : forall line, respects accumulator_grows (@log W line)).
  { intros line s. apply same_accumulator_grows. now split. }
  repeat first [apply filter_and_merge_grows | apply Hlog | respects_step fail].
Qed.

Lemma filter_and_accumulate_ok :
  forall unique_profiles s s' outcome,
    filter_and_accumulate' unique_profiles s = (s', Ok outcome) ->
    accumulator_ok s -> accumulator_ok s'.
Proof.
  intros unique_profiles s s' outcome Hrun Hok. unfold filter_and_accumulate in Hrun.
  destruct (py_truthy (PList unique_profiles)).
  - apply bind_ok in Hrun as (s1 & info & Hmerge & Hrun).
    apply filter_and_merge_ok in Hmerge; [|assumption].
    cbv [bind get_state] in Hrun.
    destruct (len (accumulated_profiles s1) >=? desired_profile);
      cbv [log emit ret] in Hrun; injection Hrun as <- _; exact Hmerge.
  - cbv [bind log emit ret] in Hrun. injection Hrun as <- _. exact Hok.
Qed.

Lemma attempt_body_grows :
  forall attempt, respects accumulator_grows (attempt_body' attempt).
Proof.
  intros attempt. unfold attempt_body. apply respects_bind; [typeclasses eauto| |].
  - intros s. apply same_accumulator_grows, attempt_search_same_accumulator.
  - apply filter_and_accumulate_grows.
Qed.

Lemma attempt_body_ok :
  forall attempt s s' outcome,
    accumulator_ok s ->
    attempt_body' attempt s = (s', Ok outcome) ->
    accumulator_ok s'.
Proof.
  intros attempt s s' outcome Hok Hrun. unfold attempt_body in Hrun.
  apply bind_ok in Hrun as (s1 & unique_profiles & Hsearch & Hrun).
  apply filter_and_accumulate_ok in Hrun; [assumption|].
  apply (same_accumulator_ok s); [|assumption].
  pose proof (attempt_search_same_accumulator attempt s) as H.
  now rewrite Hsearch in H.
Qed.

Lemma retry_loop_grows :
  forall remaining attempt, respects accumulator_grows (retry_loop' remaining attempt).
Proof.
  induction remaining as [|remaining IH]; intros attempt; cbn [retry_loop].
  - intros s. rewrite return_best_found_run. apply same_accumulator_grows. now split.
  - apply respects_bind; [typeclasses eauto|apply attempt_body_grows|].
    intros [l|]; [apply respects_ret; typeclasses eauto|apply IH].
Qed.

Lemma retry_loop_ok :
  forall remaining attempt s s' l,
    accumulator_ok s ->
    retry_loop' remaining attempt s = (s', Ok l) ->
    accumulator_ok s'
    /\ exists k, l = firstn k (accumulated_profiles s').
Proof.
  induction remaining as [|remaining IH]; intros attempt s s' l Hok Hrun;
    cbn [retry_loop] in Hrun.
  - rewrite return_best_found_run in Hrun. injection Hrun as <- <-.
    split; [exact Hok|].
    exists (List.length (accumulated_profiles s)). symmetry. apply firstn_all.
  - apply bind_ok in Hrun as (s1 & outcome & Hbody & Hrun).
    pose proof (attempt_body_ok _ _ _ _ Hok Hbody) as Hok1.
    apply attempt_body_outcome in Hbody.
    destruct outcome as [profiles|]; [|now apply (IH _ _ _ _ Hok1 Hrun)].
    cbv [ret] in Hrun. injection Hrun as <- <-.
    split; [assumption|]. destruct Hbody as [-> _]. apply slice_to_prefix.
Qed.

(** C6.  (1) Through any attempt, however it ends, the accumulated
    profile list is extended at its end and every url of the set stays in
    it.  (2) An attempt that runs to its end from a well-formed
    accumulator leaves a well-formed one: every accumulated record is a
    mapping with a non-empty url, no two of them carry the same url, and
    the set holds exactly their urls.  (3) The same growth holds through
    the whole loop.  (4) What [improved_search] returns is an initial
    part of a well-formed accumulator, so its records carry non-empty,
    pairwise distinct urls. *)
Theorem accumulator_only_grows :
  (forall attempt s, accumulator_grows s (fst (attempt_body' attempt s)))
  /\ (forall attempt s s' outcome,
        accumulator_ok s ->
        attempt_body' attempt s = (s', Ok outcome) ->
        accumulator_ok s')
  /\ (forall remaining attempt s,
        accumulator_grows s (fst (retry_loop' remaining attempt s)))
  /\ (forall w s' l,
        improved_search' w = (s', Ok l) ->
        accumulator_ok s'
        /\ (exists k, l = firstn k (accumulated_profiles s'))
        /\ Forall keyed_record l
        /\ distinct_urls l).
Proof.
  split; [|split; [|split]].
  - intros attempt s. apply attempt_body_grows.
  - apply attempt_body_ok.
  - intros remaining attempt s. apply retry_loop_grows.
  - intros w s' l Hrun. unfold improved_search in Hrun.
    apply retry_loop_ok in Hrun as [Hok [k ->]].
    + split; [assumption|]. split; [now exists k|].
      destruct Hok as (Hkeyed & Hdistinct & _). split.
      * apply Forall_forall. intros p Hp. apply In_firstn in Hp.
        revert p Hp. now apply Forall_forall.
      * now apply ForallOrdPairs_firstn.
    + split; [constructor|]. split; [constructor|]. intros url. reflexivity.
Qed.

(** *** A filter output of the wrong shape *)


End WorkflowFacts.

(** ** Concrete runs *)

Example demo_loads_fenced :
  demo_loads (strip_fence (strip ("  ```json " ++ demo_dumps (PList [alice; bob]) ++ " ```  ")))
  = Some (PList [alice; bob]).
Proof. vm_compute. reflexivity. Qed.

Lemma extract_profiles_returns_nothing_for_a_list_witness :
  let text := ("```json " ++ demo_dumps (PList [alice]) ++ " ```")%string in
  demo_loads (strip_fence text) = Some (PList [alice])
  /\ extract_profiles demo_loads (PStr text) = Ok []
  /\ extract_profiles demo_loads (PList [alice]) = Ok []
  /\ flat_map extract_one [alice]
     = [base_profile (PStr "Alice, CTO") (PStr "https://example.com/alice")
                     (PStr "") (PInt 0)].
Proof.
  intros text.
  destruct (extract_profiles_returns_nothing_for_a_list demo_loads) as [Hnative Htext].
  assert (Hloads : demo_loads (strip_fence text) = Some (PList [alice]))
    by (vm_compute; reflexivity).
  split; [exact Hloads|]. split; [exact (Htext text [alice] Hloads)|].
  split; [exact (Hnative [alice])|reflexivity].
Defined.

Example demo_run_success :
  snd (demo_run script_success 2 2) = Ok [alice; bob]
  /\ attempts_started (trace (fst (demo_run script_success 2 2))) = 1%nat.
Proof. vm_compute. split; reflexivity. Qed.

Example demo_run_retry :
  snd (demo_run script_retry 2 2) = Ok [alice; bob]
  /\ attempts_started (trace (fst (demo_run script_retry 2 2))) = 2%nat.
Proof. vm_compute. split; reflexivity. Qed.

Example demo_run_nothing :
  snd (demo_run script_nothing 2 2) = Ok []
  /\ attempts_started (trace (fst (demo_run script_nothing 2 2))) = 3%nat.
Proof. vm_compute. split; reflexivity. Qed.

Example demo_run_strings :
  snd (demo_run script_strings 2 2) = Raise AttributeError.
Proof. vm_compute. reflexivity. Qed.

Example demo_run_empty_object :
  snd (demo_run script_empty_object 2 2) = Ok [].
Proof. vm_compute. reflexivity. Qed.

Ltac profile_records :=
  repeat (apply Forall_cons;
          [ eexists; split;
            [ reflexivity
            | first [ left; reflexivity | right; eexists; reflexivity ] ]
          | ]);
  apply Forall_nil.

Example deduplicate_by_url_demo_pool :
  deduplicate_by_url demo_pool = Ok [alice; bob; carol].
Proof. reflexivity. Qed.

Lemma deduplicate_by_url_keeps_first_occurrences_witness :
  Forall profile_record demo_pool
  /\ exists kept,
      deduplicate_by_url demo_pool = Ok kept
      /\ kept = first_occurrences [] demo_pool
      /\ subseq kept demo_pool
      /\ Forall (fun p => record_url p <> "") kept
      /\ NoDup (map record_url kept)
      /\ (forall pre p post,
            demo_pool = pre ++ p :: post ->
            record_url p <> "" ->
            ~ In (record_url p) (map record_url pre) ->
            In p kept).
Proof.
  assert (H : Forall profile_record demo_pool) by (unfold demo_pool; profile_records).
  split; [exact H|].
  exact (deduplicate_by_url_keeps_first_occurrences demo_pool H).
Defined.

Lemma deduplicate_by_url_idempotent_witness :
  Forall profile_record demo_pool
  /\ (let? kept := deduplicate_by_url demo_pool in deduplicate_by_url kept)
     = deduplicate_by_url demo_pool
  /\ exists kept,
      deduplicate_by_url demo_pool = Ok kept /\ deduplicate_by_url kept = Ok kept.
Proof.
  assert (H : Forall profile_record demo_pool) by (unfold demo_pool; profile_records).
  destruct (deduplicate_by_url_idempotent demo_pool) as [Hfix Htotal].
  split; [exact H|]. split; [exact Hfix|]. exact (Htotal H).
Defined.

Lemma improved_search_returns_at_most_desired_witness :
  1 <= 2
  /\ snd (demo_run script_success 2 2) = Ok [alice; bob]
  /\ len [alice; bob] <= 2.
Proof.
  assert (Hd : 1 <= 2) by lia.
  assert (Hrun : snd (demo_run script_success 2 2) = Ok [alice; bob])
    by (vm_compute; reflexivity).
  split; [exact Hd|]. split; [exact Hrun|].
  exact (improved_search_returns_at_most_desired
           nat (scripted script_success) demo_loads demo_dumps
           demo_titles "Acme" 2 2 0%nat [alice; bob] Hd Hrun).
Defined.

(** The thresholds on the scripted runs: in the first the broad stage
    ends with one profile for a desired count of 2 and the fallback stage
    runs; in the second it ends with three and the fallback stage is
    skipped. *)
Lemma stages_stop_at_their_thresholds_witness :
  let s2 := after_broad_stage script_success 2 in
  let u := pool_after_broad_stage script_success 2 in
  let s4 := logged (logged s2 (LogFoundAfterWeb (len u))) (LogNeedMore (2 - len u)) in
  let s2' := after_broad_stage script_retry 2 in
  let u' := pool_after_broad_stage script_retry 2 in
  (all_profiles demo_start = [] /\ 0 <= 2)
  /\ pool_within (2 * 2) demo_start
  /\ (exists s1 fl,
        demo_stage2 script_success 2 "CTO" demo_start = (s1, Ok fl)
        /\ (fl = Break <-> pool_exceeds (2 * 2) s1))
  /\ (for_titles (demo_stage2 script_success 2) demo_titles demo_start = (s2, Ok tt)
      /\ deduplicate_by_url (all_profiles s2) = Ok u
      /\ len u < 2)
  /\ pool_below 2 s4
  /\ demo_two_stage_search script_success 2 demo_start
     = (let (s5, _) := for_titles (demo_stage1 script_success 2) (tl demo_titles) s4 in
        (s5, deduplicate_by_url (all_profiles s5)))
  /\ (exists s1 fl,
        demo_stage1 script_success 2 "VP Engineering" s4 = (s1, Ok fl)
        /\ (fl = Break <-> pool_reaches 2 s1))
  /\ (for_titles (demo_stage2 script_retry 2) demo_titles demo_start = (s2', Ok tt)
      /\ deduplicate_by_url (all_profiles s2') = Ok u'
      /\ 2 <= len u')
  /\ demo_two_stage_search script_retry 2 demo_start
     = (logged s2' (LogFoundAfterWeb (len u')), Ok u').
Proof.
  intros s2 u s4 s2' u'.
  destruct (stages_stop_at_their_thresholds
              nat (scripted script_success) demo_loads demo_titles "Acme" 2)
    as (Hfresh & Hbroad & Hentry & _ & Hfallback).
  destruct (stages_stop_at_their_thresholds
              nat (scripted script_retry) demo_loads demo_titles "Acme" 2)
    as (_ & _ & Hentry' & _ & _).
  assert (Hpool : all_profiles demo_start = []) by reflexivity.
  assert (Hd : 0 <= 2) by lia.
  assert (Hwithin : pool_within (2 * 2) demo_start) by exact (Hfresh demo_start Hpool Hd).
  assert (Hs2 : for_titles (demo_stage2 script_success 2) demo_titles demo_start = (s2, Ok tt))
    by (vm_compute; reflexivity).
  assert (Hu : deduplicate_by_url (all_profiles s2) = Ok u) by (vm_compute; reflexivity).
  assert (Hlt : len u < 2) by (vm_compute; reflexivity).
  assert (Hs2' : for_titles (demo_stage2 script_retry 2) demo_titles demo_start = (s2', Ok tt))
    by (vm_compute; reflexivity).
  assert (Hu' : deduplicate_by_url (all_profiles s2') = Ok u') by (vm_compute; reflexivity).
  assert (Hge : 2 <= len u') by (vm_compute; discriminate).
  destruct (Hentry demo_start s2 u Hs2 Hu) as [Hrun _].
  destruct (Hrun Hlt) as [Hbelow Hsearch].
  destruct (Hentry' demo_start s2' u' Hs2' Hu') as [_ Hskip].
  destruct (Hbroad "CTO" ["VP Engineering"; "Head of R&D"] demo_start Hwithin)
    as (s1 & fl & Hbody & Hfl & _).
  destruct (Hfallback "VP Engineering" ["Head of R&D"] s4 Hbelow)
    as (t1 & gl & Hbody1 & Hgl & _).
  split; [exact (conj Hpool Hd)|]. split; [exact Hwithin|].
  split; [exists s1, fl; exact (conj Hbody Hfl)|].
  split; [exact (conj Hs2 (conj Hu Hlt))|]. split; [exact Hbelow|]. split; [exact Hsearch|].
  split; [exists t1, gl; exact (conj Hbody1 Hgl)|].
  split; [exact (conj Hs2' (conj Hu' Hge))|]. exact (Hskip Hge).
Defined.

Lemma failed_search_is_skipped_witness :
  let query := web_query "Acme" "CTO" in
  let s' := logged (called (logged demo_start (LogSearchWeb query))
                           loop_agent (search_prompt query) 1%nat)
                   (LogWebFailed "CTO" (AgentError "timeout")) in
  let t := logged (logged (after_broad_stage script_fallback_failure 2)
                          (LogFoundAfterWeb 1)) (LogNeedMore 1) in
  let query1 := linkedin_query "Acme" "VP Engineering" in
  let t' := logged (called (logged t (LogSearchLinkedIn query1))
                           loop_agent (search_prompt query1) 4%nat)
                   (LogLinkedInFailed "VP Engineering" (AgentError "rate limit")) in
  scripted script_success (world demo_start) loop_agent (search_prompt query)
  = (1%nat, Raise (AgentError "timeout"))
  /\ (all_profiles s' = all_profiles demo_start
      /\ demo_stage2 script_success 2 "CTO" demo_start = (s', Ok Continue)
      /\ for_titles (demo_stage2 script_success 2) demo_titles demo_start
         = for_titles (demo_stage2 script_success 2) (tl demo_titles) s')
  /\ scripted script_fallback_failure (world t) loop_agent (search_prompt query1)
     = (4%nat, Raise (AgentError "rate limit"))
  /\ (all_profiles t' = all_profiles t
      /\ demo_stage1 script_fallback_failure 2 "VP Engineering" t = (t', Ok Continue)
      /\ for_titles (demo_stage1 script_fallback_failure 2) (tl demo_titles) t
         = for_titles (demo_stage1 script_fallback_failure 2) ["Head of R&D"] t').
Proof.
  intros query s' t query1 t'.
  destruct (failed_search_is_skipped nat (scripted script_success) demo_loads "Acme" 2)
    as (Hweb & _ & _).
  destruct (failed_search_is_skipped nat (scripted script_fallback_failure) demo_loads "Acme" 2)
    as (_ & Hlinkedin & _).
  assert (H : scripted script_success (world demo_start) loop_agent (search_prompt query)
              = (1%nat, Raise (AgentError "timeout"))) by reflexivity.
  assert (H1 : scripted script_fallback_failure (world t) loop_agent (search_prompt query1)
               = (4%nat, Raise (AgentError "rate limit"))) by (vm_compute; reflexivity).
  split; [exact H|].
  split; [exact (Hweb "CTO" (tl demo_titles) demo_start 1%nat (AgentError "timeout") H)|].
  split; [exact H1|].
  exact (Hlinkedin "VP Engineering" ["Head of R&D"] t 4%nat (AgentError "rate limit") H1).
Defined.

Lemma script_nothing_finds_nothing :
  search_finds_nothing (scripted script_nothing) demo_loads.
Proof.
  intros w prompt. unfold scripted. cbn [snd].
  destruct (nth_in_or_default w script_nothing (Raise (AgentError "no answer")))
    as [Hin | ->]; [|exact I].
  apply repeat_spec in Hin. rewrite Hin. vm_compute. reflexivity.
Defined.

Lemma script_empty_object_unfulfilled :
  unfulfilled (scripted script_empty_object) demo_loads demo_dumps demo_titles "Acme" 2 2
              (Z.to_nat (2 + 1)) 0 demo_start
              (fst (demo_attempt_body script_empty_object 2 2
                      (fst (demo_attempt_body script_empty_object 2 1
                              (after_attempt script_empty_object 2))))).
Proof.
  apply unfulfilled_step with (s1 := after_attempt script_empty_object 2);
    [vm_compute; reflexivity|].
  apply unfulfilled_step
    with (s1 := fst (demo_attempt_body script_empty_object 2 1
                       (after_attempt script_empty_object 2)));
    [vm_compute; reflexivity|].
  eapply unfulfilled_step; [vm_compute; reflexivity|].
  apply unfulfilled_done.
Defined.

Lemma fruitless_searches_well_formed : searches_well_formed fruitless demo_loads.
Proof.
  intros w prompt. vm_compute.
  repeat (apply Forall_cons;
          [ split;
            [ eexists; split; [reflexivity|right; eexists; reflexivity]
            | reflexivity ]
          | ]).
  apply Forall_nil.
Defined.

Lemma fruitless_filter_keeps_nothing : filter_keeps_nothing fruitless demo_loads.
Proof.
  intros w prompt. exists []. split; [vm_compute; reflexivity|constructor].
Defined.

Lemma exhaustion_returns_the_accumulator_witness :
  search_finds_nothing (scripted script_nothing) demo_loads
  /\ (exists s',
        demo_run script_nothing 2 2 = (s', Ok [])
        /\ attempts_started (trace s') = Z.to_nat (2 + 1)
        /\ prompts_to filter_agent (trace s') = [])
  /\ (exists s2,
        unfulfilled (scripted script_empty_object) demo_loads demo_dumps demo_titles
                    "Acme" 2 2 (Z.to_nat (2 + 1)) 0 demo_start s2
        /\ demo_run script_empty_object 2 2
           = (logged s2 (LogExhausted (2 + 1) 2), Ok (accumulated_profiles s2))
        /\ attempts_started (trace s2) = Z.to_nat (2 + 1))
  /\ (searches_well_formed fruitless demo_loads
      /\ filter_keeps_nothing fruitless demo_loads
      /\ 1 <= 2)
  /\ (exists s',
        improved_search unit fruitless demo_loads demo_dumps demo_titles "Acme" 2 2 tt
        = (s', Ok [])
        /\ attempts_started (trace s') = Z.to_nat (2 + 1)).
Proof.
  destruct (exhaustion_returns_the_accumulator
              nat (scripted script_nothing) demo_loads demo_dumps demo_titles "Acme" 2 2)
    as (_ & _ & Hnothing & _).
  destruct (exhaustion_returns_the_accumulator
              nat (scripted script_empty_object) demo_loads demo_dumps demo_titles "Acme" 2 2)
    as (_ & Hunfulfilled & _).
  destruct (exhaustion_returns_the_accumulator
              unit fruitless demo_loads demo_dumps demo_titles "Acme" 2 2)
    as (_ & _ & _ & Hfruitless).
  assert (Hd : 1 <= 2) by lia.
  split; [exact script_nothing_finds_nothing|].
  split; [exact (Hnothing script_nothing_finds_nothing 0%nat)|].
  split; [eexists; split; [exact script_empty_object_unfulfilled|];
          exact (Hunfulfilled 0%nat _ script_empty_object_unfulfilled)|].
  split; [exact (conj fruitless_searches_well_formed
                      (conj fruitless_filter_keeps_nothing Hd))|].
  exact (Hfruitless fruitless_searches_well_formed fruitless_filter_keeps_nothing Hd tt).
Defined.

Lemma success_returns_at_once_witness :
  let s1 := after_search script_success 2 in
  let unique_profiles := pool_after_search script_success 2 in
  let s2 := after_merge script_success 2 in
  (demo_attempt_search script_success 2 0 demo_start = (s1, Ok unique_profiles)
   /\ unique_profiles <> []
   /\ demo_filter_and_merge script_success 2 unique_profiles s1 = (s2, Ok (2, 2))
   /\ 2 <= len (accumulated_profiles s2)
   /\ 0 <= 2)
  /\ demo_retry_loop script_success 2 3 0 demo_start
     = (logged s2 (LogReachedDesired 2), Ok (slice_to (accumulated_profiles s2) 2))
  /\ (demo_run script_success 2 2
      = (logged s2 (LogReachedDesired 2), Ok (slice_to (accumulated_profiles s2) 2))
      /\ attempts_started (trace (fst (demo_run script_success 2 2))) = 1%nat
      /\ (0 <= 2 ->
          slice_to (accumulated_profiles s2) 2
          = firstn (Z.to_nat 2) (accumulated_profiles s2)
          /\ len (slice_to (accumulated_profiles s2) 2) = 2)).
Proof.
  intros s1 unique_profiles s2.
  destruct (success_returns_at_once
              nat (scripted script_success) demo_loads demo_dumps demo_titles "Acme" 2 2)
    as (Hloop & Hfirst).
  assert (Hsearch : demo_attempt_search script_success 2 0 demo_start
                    = (s1, Ok unique_profiles)) by (vm_compute; reflexivity).
  assert (Hne : unique_profiles <> []) by (vm_compute; discriminate).
  assert (Hmerge : demo_filter_and_merge script_success 2 unique_profiles s1
                   = (s2, Ok (2, 2))) by (vm_compute; reflexivity).
  assert (Hreached : 2 <= len (accumulated_profiles s2)) by (vm_compute; discriminate).
  assert (Hretries : 0 <= 2) by lia.
  split; [exact (conj Hsearch (conj Hne (conj Hmerge (conj Hreached Hretries))))|].
  split; [exact (proj1 (Hloop 2%nat 0 demo_start s1 unique_profiles s2 (2, 2)
                              Hsearch Hne Hmerge Hreached))|].
  exact (Hfirst 0%nat s1 unique_profiles s2 (2, 2) Hretries Hsearch Hne Hmerge Hreached).
Defined.

Lemma demo_start_ok : accumulator_ok demo_start.
Proof.
  split; [constructor|]. split; [constructor|]. intros url. split; intros H; exact H.
Defined.

Lemma accumulator_only_grows_witness :
  let s1 := after_attempt script_retry 2 in
  let s' := fst (demo_run script_retry 2 2) in
  (accumulator_ok demo_start
   /\ demo_attempt_body script_retry 2 0 demo_start = (s1, Ok None))
  /\ accumulator_ok s1
  /\ accumulated_profiles s1 = [alice]
  /\ accumulator_grows demo_start s1
  /\ demo_run script_retry 2 2 = (s', Ok [alice; bob])
  /\ accumulator_ok s'
  /\ Forall keyed_record [alice; bob]
  /\ distinct_urls [alice; bob].
Proof.
  intros s1 s'.
  destruct (accumulator_only_grows
              nat (scripted script_retry) demo_loads demo_dumps demo_titles "Acme" 2 2)
    as (Hgrows & Hok & _ & Hreturned).
  assert (Hbody : demo_attempt_body script_retry 2 0 demo_start = (s1, Ok None))
    by (vm_compute; reflexivity).
  assert (Hrun : demo_run script_retry 2 2 = (s', Ok [alice; bob]))
    by (vm_compute; reflexivity).
  destruct (Hreturned 0%nat s' [alice; bob] Hrun) as (Hok' & _ & Hkeyed & Hdistinct).
  split; [split; [exact demo_start_ok|exact Hbody]|].
  split; [exact (Hok 0 demo_start s1 None demo_start_ok Hbody)|].
  split; [vm_compute; reflexivity|].
  split; [exact (Hgrows 0 demo_start)|].
  split; [exact Hrun|]. split; [exact Hok'|]. split; [exact Hkeyed|exact Hdistinct].
Defined.



(** * Further properties *)

(** ** The Result Extractor, further *)

Section ExtractorMore.

Variable json_loads : string -> option pyval.

Lemma extract_profiles_decoded :
  forall result,
    py_truthy result = true ->
    extract_profiles json_loads result
    = match decoded_result json_loads result with
      | Some (PDict d) =>
          if py_truthy (selected_data d)
          then (let? items := py_iter (selected_data d) in
                Ok (flat_map extract_one items))
          else Ok []
      | _ => Ok []
      end.
Proof.
  intros result Htruthy. unfold extract_profiles, decoded_result. rewrite Htruthy.
  cbn [negb].
  destruct (match result with PStr s => json_loads (strip_fence s) | _ => Some result end)
    as [v|]; [|reflexivity].
  destruct v; reflexivity.
Qed.

(** X1.  Given the value [extract_profiles] looks into (its argument,
    or for a text what [json.loads] returns for it once the fence is
    removed), it raises in one situation only: that value is a mapping,
    and what stands under [results] (or, without that key, under
    [profiles]) is True or a number other than zero.  The exception is
    then the [TypeError] of the [for] loop.  A text that [json.loads]
    does not decode is not covered. *)
Theorem extract_profiles_raises_exactly_on_scalars :
  forall result v e,
    decoded_result json_loads result = Some v ->
    (extract_profiles json_loads result = Raise e
     <-> (e = TypeError
          /\ py_truthy result = true
          /\ exists d, v = PDict d /\ truthy_scalar (selected_data d) = true)).
Proof.
  intros result v e Hdecoded. destruct (py_truthy result) eqn:Htruthy.
  - rewrite (extract_profiles_decoded result Htruthy), Hdecoded.
    destruct v;
      try (split; [discriminate|intros (_ & _ & d0 & [=] & _)]).
    unfold truthy_scalar.
    destruct (py_truthy (selected_data d)) eqn:Hdata; cbn [andb].
    + destruct (py_iter (selected_data d)) as [items|e0] eqn:Hiter; cbn [ebind].
      * split; [discriminate|].
        intros (_ & _ & d0 & [= <-] & Hs). rewrite Hdata, Hiter in Hs. discriminate.
      * assert (He0 : e0 = TypeError)
          by (destruct (selected_data d); cbn in Hiter; congruence).
        subst e0. split.
        -- intros [= <-]. split; [reflexivity|]. split; [reflexivity|].
           exists d. split; [reflexivity|]. now rewrite Hdata, Hiter.
        -- intros (-> & _). reflexivity.
    + split; [discriminate|].
      intros (_ & _ & d0 & [= <-] & Hs). rewrite Hdata in Hs. discriminate.
  - unfold extract_profiles. rewrite Htruthy. cbn [negb].
    split; [discriminate|]. intros (_ & [=] & _).
Qed.

Lemma extract_one_base_shaped :
  forall res, Forall base_shaped (extract_one res).
Proof.
  intros res. destruct res; cbn [extract_one]; constructor;
    try constructor; unfold base_shaped; eauto.
Qed.

Lemma flat_map_extract_one_base_shaped :
  forall items, Forall base_shaped (flat_map extract_one items).
Proof.
  induction items as [|res items IH]; cbn [flat_map]; [constructor|].
  apply Forall_app. split; [apply extract_one_base_shaped|exact IH].
Qed.

Lemma dedup_loop_dicts :
  forall profiles seen unique,
    Forall (fun p => is_dict p = true) profiles ->
    dedup_loop profiles seen unique <> Raise AttributeError.
Proof.
  induction profiles as [|p rest IH]; intros seen unique Hall; [discriminate|].
  inversion Hall as [|? ? Hp Hrest]; subst.
  destruct p; try discriminate Hp. cbn [dedup_loop py_get ebind].
  destruct (py_truthy (dict_get_default d "url" PNone)); [|now apply IH].
  unfold set_contains.
  destruct (hashable (dict_get_default d "url" PNone)); cbn [ebind]; [|discriminate].
  destruct (negb _); now apply IH.
Qed.

(** X2.  Whatever [extract_profiles] is given, every record it returns
    is a mapping with exactly the keys title, url, content and score, in
    that order; so [deduplicate_by_url] never fails on extracted records
    for want of a [get] method. *)
Theorem extract_profiles_gives_base_records :
  forall result profiles,
    extract_profiles json_loads result = Ok profiles ->
    Forall base_shaped profiles
    /\ deduplicate_by_url profiles <> Raise AttributeError.
Proof.
  intros result profiles Hrun.
  assert (Hshape : Forall base_shaped profiles).
  { unfold extract_profiles in Hrun.
    destruct (negb (py_truthy result)); [injection Hrun as <-; constructor|].
    destruct (match result with PStr s => json_loads (strip_fence s) | _ => Some result end)
      as [v|]; [|injection Hrun as <-; constructor].
    destruct (negb (is_dict v)); [injection Hrun as <-; constructor|].
    match type of Hrun with
    | (if py_truthy ?data then _ else _) = _ =>
        destruct (py_truthy data); [|injection Hrun as <-; constructor];
        destruct (py_iter data) as [items|e]; cbn [ebind] in Hrun; [|discriminate]
    end.
    injection Hrun as <-. apply flat_map_extract_one_base_shaped. }
  split; [exact Hshape|].
  apply dedup_loop_dicts.
  eapply Forall_impl; [|exact Hshape].
  intros p (title & url & content & score & ->). reflexivity.
Qed.

(** X3.  In a mapping that has the key [results], nothing else counts:
    two mappings with the same value under [results] give the same
    outcome, whatever stands under [profiles] or any other key.  An empty
    [results] therefore hides a filled [profiles]. *)
Theorem extract_profiles_results_shadows_profiles :
  forall d d' data,
    dict_get d "results" = Some data ->
    dict_get d' "results" = Some data ->
    extract_profiles json_loads (PDict d) = extract_profiles json_loads (PDict d').
Proof.
  intros d d' data Hd Hd'.
  assert (Hnonempty : forall d0, dict_get d0 "results" = Some data ->
                                 py_truthy (PDict d0) = true).
  { intros [|kv d0] H; [discriminate|reflexivity]. }
  rewrite !extract_profiles_decoded by eauto.
  cbn [decoded_result]. unfold selected_data, dict_has, dict_get_default.
  now rewrite Hd, Hd'.
Qed.

(** X4.  Text and native value agree: a non-empty text that decodes
    (after the fence is removed) to a value other than a string gives
    exactly what that value gives when passed as it is. *)
Theorem extract_profiles_text_as_decoded :
  forall s v,
    s <> "" ->
    json_loads (strip_fence s) = Some v ->
    (forall t, v <> PStr t) ->
    extract_profiles json_loads (PStr s) = extract_profiles json_loads v.
Proof.
  intros s v Hs Hloads Hnot_str.
  assert (Htruthy : py_truthy (PStr s) = true).
  { cbn [py_truthy]. destruct (String.eqb_spec s ""); [contradiction|reflexivity]. }
  rewrite (extract_profiles_decoded (PStr s) Htruthy).
  cbn [decoded_result]. rewrite Hloads.
  destruct (py_truthy v) eqn:Hv.
  - rewrite (extract_profiles_decoded v Hv).
    destruct v; try reflexivity. now destruct (Hnot_str s0).
  - unfold extract_profiles. rewrite Hv. cbn [negb].
    destruct v; try reflexivity.
    destruct d; [reflexivity|discriminate].
Qed.

End ExtractorMore.

(** ** The Deduplicator, on any input *)

Lemma dedup_loop_cons :
  forall p rest seen unique,
    dedup_loop (p :: rest) seen unique
    = if is_dict p then
        if py_truthy (url_of p) then
          if hashable (url_of p) then
            if existsb (key_eq (url_of p)) seen
            then dedup_loop rest seen unique
            else dedup_loop rest (set_insert seen (url_of p)) (unique ++ [p])
          else Raise TypeError
        else dedup_loop rest seen unique
      else Raise AttributeError.
Proof.
  intros p rest seen unique. destruct p; try reflexivity.
  cbn [dedup_loop py_get ebind is_dict url_of].
  destruct (py_truthy (dict_get_default d "url" PNone)); [|reflexivity].
  unfold set_contains.
  destruct (hashable (dict_get_default d "url" PNone)); cbn [ebind]; [|reflexivity].
  now destruct (existsb _ seen).
Qed.

Lemma dedup_loop_app :
  forall l1 l2 seen unique,
    dedup_loop (l1 ++ l2) seen unique
    = match dedup_loop l1 seen unique with
      | Ok kept => dedup_loop l2 (seen_after l1 seen) kept
      | Raise e => Raise e
      end.
Proof.
  induction l1 as [|p l1 IH]; intros l2 seen unique; [reflexivity|].
  rewrite <- app_comm_cons, !dedup_loop_cons. cbn [seen_after].
  destruct (is_dict p); [|reflexivity].
  destruct (py_truthy (url_of p)); cbn [andb]; [|apply IH].
  destruct (hashable (url_of p)); cbn [andb]; [|reflexivity].
  destruct (existsb (key_eq (url_of p)) seen); cbn [negb]; apply IH.
Qed.

Lemma seen_after_kept :
  forall l seen kept,
    dedup_loop l seen [] = Ok kept ->
    seen_after kept seen = seen_after l seen.
Proof.
  induction l as [|p l IH]; intros seen kept Hrun.
  - injection Hrun as <-. reflexivity.
  - rewrite dedup_loop_cons in Hrun. cbn [seen_after].
    destruct (is_dict p); [|discriminate].
    destruct (py_truthy (url_of p)) eqn:Htruthy; cbn [andb]; [|now apply IH].
    destruct (hashable (url_of p)) eqn:Hhash; cbn [andb]; [|discriminate].
    destruct (existsb (key_eq (url_of p)) seen) eqn:Hknown; cbn [negb]; [now apply IH|].
    apply dedup_loop_cons_kept in Hrun as (kept' & -> & Hrest).
    cbn [seen_after]. rewrite Htruthy, Hhash, Hknown. cbn [andb negb].
    now apply IH.
Qed.

(** X5.  Deduplication can be done in instalments: deduplicating a pool
    that was extended by further records gives what deduplicating the
    already deduplicated pool, extended by the same records, gives, the
    failures included. *)
Theorem deduplicate_by_url_in_instalments :
  forall l1 l2,
    deduplicate_by_url (l1 ++ l2)
    = (let? kept := deduplicate_by_url l1 in deduplicate_by_url (kept ++ l2)).
Proof.
  intros l1 l2. unfold deduplicate_by_url. rewrite dedup_loop_app.
  destruct (dedup_loop l1 [] []) as [kept|e] eqn:Hrun; cbn [ebind]; [|reflexivity].
  rewrite dedup_loop_app, (dedup_loop_fixed _ _ _ Hrun).
  now rewrite (seen_after_kept _ _ _ Hrun).
Qed.

(** X6.  Extending the pool only extends the deduplicated list: when
    [deduplicate_by_url] returns on an extended pool it also returns on
    the pool before the extension, and what it returned there is the
    beginning of the new list.  The count of unique profiles that the
    stages compare with their thresholds therefore never goes down. *)
Theorem deduplicate_by_url_extends :
  forall l1 l2 kept,
    deduplicate_by_url (l1 ++ l2) = Ok kept ->
    exists kept1 kept2,
      deduplicate_by_url l1 = Ok kept1
      /\ kept = kept1 ++ kept2
      /\ len kept1 <= len kept.
Proof.
  intros l1 l2 kept. unfold deduplicate_by_url. rewrite dedup_loop_app.
  destruct (dedup_loop l1 [] []) as [kept1|e]; [|discriminate].
  rewrite dedup_loop_unique.
  destruct (dedup_loop l2 (seen_after l1 []) []) as [kept2|e]; cbn [ebind]; [|discriminate].
  intros [= <-]. exists kept1, kept2. split; [reflexivity|]. split; [reflexivity|].
  unfold len. rewrite length_app. lia.
Qed.

Lemma dedup_loop_returns_iff :
  forall l seen unique,
    (exists kept, dedup_loop l seen unique = Ok kept) <-> Forall dedupable l.
Proof.
  induction l as [|p l IH]; intros seen unique.
  - split; [constructor|]. intros _. now exists unique.
  - rewrite dedup_loop_cons. unfold dedupable at 1. split.
    + intros (kept & Hrun).
      destruct (is_dict p) eqn:Hdict; [|discriminate].
      destruct (py_truthy (url_of p)) eqn:Htruthy.
      * destruct (hashable (url_of p)) eqn:Hhash; [|discriminate].
        constructor; [unfold dedupable; auto|].
        destruct (existsb _ seen); eapply IH; eauto.
      * constructor; [unfold dedupable; auto|]. eapply IH; eauto.
    + intros Hall. inversion Hall as [|? ? (Hdict & Hurl) Hrest]; subst.
      rewrite Hdict.
      destruct (py_truthy (url_of p)) eqn:Htruthy; [|now apply IH].
      destruct Hurl as [Hurl|Hurl]; [discriminate|]. rewrite Hurl.
      destruct (existsb _ seen); now apply IH.
Qed.

(** X7.  [deduplicate_by_url] returns a list exactly when every element
    of its input is a mapping whose url is empty (absent, None, zero, an
    empty text or container) or hashable. *)
Theorem deduplicate_by_url_returns_iff :
  forall l,
    (exists kept, deduplicate_by_url l = Ok kept) <-> Forall dedupable l.
Proof.
  intros l. apply dedup_loop_returns_iff.
Qed.

Lemma dedup_loop_raises_iff :
  forall l seen unique e,
    dedup_loop l seen unique = Raise e
    <-> exists before p after,
        l = before ++ p :: after
        /\ Forall dedupable before
        /\ (is_dict p = false /\ e = AttributeError
            \/ is_dict p = true /\ py_truthy (url_of p) = true
               /\ hashable (url_of p) = false /\ e = TypeError).
Proof.
  induction l as [|p l IH]; intros seen unique e.
  - split; [discriminate|]. intros (before & q & after & Hsplit & _).
    now destruct before.
  - rewrite dedup_loop_cons. split.
    + intros Hrun.
      assert (Hlater :
                forall seen' unique',
                  dedupable p ->
                  dedup_loop l seen' unique' = Raise e ->
                  exists before q after,
                    p :: l = before ++ q :: after
                    /\ Forall dedupable before
                    /\ (is_dict q = false /\ e = AttributeError
                        \/ is_dict q = true /\ py_truthy (url_of q) = true
                           /\ hashable (url_of q) = false /\ e = TypeError)).
      { intros seen' unique' Hp Hrest.
        apply IH in Hrest as (before & q & after & -> & Hbefore & Hq).
        exists (p :: before), q, after. split; [reflexivity|].
        split; [now constructor|exact Hq]. }
      destruct (is_dict p) eqn:Hdict.
      * destruct (py_truthy (url_of p)) eqn:Htruthy.
        -- destruct (hashable (url_of p)) eqn:Hhash.
           ++ destruct (existsb _ seen);
                (eapply Hlater; [unfold dedupable; auto|exact Hrun]).
           ++ injection Hrun as <-. exists [], p, l.
              split; [reflexivity|]. split; [constructor|]. right. auto.
        -- eapply Hlater; [unfold dedupable; auto|exact Hrun].
      * injection Hrun as <-. exists [], p, l.
        split; [reflexivity|]. split; [constructor|]. left. auto.
    + intros (before & q & after & Hsplit & Hbefore & Hq).
      destruct before as [|p' before].
      * injection Hsplit as <- <-.
        destruct Hq as [(Hdict & ->)|(Hdict & Htruthy & Hhash & ->)].
        -- now rewrite Hdict.
        -- now rewrite Hdict, Htruthy, Hhash.
      * injection Hsplit as <- ->.
        inversion Hbefore as [|? ? (Hdict & Hurl) Hbefore']; subst.
        assert (Hrest : forall seen' unique', dedup_loop (before ++ q :: after) seen' unique' = Raise e).
        { intros seen' unique'. apply IH. exists before, q, after. auto. }
        rewrite Hdict.
        destruct (py_truthy (url_of p)) eqn:Htruthy; [|apply Hrest].
        destruct Hurl as [Hurl|Hurl]; [discriminate|]. rewrite Hurl.
        destruct (existsb _ seen); apply Hrest.
Qed.

(** X8.  When [deduplicate_by_url] raises, the first element that is not
    a mapping with an empty or hashable url decides the exception:
    [AttributeError] when it is no mapping (it has no [get]),
    [TypeError] when its url is non-empty and unhashable (a list or a
    mapping); the elements after it are never looked at. *)
Theorem deduplicate_by_url_raises_iff :
  forall l e,
    deduplicate_by_url l = Raise e
    <-> exists before p after,
        l = before ++ p :: after
        /\ Forall dedupable before
        /\ (is_dict p = false /\ e = AttributeError
            \/ is_dict p = true /\ py_truthy (url_of p) = true
               /\ hashable (url_of p) = false /\ e = TypeError).
Proof.
  intros l e. apply dedup_loop_raises_iff.
Qed.

Lemma key_eq_refl : forall x, hashable x = true -> key_eq x x = true.
Proof.
  fix IH 1. intros x Hx.
  destruct x; try discriminate Hx; cbn [key_eq num_val].
  - reflexivity.
  - apply Qeq_bool_iff. reflexivity.
  - apply Qeq_bool_iff. reflexivity.
  - apply Qeq_bool_iff. reflexivity.
  - apply String.eqb_refl.
  - cbn [hashable] in Hx. induction l as [|a l IHl]; [reflexivity|].
    cbn [forallb] in Hx. apply andb_true_iff in Hx as [Ha Hl].
    rewrite (IH a Ha). now apply IHl.
Qed.

Lemma existsb_set_insert :
  forall seen url x,
    existsb (key_eq x) seen = true ->
    existsb (key_eq x) (set_insert seen url) = true.
Proof.
  intros seen url x Hx. unfold set_insert.
  destruct (existsb (key_eq url) seen); [exact Hx|].
  cbn [existsb]. rewrite Hx. apply orb_true_r.
Qed.

Lemma seen_after_keeps :
  forall l seen x,
    existsb (key_eq x) seen = true ->
    existsb (key_eq x) (seen_after l seen) = true.
Proof.
  induction l as [|p l IH]; intros seen x Hx; [exact Hx|].
  cbn [seen_after]. destruct (_ && _); apply IH; [|exact Hx].
  now apply existsb_set_insert.
Qed.

Lemma dedup_loop_sound :
  forall l seen unique kept,
    dedup_loop l seen unique = Ok kept ->
    accumulator_consistent unique seen ->
    accumulator_consistent kept (seen_after l seen)
    /\ (exists kept', kept = unique ++ kept' /\ subseq kept' l)
    /\ (forall p, In p l -> py_truthy (url_of p) = true ->
                  existsb (key_eq (url_of p)) (seen_after l seen) = true).
Proof.
  induction l as [|p l IH]; intros seen unique kept Hrun Hinv.
  - injection Hrun as <-. split; [exact Hinv|]. split.
    + exists []. rewrite app_nil_r. split; [reflexivity|constructor].
    + intros p [].
  - rewrite dedup_loop_cons in Hrun. cbn [seen_after].
    destruct (is_dict p) eqn:Hdict; [|discriminate].
    destruct (py_truthy (url_of p)) eqn:Htruthy; cbn [andb].
    + destruct (hashable (url_of p)) eqn:Hhash; cbn [andb]; [|discriminate].
      destruct (existsb (key_eq (url_of p)) seen) eqn:Hknown; cbn [negb].
      * destruct (IH _ _ _ Hrun Hinv) as (Hcons & (kept' & -> & Hsub) & Hall).
        split; [exact Hcons|]. split.
        -- exists kept'. split; [reflexivity|now constructor].
        -- intros q [<-|Hq] Hq_truthy; [now apply seen_after_keeps|now apply Hall].
      * assert (Hinv' : accumulator_consistent (unique ++ [p]) (set_insert seen (url_of p))).
        { apply accumulator_consistent_snoc; [exact Hinv| |exact Hknown].
          unfold keyed_record. auto. }
        destruct (IH _ _ _ Hrun Hinv') as (Hcons & (kept' & -> & Hsub) & Hall).
        split; [exact Hcons|]. split.
        -- exists (p :: kept'). rewrite <- app_assoc. split; [reflexivity|now constructor].
        -- intros q [<-|Hq] Hq_truthy; [|now apply Hall].
           apply seen_after_keeps. unfold set_insert. rewrite Hknown.
           cbn [existsb]. apply orb_true_iff. left.
           now apply key_eq_refl.
    + destruct (IH _ _ _ Hrun Hinv) as (Hcons & (kept' & -> & Hsub) & Hall).
      split; [exact Hcons|]. split.
      * exists kept'. split; [reflexivity|now constructor].
      * intros q [<-|Hq] Hq_truthy; [congruence|now apply Hall].
Qed.


(** X9.  On any input on which it returns, [deduplicate_by_url] gives a
    sub-list of its input, in the input's order, of mappings with a
    non-empty hashable url, no two of which carry the same url as Python
    compares urls (1, 1.0 and True are the same); and no non-empty url of
    the input is lost: each is the url of a record that is kept. *)
Theorem deduplicate_by_url_sound_and_complete :
  forall l kept,
    deduplicate_by_url l = Ok kept ->
    subseq kept l
    /\ Forall keyed_record kept
    /\ distinct_urls kept
    /\ (forall p, In p l -> py_truthy (url_of p) = true ->
                  exists q, In q kept /\ key_eq (url_of p) (url_of q) = true).
Proof.
  intros l kept Hrun.
  assert (Hstart : accumulator_consistent [] []).
  { split; [constructor|]. split; [constructor|]. intros url. reflexivity. }
  destruct (dedup_loop_sound l [] [] kept Hrun Hstart)
    as ((Hkeyed & Hdistinct & Hurls) & (kept' & -> & Hsub) & Hall).
  cbn [app] in *.
  split; [exact Hsub|]. split; [exact Hkeyed|]. split; [exact Hdistinct|].
  intros p Hp Htruthy. specialize (Hall p Hp Htruthy).
  apply existsb_exists in Hall as (url & Hurl & Heq).
  apply Hurls, in_map_iff in Hurl as (q & <- & Hq).
  now exists q.
Qed.

(** ** The search workflow, further *)

#[local] Instance same_calls_preorder (W : Type) (a : agent) : PreOrder (@same_calls W a).
Proof.
  split.
  - intros s. reflexivity.
  - unfold same_calls. intros s1 s2 s3 H12 H23. congruence.
Qed.

#[local] Instance only_searches_preorder (W : Type) (allowed : list string)
  : PreOrder (@only_searches W allowed).
Proof.
  split.
  - intros s. exists []. split; [now rewrite app_nil_r|intros x []].
  - intros s1 s2 s3 (extra1 & H1 & Hin1) (extra2 & H2 & Hin2).
    exists (extra1 ++ extra2). split.
    + now rewrite H2, H1, app_assoc.
    + now apply incl_app.
Qed.

#[local] Instance keeps_filter_items_preorder
    (W : Type) (respond : W -> agent -> string -> W * except pyval)
    (json_loads : string -> option pyval)
  : PreOrder (@keeps_filter_items W respond json_loads).
Proof.
  split.
  - intros s H. exact H.
  - intros s1 s2 s3 H12 H23 H. apply H23, H12, H.
Qed.

Section WorkflowMore.

Variable W : Type.
Variable respond : W -> agent -> string -> W * except pyval.
Variable json_loads : string -> option pyval.
Variable json_dumps : pyval -> string.
Variable position_titles : list string.
Variable company : string.
Variable desired_profile : Z.
Variable max_retries : Z.

Local Abbreviation Runner_run' := (Runner_run W respond).
Local Abbreviation search_and_pool' := (search_and_pool W respond json_loads).
Local Abbreviation stage2_body' := (stage2_body W respond json_loads company desired_profile).
Local Abbreviation stage1_body' := (stage1_body W respond json_loads company desired_profile).
Local Abbreviation two_stage_search' :=
  (two_stage_search W respond json_loads position_titles company desired_profile).
Local Abbreviation attempt_search' :=
  (attempt_search W respond json_loads position_titles company desired_profile max_retries).
Local Abbreviation parse_filter_output' := (parse_filter_output W json_loads).
Local Abbreviation merge_loop' := (merge_loop W).
Local Abbreviation filter_and_merge' :=
  (filter_and_merge W respond json_loads json_dumps desired_profile).
Local Abbreviation filter_and_accumulate' :=
  (filter_and_accumulate W respond json_loads json_dumps desired_profile).
Local Abbreviation attempt_body' :=
  (attempt_body W respond json_loads json_dumps position_titles company
                desired_profile max_retries).
Local Abbreviation return_best_found' := (return_best_found W desired_profile max_retries).
Local Abbreviation retry_loop' :=
  (retry_loop W respond json_loads json_dumps position_titles company
              desired_profile max_retries).
Local Abbreviation improved_search' :=
  (improved_search W respond json_loads json_dumps position_titles company
                   desired_profile max_retries).
Local Abbreviation filter_item' := (filter_item respond json_loads).
Local Abbreviation allowed := (search_prompts_of position_titles company).

(** *** Which steps call which agent *)

Lemma called_prompts :
  forall (s : state W) a b prompt w',
    prompts_to a (trace (called s b prompt w'))
    = prompts_to a (trace s)
      ++ match a, b with
         | loop_agent, loop_agent | filter_agent, filter_agent => [prompt]
         | _, _ => []
         end.
Proof.
  intros s a b prompt w'. unfold called. cbn [trace].
  rewrite prompts_to_app. now destruct a, b.
Qed.

Lemma log_same_calls :
  forall a line, respects (same_calls a) (@log W line).
Proof. intros a line s. exact (logged_prompts W s line a). Qed.

Lemma set_all_profiles_same_calls :
  forall a l, respects (same_calls a) (@set_all_profiles W l).
Proof. intros a l s. reflexivity. Qed.

Lemma set_accumulated_profiles_same_calls :
  forall a l, respects (same_calls a) (@set_accumulated_profiles W l).
Proof. intros a l s. reflexivity. Qed.

Lemma set_accumulated_urls_same_calls :
  forall a u, respects (same_calls a) (@set_accumulated_urls W u).
Proof. intros a u s. reflexivity. Qed.

Lemma Runner_run_same_calls :
  forall a b prompt, a <> b -> respects (same_calls a) (Runner_run' b prompt).
Proof.
  intros a b prompt Hab s. unfold same_calls, Runner_run.
  destruct (respond (world s) b prompt) as [w' r]. cbn [fst].
  change (mkState W w' (trace s ++ [Run b prompt]) (all_profiles s)
                  (accumulated_profiles s) (accumulated_urls s))
    with (called s b prompt w').
  rewrite called_prompts. destruct a, b; try contradiction; apply app_nil_r.
Qed.

Ltac calls_prim :=
  first
    [ apply log_same_calls
    | apply set_all_profiles_same_calls
    | apply set_accumulated_profiles_same_calls
    | apply set_accumulated_urls_same_calls
    | apply Runner_run_same_calls; discriminate ].

Lemma two_stage_search_same_filter_calls :
  respects (same_calls filter_agent) two_stage_search'.
Proof.
  unfold two_stage_search, stage2_body, stage1_body, search_and_pool.
  repeat respects_step calls_prim.
Qed.

Lemma attempt_search_same_filter_calls :
  forall attempt, respects (same_calls filter_agent) (attempt_search' attempt).
Proof.
  intros attempt. unfold attempt_search.
  repeat respects_step ltac:(first [apply two_stage_search_same_filter_calls|calls_prim]).
Qed.

Lemma merge_loop_same_calls :
  forall a items new_profiles, respects (same_calls a) (merge_loop' items new_profiles).
Proof.
  intros a items. induction items as [|p rest IH]; intros new_profiles; cbn [merge_loop].
  - apply respects_ret. typeclasses eauto.
  - repeat respects_step ltac:(first [apply IH|calls_prim]).
Qed.

Lemma parse_filter_output_same_calls :
  forall a final_output, respects (same_calls a) (parse_filter_output' final_output).
Proof.
  intros a final_output. unfold parse_filter_output.
  repeat respects_step calls_prim.
Qed.

Lemma filter_and_accumulate_same_search_calls :
  forall unique_profiles,
    respects (same_calls loop_agent) (filter_and_accumulate' unique_profiles).
Proof.
  intros unique_profiles. unfold filter_and_accumulate, filter_and_merge.
  repeat respects_step
         ltac:(first [ apply merge_loop_same_calls
                     | apply parse_filter_output_same_calls
                     | calls_prim ]).
Qed.

Lemma bind_tail :
  forall (R : state W -> state W -> Prop) (A B : Type) (m : M W A) (f : A -> M W B),
    Reflexive R ->
    (forall a, respects R (f a)) ->
    forall s, R (fst (m s)) (fst (bind m f s)).
Proof.
  intros R A B m f HR Hf s. unfold bind.
  destruct (m s) as [s1 [a|e]]; cbn [fst]; [apply Hf|reflexivity].
Qed.

(** *** The budget of calls *)

Lemma calls_within_bind :
  forall a n k (A B : Type) (m : M W A) (f : A -> M W B),
    respects (calls_within a n) m ->
    (forall x, respects (calls_within a k) (f x)) ->
    respects (calls_within a (n + k)) (bind m f).
Proof.
  intros a n k A B m f Hm Hf s. unfold bind.
  specialize (Hm s). destruct (m s) as [s1 [x|e]]; cbn [fst] in *.
  - specialize (Hf x s1). unfold calls_within in *. lia.
  - unfold calls_within in *. lia.
Qed.

Lemma calls_within_more :
  forall a n n' (A : Type) (m : M W A),
    (n <= n')%nat -> respects (calls_within a n) m -> respects (calls_within a n') m.
Proof.
  intros a n n' A m Hle Hm s. specialize (Hm s). unfold calls_within in *. lia.
Qed.

Lemma same_calls_within :
  forall a (A : Type) (m : M W A),
    respects (same_calls a) m -> respects (calls_within a 0) m.
Proof.
  intros a A m Hm s. specialize (Hm s). unfold calls_within, same_calls in *.
  rewrite Hm. lia.
Qed.

Lemma stage_loops_budget :
  forall titles,
    respects (calls_within loop_agent (List.length titles)) (for_titles stage2_body' titles)
    /\ respects (calls_within loop_agent (List.length titles)) (for_titles stage1_body' titles).
Proof.
  intros titles.
  split; intros s; unfold calls_within.
  - destruct (for_titles_prompts W
                stage2_body' (web_query company)
                (stage2_body_prompts W respond json_loads company desired_profile) titles s)
      as (k & Hk & ->).
    rewrite length_app, length_map, length_firstn. lia.
  - destruct (for_titles_prompts W
                stage1_body' (linkedin_query company)
                (stage1_body_prompts W respond json_loads company desired_profile) titles s)
      as (k & Hk & ->).
    rewrite length_app, length_map, length_firstn. lia.
Qed.

Lemma calls_within_after :
  forall a k (A B : Type) (m : M W A) (f : A -> M W B),
    respects (same_calls a) m ->
    (forall x, respects (calls_within a k) (f x)) ->
    respects (calls_within a k) (bind m f).
Proof.
  intros a k A B m f Hm Hf.
  apply (calls_within_bind a 0 k); [now apply same_calls_within|exact Hf].
Qed.

Lemma calls_within_before :
  forall a n (A B : Type) (m : M W A) (f : A -> M W B),
    respects (calls_within a n) m ->
    (forall x, respects (same_calls a) (f x)) ->
    respects (calls_within a n) (bind m f).
Proof.
  intros a n A B m f Hm Hf.
  apply (calls_within_more a (n + 0)); [lia|].
  apply calls_within_bind; [exact Hm|]. intros x. now apply same_calls_within.
Qed.

Ltac free_step := repeat respects_step calls_prim.

Lemma two_stage_search_budget :
  respects (calls_within loop_agent
              (List.length position_titles + List.length (tl position_titles)))
           two_stage_search'.
Proof.
  unfold two_stage_search.
  apply calls_within_bind; [apply stage_loops_budget|intros _].
  apply calls_within_after; [free_step|intros s].
  apply calls_within_after; [free_step|intros unique_profiles].
  apply calls_within_after; [free_step|intros _].
  apply calls_within_before; [|intros _; free_step].
  destruct (len unique_profiles <? desired_profile).
  - apply calls_within_after; [free_step|intros _].
    apply stage_loops_budget.
  - apply (calls_within_more loop_agent 0); [lia|].
    apply same_calls_within. free_step.
Qed.

Lemma attempt_body_search_budget :
  forall attempt,
    respects (calls_within loop_agent
                (List.length position_titles + List.length (tl position_titles)))
             (attempt_body' attempt).
Proof.
  intros attempt. unfold attempt_body, attempt_search.
  apply calls_within_before;
    [|intros u; apply filter_and_accumulate_same_search_calls].
  apply calls_within_after; [free_step|intros _].
  apply calls_within_after; [free_step|intros _].
  apply calls_within_before; [apply two_stage_search_budget|intros u; free_step].
Qed.

Lemma filter_and_merge_asks :
  forall unique_profiles s,
    asked_for_the_rest desired_profile s (fst (filter_and_merge' unique_profiles s)).
Proof.
  intros unique_profiles s. unfold asked_for_the_rest.
  rewrite filter_and_merge_run.
  destruct (dumps json_dumps unique_profiles) as [filter_input|e]; [|now left].
  right. exists filter_input. cbv zeta.
  set (prompt := filter_prompt (desired_profile - len (accumulated_profiles s)) filter_input).
  destruct (respond (world s) filter_agent prompt) as [w' [final_output|e]];
    [|cbn [fst]; apply called_prompts].
  pose proof (parse_filter_output_same_calls filter_agent final_output
                (called s filter_agent prompt w')) as Hparse.
  destruct (parse_filter_output' final_output (called s filter_agent prompt w'))
    as [s2 parsed].
  cbn [fst] in Hparse. unfold same_calls in Hparse.
  rewrite called_prompts in Hparse.
  destruct parsed as [filtered_profiles|e]; [|exact Hparse].
  destruct (py_iter filtered_profiles) as [items|e]; [|exact Hparse].
  pose proof (merge_loop_same_calls filter_agent items [] s2) as Hmerge.
  destruct (merge_loop' items [] s2) as [s3 [new_profiles|e]];
    cbn [fst] in Hmerge; unfold same_calls in Hmerge.
  - cbn [fst]. rewrite logged_prompts. cbn [merged trace]. congruence.
  - cbn [fst]. congruence.
Qed.

Lemma filter_and_accumulate_asks :
  forall unique_profiles s,
    asked_for_the_rest desired_profile s (fst (filter_and_accumulate' unique_profiles s)).
Proof.
  intros unique_profiles s. unfold filter_and_accumulate.
  destruct (py_truthy (PList unique_profiles)).
  - match goal with
    | |- asked_for_the_rest _ _ (fst (bind ?m ?f s)) =>
        assert (Htail : same_calls filter_agent (fst (m s)) (fst (bind m f s)))
    end.
    { apply bind_tail; [typeclasses eauto|intros info].
      repeat respects_step calls_prim. }
    unfold asked_for_the_rest, same_calls in *. rewrite Htail.
    apply filter_and_merge_asks.
  - left. match goal with |- prompts_to _ (trace (fst (?m s))) = _ =>
                            assert (H : respects (same_calls filter_agent) m)
                              by (repeat respects_step calls_prim)
          end.
    apply H.
Qed.

Lemma attempt_body_asks :
  forall attempt s,
    asked_for_the_rest desired_profile s (fst (attempt_body' attempt s)).
Proof.
  intros attempt s. unfold attempt_body, bind.
  pose proof (attempt_search_same_filter_calls attempt s) as Hcalls.
  pose proof (attempt_search_same_accumulator W respond json_loads position_titles
                company desired_profile max_retries attempt s) as [Hacc _].
  destruct (attempt_search' attempt s) as [s1 [unique_profiles|e]];
    cbn [fst] in *; [|now left].
  pose proof (filter_and_accumulate_asks unique_profiles s1) as Hasks.
  unfold asked_for_the_rest, same_calls in *. now rewrite Hcalls, Hacc in Hasks.
Qed.

Lemma attempt_body_filter_budget :
  forall attempt, respects (calls_within filter_agent 1) (attempt_body' attempt).
Proof.
  intros attempt s. unfold calls_within.
  destruct (attempt_body_asks attempt s) as [->|(filter_input & ->)].
  - lia.
  - rewrite length_app. cbn [List.length]. lia.
Qed.

Lemma retry_loop_budget :
  forall a c,
    (forall attempt, respects (calls_within a c) (attempt_body' attempt)) ->
    forall remaining attempt,
      respects (calls_within a (remaining * c)) (retry_loop' remaining attempt).
Proof.
  intros a c Hbody remaining.
  induction remaining as [|remaining IH]; intros attempt; cbn [retry_loop Nat.mul].
  - apply same_calls_within. unfold return_best_found.
    repeat respects_step calls_prim.
  - apply calls_within_bind; [apply Hbody|].
    intros [profiles|]; [|apply IH].
    apply (calls_within_more a 0); [lia|].
    apply same_calls_within, respects_ret. typeclasses eauto.
Qed.

(** X10.  A run of [improved_search] has a budget of calls, whatever
    the agents answer and however the run ends: the filter agent is
    called at most once per attempt, [max_retries + 1] times in all, and
    the loop agent at most once per title in the web-wide stage and once
    per title but the first in the LinkedIn stage of each attempt. *)
Theorem improved_search_call_budget :
  forall w,
    let tr := trace (fst (improved_search' w)) in
    (List.length (prompts_to filter_agent tr) <= Z.to_nat (max_retries + 1))%nat
    /\ (List.length (prompts_to loop_agent tr)
        <= Z.to_nat (max_retries + 1)
           * (List.length position_titles + List.length (tl position_titles)))%nat.
Proof.
  intros w. cbv zeta. unfold improved_search. split.
  - pose proof (retry_loop_budget filter_agent 1 attempt_body_filter_budget
                  (Z.to_nat (max_retries + 1)) 0 (initial_state w)) as H.
    unfold calls_within in H. cbn [initial_state trace prompts_to flat_map List.length] in H.
    lia.
  - pose proof (retry_loop_budget loop_agent _ attempt_body_search_budget
                  (Z.to_nat (max_retries + 1)) 0 (initial_state w)) as H.
    unfold calls_within in H. cbn [initial_state trace prompts_to flat_map List.length] in H.
    lia.
Qed.

(** *** What the filter agent is asked for *)

Lemma retry_loop_asks :
  forall remaining attempt s,
    len (accumulated_profiles s) < desired_profile ->
    Forall (asks_between 1 desired_profile) (prompts_to filter_agent (trace s)) ->
    Forall (asks_between 1 desired_profile)
           (prompts_to filter_agent (trace (fst (retry_loop' remaining attempt s)))).
Proof.
  induction remaining as [|remaining IH]; intros attempt s Hlen Hs; cbn [retry_loop].
  - rewrite return_best_found_run. cbn [fst]. now rewrite logged_prompts.
  - unfold bind.
    pose proof (attempt_body_asks attempt s) as Hasks.
    pose proof (attempt_body_outcome W respond json_loads json_dumps position_titles
                  company desired_profile max_retries attempt s) as Hout.
    destruct (attempt_body' attempt s) as [s1 [outcome|e]]; cbn [fst] in Hasks.
    + assert (Hs1 : Forall (asks_between 1 desired_profile)
                           (prompts_to filter_agent (trace s1))).
      { destruct Hasks as [->|(filter_input & ->)]; [exact Hs|].
        apply Forall_app. split; [exact Hs|]. constructor; [|constructor].
        exists (desired_profile - len (accumulated_profiles s)), filter_input.
        split; [|reflexivity]. unfold len in *. lia. }
      destruct outcome as [profiles|]; [exact Hs1|].
      apply IH; [|exact Hs1].
      specialize (Hout s1 None eq_refl). cbn in Hout.
      destruct Hout as [Hout|Hout]; [exact Hout|now rewrite Hout].
    + cbn [fst].
      destruct Hasks as [->|(filter_input & ->)]; [exact Hs|].
      apply Forall_app. split; [exact Hs|]. constructor; [|constructor].
      exists (desired_profile - len (accumulated_profiles s)), filter_input.
      split; [|reflexivity]. unfold len in *. lia.
Qed.

(** X11.  When at least one profile is desired, every prompt the filter
    agent receives asks it for a number of profiles between 1 and
    [desired_profile]: the filter is never asked for nothing, nor for
    more than is wanted, however many attempts are made. *)
Theorem filter_is_asked_for_what_is_missing :
  1 <= desired_profile ->
  forall w,
    Forall (asks_between 1 desired_profile)
           (prompts_to filter_agent (trace (fst (improved_search' w)))).
Proof.
  intros Hd w. unfold improved_search.
  apply retry_loop_asks; [cbn; lia|constructor].
Qed.

(** *** Which searches are made *)

Lemma same_calls_only_searches :
  forall (A : Type) (m : M W A),
    respects (same_calls loop_agent) m -> respects (only_searches allowed) m.
Proof.
  intros A m Hm s. exists []. split; [|intros x []].
  rewrite app_nil_r. apply Hm.
Qed.

Lemma two_stage_search_only_searches :
  respects (only_searches allowed) two_stage_search'.
Proof.
  assert (Hweb : respects (only_searches allowed) (for_titles stage2_body' position_titles)).
  { intros s.
    destruct (for_titles_prompts W
                stage2_body' (web_query company)
                (stage2_body_prompts W respond json_loads company desired_profile)
                position_titles s) as (k & Hk & Hprompts).
    eexists. split; [exact Hprompts|].
    intros prompt Hin. apply in_map_iff in Hin as (title & <- & Hin).
    apply in_or_app. left. apply in_map_iff. exists title.
    split; [reflexivity|]. eapply In_firstn, Hin. }
  assert (Hlinkedin :
            respects (only_searches allowed) (for_titles stage1_body' (tl position_titles))).
  { intros s.
    destruct (for_titles_prompts W
                stage1_body' (linkedin_query company)
                (stage1_body_prompts W respond json_loads company desired_profile)
                (tl position_titles) s) as (k & Hk & Hprompts).
    eexists. split; [exact Hprompts|].
    intros prompt Hin. apply in_map_iff in Hin as (title & <- & Hin).
    apply in_or_app. right. apply in_map_iff. exists title.
    split; [reflexivity|]. eapply In_firstn, Hin. }
  unfold two_stage_search.
  apply respects_bind; [typeclasses eauto|exact Hweb|intros _].
  apply respects_bind; [typeclasses eauto|apply respects_get_state; typeclasses eauto|intros s].
  apply respects_bind; [typeclasses eauto|apply respects_lift; typeclasses eauto|intros u].
  apply respects_bind;
    [typeclasses eauto|apply same_calls_only_searches, log_same_calls|intros _].
  apply respects_bind; [typeclasses eauto| |intros _].
  - destruct (len u <? desired_profile).
    + apply respects_bind;
        [typeclasses eauto|apply same_calls_only_searches, log_same_calls|intros _].
      exact Hlinkedin.
    + apply respects_ret. typeclasses eauto.
  - apply respects_bind;
      [typeclasses eauto|apply respects_get_state; typeclasses eauto|intros s'].
    apply respects_lift. typeclasses eauto.
Qed.

Lemma attempt_body_only_searches :
  forall attempt, respects (only_searches allowed) (attempt_body' attempt).
Proof.
  intros attempt. unfold attempt_body, attempt_search.
  apply respects_bind; [typeclasses eauto| |intros u].
  - apply respects_bind;
      [typeclasses eauto
      |apply same_calls_only_searches, set_all_profiles_same_calls|intros _].
    apply respects_bind;
      [typeclasses eauto|apply same_calls_only_searches, log_same_calls|intros _].
    apply respects_bind;
      [typeclasses eauto|apply two_stage_search_only_searches|intros u].
    apply respects_bind;
      [typeclasses eauto|apply same_calls_only_searches, log_same_calls|intros _].
    apply respects_ret. typeclasses eauto.
  - apply same_calls_only_searches, filter_and_accumulate_same_search_calls.
Qed.

Lemma retry_loop_only_searches :
  forall remaining attempt,
    respects (only_searches allowed) (retry_loop' remaining attempt).
Proof.
  induction remaining as [|remaining IH]; intros attempt; cbn [retry_loop].
  - apply same_calls_only_searches. unfold return_best_found.
    repeat respects_step calls_prim.
  - apply respects_bind; [typeclasses eauto|apply attempt_body_only_searches|].
    intros [profiles|]; [apply respects_ret; typeclasses eauto|apply IH].
Qed.

(** X12.  The loop agent is only ever asked the searches of the
    titles it was given: the web-wide query of a title, or the LinkedIn
    query of a title other than the first of the list.  With an empty
    list of titles no search is made at all. *)
Theorem improved_search_searches_only_for_the_titles :
  forall w,
    Forall (fun prompt => In prompt (search_prompts_of position_titles company))
           (prompts_to loop_agent (trace (fst (improved_search' w)))).
Proof.
  intros w. unfold improved_search.
  destruct (retry_loop_only_searches (Z.to_nat (max_retries + 1)) 0 (initial_state w))
    as (extra & -> & Hextra).
  cbn [initial_state trace prompts_to flat_map app].
  apply Forall_forall. exact Hextra.
Qed.

(** *** Where the returned profiles come from *)

Lemma merge_loop_items :
  forall items new_profiles s s' out,
    merge_loop' items new_profiles s = (s', Ok out) ->
    exists added, out = new_profiles ++ added /\ incl added items.
Proof.
  induction items as [|p rest IH]; intros new_profiles s s' out Hrun.
  - injection Hrun as _ <-. exists []. split; [now rewrite app_nil_r|intros x []].
  - rewrite merge_loop_cons in Hrun.
    destruct (py_get p "url") as [url|e]; [|discriminate].
    destruct (py_truthy url).
    + destruct (set_contains (accumulated_urls s) url) as [known|e]; [|discriminate].
      destruct (negb known).
      * apply IH in Hrun as (added & -> & Hincl).
        exists (p :: added). rewrite <- app_assoc. split; [reflexivity|].
        intros x [<-|Hx]; [now left|right; now apply Hincl].
      * apply IH in Hrun as (added & -> & Hincl).
        exists added. split; [reflexivity|]. intros x Hx. right. now apply Hincl.
    + apply IH in Hrun as (added & -> & Hincl).
      exists added. split; [reflexivity|]. intros x Hx. right. now apply Hincl.
Qed.

Lemma same_accumulator_keeps_filter_items :
  forall (A : Type) (m : M W A),
    respects same_accumulator m -> respects (keeps_filter_items respond json_loads) m.
Proof.
  intros A m Hm s Hs. destruct (Hm s) as [-> _]. exact Hs.
Qed.

Lemma filter_and_merge_keeps_filter_items :
  forall unique_profiles,
    respects (keeps_filter_items respond json_loads) (filter_and_merge' unique_profiles).
Proof.
  intros unique_profiles s Hs. rewrite filter_and_merge_run.
  destruct (dumps json_dumps unique_profiles) as [filter_input|e]; [|exact Hs].
  cbv zeta.
  set (prompt := filter_prompt (desired_profile - len (accumulated_profiles s)) filter_input).
  destruct (respond (world s) filter_agent prompt) as [w' [final_output|e]] eqn:Hrespond;
    [|exact Hs].
  destruct (parse_filter_output_decoded W json_loads final_output
              (called s filter_agent prompt w')) as (s2 & -> & [Hacc2 _] & _).
  cbn [accumulated_profiles called] in Hacc2.
  destruct (py_iter (decoded json_loads final_output)) as [items|e] eqn:Hiter;
    [|cbn [fst]; now rewrite Hacc2].
  pose proof (merge_loop_grows W items [] s2) as [Hacc3 _].
  destruct (merge_loop' items [] s2) as [s3 [new_profiles|e]] eqn:Hmerge;
    cbn [fst] in *; [|now rewrite Hacc3, Hacc2].
  cbn [logged log emit fst merged accumulated_profiles].
  apply Forall_app. split; [now rewrite Hacc3, Hacc2|].
  apply merge_loop_items in Hmerge as (added & -> & Hincl). cbn [app].
  apply Forall_forall. intros p Hp.
  exists (world s), prompt, final_output, items.
  rewrite Hrespond. split; [reflexivity|]. split; [exact Hiter|now apply Hincl].
Qed.

Ltac items_prim :=
  first
    [ apply filter_and_merge_keeps_filter_items
    | apply same_accumulator_keeps_filter_items;
      first [ apply attempt_search_same_accumulator
            | apply emit_same_accumulator
            | apply Runner_run_same_accumulator
            | apply set_all_profiles_same_accumulator ] ].

Lemma attempt_body_keeps_filter_items :
  forall attempt,
    respects (keeps_filter_items respond json_loads) (attempt_body' attempt).
Proof.
  intros attempt. unfold attempt_body, filter_and_accumulate, log.
  apply respects_bind; [typeclasses eauto|items_prim|intros u].
  destruct (py_truthy (PList u)); [|repeat respects_step items_prim].
  apply respects_bind;
    [typeclasses eauto|apply filter_and_merge_keeps_filter_items|intros info].
  repeat respects_step items_prim.
Qed.

Lemma retry_loop_keeps_filter_items :
  forall remaining attempt,
    respects (keeps_filter_items respond json_loads) (retry_loop' remaining attempt).
Proof.
  induction remaining as [|remaining IH]; intros attempt; cbn [retry_loop].
  - unfold return_best_found, log. repeat respects_step items_prim.
  - apply respects_bind; [typeclasses eauto|apply attempt_body_keeps_filter_items|].
    intros [profiles|]; [apply respects_ret; typeclasses eauto|apply IH].
Qed.

(** X13.  Every profile [improved_search] returns was an item of an
    answer of the filter agent: what the searches find reaches the
    caller only through the filter, never directly. *)
Theorem returned_profiles_come_from_the_filter :
  forall w l,
    snd (improved_search' w) = Ok l ->
    Forall (filter_item respond json_loads) l.
Proof.
  intros w l Hrun. unfold improved_search in Hrun.
  pose proof (retry_loop_keeps_filter_items (Z.to_nat (max_retries + 1)) 0
                (initial_state w)) as Hitems.
  assert (Hstart : accumulator_ok (initial_state w)).
  { split; [constructor|]. split; [constructor|]. intros url. reflexivity. }
  destruct (retry_loop' (Z.to_nat (max_retries + 1)) 0 (initial_state w))
    as [s' r] eqn:Hloop.
  cbn [snd fst] in *. subst r.
  destruct (retry_loop_ok W respond json_loads json_dumps position_titles company
              desired_profile max_retries _ _ _ _ _ Hstart Hloop) as (_ & k & ->).
  specialize (Hitems (Forall_nil _)).
  apply Forall_forall. intros p Hp. apply In_firstn in Hp.
  revert p Hp. now apply Forall_forall.
Qed.

(** *** When a short list is returned *)

Lemma slice_to_exact :
  forall (A : Type) (l : list A) (n : Z),
    0 <= n -> n <= len l -> len (slice_to l n) = n.
Proof.
  intros A l n Hn Hlen. unfold slice_to, len in *.
  destruct (Z.leb_spec 0 n); [|lia].
  rewrite length_firstn. lia.
Qed.

Lemma retry_loop_short :
  forall remaining attempt s s' l,
    0 <= desired_profile ->
    len (accumulated_profiles s) <= desired_profile ->
    retry_loop' remaining attempt s = (s', Ok l) ->
    len l = desired_profile
    \/ (len l < desired_profile
        /\ attempts_started (trace s') = (attempts_started (trace s) + remaining)%nat).
Proof.
  induction remaining as [|remaining IH]; intros attempt s s' l Hd Hlen Hrun;
    cbn [retry_loop] in Hrun.
  - rewrite return_best_found_run in Hrun. injection Hrun as <- <-.
    destruct (Z.eq_dec (len (accumulated_profiles s)) desired_profile) as [Heq|Hne];
      [now left|right].
    split; [lia|].
    unfold logged, log, emit. cbn [fst trace].
    rewrite attempts_started_snoc. cbn. lia.
  - unfold bind in Hrun.
    pose proof (attempt_body_outcome W respond json_loads json_dumps position_titles
                  company desired_profile max_retries attempt s) as Hout.
    pose proof (attempt_body_attempts W respond json_loads json_dumps position_titles
                  company desired_profile max_retries attempt s) as Hatt.
    destruct (attempt_body' attempt s) as [s1 [outcome|e]]; [|discriminate].
    specialize (Hout s1 outcome eq_refl). cbn [fst] in Hatt.
    destruct outcome as [profiles|].
    + injection Hrun as <- <-. destruct Hout as [-> Hreached].
      left. now apply slice_to_exact.
    + assert (Hlen1 : len (accumulated_profiles s1) <= desired_profile).
      { destruct Hout as [Hout|Hout]; [lia|now rewrite Hout]. }
      destruct (IH _ _ _ _ Hd Hlen1 Hrun) as [Heq|[Hlt Hcount]]; [now left|right].
      split; [exact Hlt|]. rewrite Hcount, Hatt. lia.
Qed.

(** X14.  [improved_search] never gives up early: a list shorter than
    the desired count is only returned once every one of the
    [max_retries + 1] attempts has been made; any list returned before
    that holds exactly [desired_profile] profiles. *)
Theorem short_list_only_after_every_attempt :
  0 <= desired_profile ->
  forall w l,
    snd (improved_search' w) = Ok l ->
    len l = desired_profile
    \/ (len l < desired_profile
        /\ attempts_started (trace (fst (improved_search' w)))
           = Z.to_nat (max_retries + 1)).
Proof.
  intros Hd w l Hrun. unfold improved_search in *.
  destruct (retry_loop' (Z.to_nat (max_retries + 1)) 0 (initial_state w))
    as [s' r] eqn:Hloop.
  cbn [snd fst] in *. subst r.
  assert (Hstart : len (accumulated_profiles (initial_state w)) <= desired_profile)
    by (cbn; lia).
  destruct (retry_loop_short _ _ _ _ _ Hd Hstart Hloop) as [Heq|[Hlt Hcount]];
    [now left|right].
  split; [exact Hlt|]. now rewrite Hcount.
Qed.

End WorkflowMore.

(** ** The title parser *)

Lemma append_assoc :
  forall s1 s2 s3 : string, ((s1 ++ s2) ++ s3 = s1 ++ (s2 ++ s3))%string.
Proof.
  induction s1 as [|c s1 IH]; intros s2 s3; cbn [append]; [reflexivity|].
  now rewrite IH.
Qed.

Lemma from_open_bracket_spec :
  forall s rest,
    from_open_bracket s = Some rest
    <-> exists pre, s = (pre ++ String "["%char rest)%string
                    /\ occurs "["%char pre = false.
Proof.
  induction s as [|c s IH]; intros rest; cbn [from_open_bracket].
  - split; [discriminate|]. intros ([|c pre] & Hs & _); discriminate.
  - destruct (Ascii.eqb_spec c "["%char) as [->|Hc].
    + split.
      * intros [= ->]. now exists EmptyString.
      * intros ([|c pre] & Hs & Hpre).
        -- now injection Hs as ->.
        -- injection Hs as <- _. cbn [occurs] in Hpre.
           now rewrite Ascii.eqb_refl in Hpre.
    + rewrite IH. split.
      * intros (pre & -> & Hpre). exists (String c pre). split; [reflexivity|].
        cbn [occurs]. rewrite Hpre.
        destruct (Ascii.eqb_spec c "["%char); [contradiction|reflexivity].
      * intros ([|c' pre] & Hs & Hpre).
        -- injection Hs as -> _. contradiction.
        -- injection Hs as <- ->. exists pre. split; [reflexivity|].
           cbn [occurs] in Hpre. now apply orb_false_iff in Hpre as [_ Hpre].
Qed.

Lemma upto_close_bracket_none :
  forall s, upto_close_bracket s = None <-> occurs "]"%char s = false.
Proof.
  induction s as [|c s IH]; cbn [upto_close_bracket occurs]; [now split|].
  destruct (upto_close_bracket s) as [m|].
  - split; [discriminate|]. intros H. apply orb_false_iff in H as [_ H].
    now apply IH in H.
  - destruct IH as [IH _]. rewrite (IH eq_refl), orb_false_r.
    destruct (Ascii.eqb c "]"%char); now split.
Qed.

Lemma upto_close_bracket_spec :
  forall s m,
    upto_close_bracket s = Some m
    <-> exists body post,
        s = (body ++ String "]"%char post)%string
        /\ m = (body ++ "]")%string
        /\ occurs "]"%char post = false.
Proof.
  induction s as [|c s IH]; intros m; cbn [upto_close_bracket].
  - split; [discriminate|]. intros ([|c body] & post & Hs & _); discriminate.
  - destruct (upto_close_bracket s) as [m'|] eqn:Hs.
    + split.
      * intros [= <-]. destruct (proj1 (IH m') eq_refl) as (body & post & -> & -> & Hpost).
        exists (String c body), post. auto.
      * intros ([|c' body] & post & Hsplit & -> & Hpost).
        -- injection Hsplit as _ ->. apply upto_close_bracket_none in Hpost. congruence.
        -- injection Hsplit as <- ->. f_equal. cbn [append]. f_equal.
           assert (H : Some m' = Some (body ++ "]")%string)
             by (apply IH; now exists body, post).
           now injection H.
    + apply upto_close_bracket_none in Hs. split.
      * destruct (Ascii.eqb_spec c "]"%char) as [->|Hc]; [|discriminate].
        intros [= <-]. now exists EmptyString, s.
      * intros ([|c' body] & post & Hsplit & -> & Hpost).
        -- injection Hsplit as -> _. now rewrite Ascii.eqb_refl.
        -- injection Hsplit as _ ->. exfalso. clear - Hs.
           induction body as [|c body IH]; cbn [append occurs] in Hs.
           ++ now rewrite Ascii.eqb_refl in Hs.
           ++ apply orb_false_iff in Hs as [_ Hs]. now apply IH.
Qed.

(** X15.  The text [parse_position_titles] hands to [json.loads] runs
    from the first opening bracket of the output to its last closing
    bracket: it is found exactly when a closing bracket follows the
    first opening one, and it takes in everything between the two,
    further arrays and prose included. *)
Theorem json_match_spans_first_to_last_bracket :
  forall s m,
    json_match s = Some m
    <-> exists pre body post,
        s = (pre ++ "[" ++ body ++ "]" ++ post)%string
        /\ m = ("[" ++ body ++ "]")%string
        /\ occurs "["%char pre = false
        /\ occurs "]"%char post = false.
Proof.
  intros s m. unfold json_match. split.
  - destruct (from_open_bracket s) as [rest|] eqn:Hopen; [|discriminate].
    destruct (upto_close_bracket rest) as [m'|] eqn:Hclose; [|discriminate].
    intros [= <-].
    apply from_open_bracket_spec in Hopen as (pre & -> & Hpre).
    apply upto_close_bracket_spec in Hclose as (body & post & -> & -> & Hpost).
    now exists pre, body, post.
  - intros (pre & body & post & -> & -> & Hpre & Hpost).
    assert (Hopen : from_open_bracket (pre ++ "[" ++ body ++ "]" ++ post)
                    = Some (body ++ "]" ++ post)%string).
    { apply from_open_bracket_spec. now exists pre. }
    rewrite Hopen.
    assert (Hclose : upto_close_bracket (body ++ "]" ++ post) = Some (body ++ "]")%string).
    { apply upto_close_bracket_spec. now exists body, post. }
    now rewrite Hclose.
Qed.

Section TitleParserFacts.

Variable json_loads : string -> option pyval.

(** X16.  When the bracketed part of the output is not valid JSON, the
    whole output (not its bracketed part, nor its lines) becomes the one
    and only title. *)
Theorem undecodable_array_makes_the_output_the_title :
  forall s m,
    json_match s = Some m ->
    json_loads m = None ->
    parse_position_titles json_loads (PStr s) = PList [PStr s].
Proof.
  intros s m Hmatch Hloads. unfold parse_position_titles.
  rewrite Hmatch, Hloads.
  destruct s as [|c s]; [discriminate Hmatch|reflexivity].
Qed.



Lemma title_of_line_short :
  forall line,
    (String.length (strip line) <= 3)%nat -> title_of_line line = [].
Proof.
  intros line Hshort. unfold title_of_line.
  destruct (Nat.ltb_spec 3 (String.length (strip line))); [lia|].
  now rewrite andb_false_r.
Qed.

Lemma subseq_refl : forall (A : Type) (l : list A), subseq l l.
Proof. induction l; now constructor. Qed.


(** X18.  Short titles are lost: when an ASCII output has no bracketed
    part and none of its lines is longer than three characters once
    stripped (CTO, CIO, ...), no title is read and [main] goes on with
    its own eight fallback titles. *)
Theorem short_lines_give_the_fallback_titles :
  forall s,
    ascii_text s = true ->
    json_match s = None ->
    Forall (fun line => (String.length (strip line) <= 3)%nat) (split_lines s) ->
    parse_position_titles json_loads (PStr s) = PList []
    /\ titles_for_search json_loads (PStr s) = Ok (PList fallback_titles).
Proof.
  intros s _ Hmatch Hshort.
  assert (Hparse : parse_position_titles json_loads (PStr s) = PList []).
  { unfold parse_position_titles. rewrite Hmatch. f_equal.
    induction Hshort as [|line lines Hline _ IH]; [reflexivity|].
    cbn [flat_map]. now rewrite (title_of_line_short line Hline), IH. }
  split; [exact Hparse|].
  unfold titles_for_search. now rewrite Hparse.
Qed.

Lemma split_lines_nonempty : forall s, split_lines s <> [].
Proof.
  induction s as [|c s IH]; cbn [split_lines]; [discriminate|].
  destruct (Ascii.eqb c newline); [discriminate|].
  destruct (split_lines s); discriminate.
Qed.







End TitleParserFacts.

(** ** The job store of the service *)

Section ApiFacts.

Import Api.

Variable json_loads : string -> loaded.
Variable accepts_profile : pyval -> bool.

Lemma lookup_assign_same :
  forall job_status request_id j, lookup (assign job_status request_id j) request_id = Some j.
Proof.
  induction job_status as [|[k j0] rest IH]; intros request_id j; cbn [assign lookup].
  - now rewrite String.eqb_refl.
  - destruct (String.eqb k request_id) eqn:Hk; cbn [lookup]; rewrite Hk; [reflexivity|apply IH].
Qed.

Lemma lookup_assign_other :
  forall job_status request_id other j,
    other <> request_id ->
    lookup (assign job_status request_id j) other = lookup job_status other.
Proof.
  induction job_status as [|[k j0] rest IH]; intros request_id other j Hother;
    cbn [assign lookup].
  - destruct (String.eqb_spec request_id other); [congruence|reflexivity].
  - destruct (String.eqb_spec k request_id) as [->|Hk]; cbn [lookup].
    + destruct (String.eqb_spec request_id other); [congruence|reflexivity].
    + destruct (String.eqb k other); [reflexivity|now apply IH].
Qed.

Lemma keys_assign_present :
  forall job_status request_id j j0,
    lookup job_status request_id = Some j0 ->
    map fst (assign job_status request_id j) = map fst job_status.
Proof.
  induction job_status as [|[k j1] rest IH]; intros request_id j j0 Hj0;
    cbn [assign lookup map fst] in *; [discriminate|].
  destruct (String.eqb k request_id); cbn [map fst]; [reflexivity|].
  f_equal. now apply IH with j0.
Qed.

Lemma keys_assign_absent :
  forall job_status request_id j,
    lookup job_status request_id = None ->
    assign job_status request_id j = job_status ++ [(request_id, j)].
Proof.
  induction job_status as [|[k j1] rest IH]; intros request_id j Hnone;
    cbn [assign lookup app] in *; [reflexivity|].
  destruct (String.eqb k request_id); [discriminate|].
  f_equal. now apply IH.
Qed.

Lemma lookup_none_iff :
  forall job_status request_id,
    lookup job_status request_id = None <-> ~ In request_id (map fst job_status).
Proof.
  induction job_status as [|[k j] rest IH]; intros request_id; cbn [lookup map fst In].
  - split; [intros _ []|reflexivity].
  - destruct (String.eqb_spec k request_id) as [->|Hk].
    + split; [discriminate|]. intros H. exfalso. apply H. now left.
    + rewrite IH. split; [intros H [Heq|Hin]; [contradiction|now apply H]|].
      intros H Hin. apply H. now right.
Qed.

Lemma lookup_remove_other :
  forall job_status request_id other,
    other <> request_id ->
    lookup (remove job_status request_id) other = lookup job_status other.
Proof.
  induction job_status as [|[k j] rest IH]; intros request_id other Hother;
    cbn [remove lookup]; [reflexivity|].
  destruct (String.eqb_spec k request_id) as [->|Hk]; cbn [lookup].
  - destruct (String.eqb_spec request_id other); [congruence|reflexivity].
  - destruct (String.eqb k other); [reflexivity|now apply IH].
Qed.

Lemma keys_remove :
  forall job_status request_id k,
    In k (map fst (remove job_status request_id)) -> In k (map fst job_status).
Proof.
  induction job_status as [|[k0 j] rest IH]; intros request_id k; cbn [remove map fst];
    [tauto|].
  destruct (String.eqb k0 request_id); cbn [map fst In]; [tauto|].
  intros [Hk|Hk]; [now left|right; eapply IH, Hk].
Qed.

Lemma lookup_remove_same :
  forall job_status request_id,
    well_formed job_status ->
    lookup (remove job_status request_id) request_id = None.
Proof.
  unfold well_formed.
  induction job_status as [|[k j] rest IH]; intros request_id Hwf; cbn [remove lookup];
    [reflexivity|].
  cbn [map fst] in Hwf. inversion Hwf as [|? ? Hk Hrest]; subst.
  destruct (String.eqb_spec k request_id) as [->|Hne].
  - now apply lookup_none_iff.
  - cbn [lookup]. destruct (String.eqb_spec k request_id); [contradiction|now apply IH].
Qed.

Lemma well_formed_assign :
  forall job_status request_id j,
    well_formed job_status -> well_formed (assign job_status request_id j).
Proof.
  intros job_status request_id j Hwf. unfold well_formed in *.
  destruct (lookup job_status request_id) as [j0|] eqn:Hj0.
  - now rewrite (keys_assign_present _ _ j _ Hj0).
  - rewrite (keys_assign_absent _ _ j Hj0), map_app. cbn [map fst].
    apply NoDup_app; [exact Hwf|repeat constructor; intros []|].
    intros k Hk [<-|[]]. now apply lookup_none_iff in Hj0.
Qed.

Lemma well_formed_remove :
  forall job_status request_id,
    well_formed job_status -> well_formed (remove job_status request_id).
Proof.
  unfold well_formed.
  induction job_status as [|[k j] rest IH]; intros request_id Hwf; cbn [remove];
    [constructor|].
  cbn [map fst] in Hwf. inversion Hwf as [|? ? Hk Hrest]; subst.
  destruct (String.eqb k request_id); [exact Hrest|].
  cbn [map fst]. constructor; [|now apply IH].
  intros Hin. apply Hk. eapply keys_remove, Hin.
Qed.

Lemma length_remove :
  forall job_status request_id j,
    lookup job_status request_id = Some j ->
    len (remove job_status request_id) = len job_status - 1.
Proof.
  unfold len.
  induction job_status as [|[k j0] rest IH]; intros request_id j Hj;
    cbn [lookup remove] in *; [discriminate|].
  destruct (String.eqb k request_id).
  - cbn [List.length]. lia.
  - cbn [List.length]. rewrite Nat2Z.inj_succ, (IH _ _ Hj).
    destruct rest; [discriminate|cbn [List.length]; lia].
Qed.

Lemma dicts_of_mappings :
  forall items, forallb is_dict (dicts_of items) = true.
Proof.
  intros items. unfold dicts_of.
  induction items as [|x items IH]; [reflexivity|].
  cbn [flat_map]. rewrite forallb_app, IH, andb_true_r.
  destruct x as [fp|v]; [reflexivity|]. now destruct v.
Qed.

Lemma profile_dicts_mappings :
  forall r dicts,
    profile_dicts json_loads r = inl dicts -> forallb is_dict dicts = true.
Proof.
  intros r dicts. unfold profile_dicts.
  destruct r as [v|l].
  - destruct v; try (intros [= <-]; first [reflexivity|apply dicts_of_mappings]).
    destruct (json_loads (strip_fence s)) as [v| |text]; [|now intros [= <-]|discriminate].
    destruct v; intros [= <-]; first [reflexivity|apply dicts_of_mappings].
  - intros [= <-]. apply dicts_of_mappings.
Qed.

Lemma valid_profiles_of_mappings :
  forall l,
    forallb is_dict l = true ->
    valid_profiles json_loads (PList l) = Done (map four_keys l).
Proof.
  intros l Hl. unfold valid_profiles.
  destruct l as [|p l]; [reflexivity|]. cbn [py_truthy]. f_equal.
  revert Hl. generalize (p :: l). clear p l.
  induction l as [|p l IH]; intros Hl; [reflexivity|].
  cbn [forallb] in Hl. apply andb_true_iff in Hl as [Hp Hl].
  cbn [flat_map map]. rewrite (IH Hl).
  destruct p; try discriminate Hp. reflexivity.
Qed.


(** X21.  A workflow that failed is reported as a completed search: when
    [main] returns [None] (its handler caught an exception) or an empty
    list, the task ends normally, writes no file, and the status
    endpoint then answers completed, with the message of success and no
    profile. *)
Theorem workflow_failure_is_reported_as_completed :
  forall (W : Type) (respond : W -> agent -> string -> W * except pyval)
         (workflow_loads : string -> option pyval) (json_dumps : pyval -> string)
         (generate_titles : W -> W * except (list string))
         (company : string) (desired_profile : Z) (w : W)
         (file_now now request_id : string) (job_status : store) (j : job),
    let final_profiles :=
      main respond workflow_loads json_dumps generate_titles company desired_profile w in
    final_profiles = None \/ final_profiles = Some [] ->
    lookup job_status request_id = Some j ->
    let run :=
      finish_processing json_loads (main_returned final_profiles) file_now now
                        request_id company job_status in
    snd run = Done tt
    /\ snd (fst run) = []
    /\ get_search_status json_loads accepts_profile request_id (fst (fst run))
       = Done (SearchStatusResponse.mk request_id "completed"
                 "Search completed successfully." [] (created_at j) (Some now)).
Proof.
  intros W respond workflow_loads json_dumps generate_titles company desired_profile w
         file_now now request_id job_status j final_profiles Hfinal Hj run.
  assert (Hrun : run = (assign job_status request_id (completed_job [] now j), [], Done tt)).
  { unfold run, finish_processing. rewrite Hj.
    destruct Hfinal as [->| ->]; reflexivity. }
  rewrite Hrun. cbn [fst snd]. split; [reflexivity|]. split; [reflexivity|].
  unfold get_search_status. rewrite lookup_assign_same. reflexivity.
Qed.

(** X22.  A job that is gone when the search comes back (it was deleted
    meanwhile, or never was in the store) is not created again: the task
    ends with the [KeyError] of its own handler, asks for no file to be
    written, and the store it leaves has no such job. *)
Theorem deleted_job_is_not_recreated :
  forall prospect_main meanwhile file_now now request_id company job_status,
    lookup (meanwhile (fst (start_processing request_id job_status))) request_id = None ->
    let run :=
      process_prospect_search json_loads prospect_main meanwhile file_now now
                              request_id company job_status in
    snd run = Failed (KeyError request_id)
    /\ snd (fst run) = []
    /\ lookup (fst (fst run)) request_id = None.
Proof.
  intros prospect_main meanwhile file_now now request_id company job_status Hgone run.
  unfold run, process_prospect_search. unfold start_processing in *.
  destruct (lookup job_status request_id) as [j|] eqn:Hj; cbn [fst snd] in *.
  - unfold finish_processing. rewrite Hgone. cbn [fst snd]. auto.
  - auto.
Qed.

Lemma reachable_invariant :
  forall job_status,
    reachable json_loads job_status ->
    well_formed job_status
    /\ forall request_id j,
        lookup job_status request_id = Some j ->
        profiles j = PNone \/ stored_list j.
Proof.
  assert (Hassign :
            forall job_status request_id j,
              (well_formed job_status
               /\ forall request_id j,
                   lookup job_status request_id = Some j ->
                   profiles j = PNone \/ stored_list j) ->
              (profiles j = PNone \/ stored_list j) ->
              well_formed (assign job_status request_id j)
              /\ forall other j',
                  lookup (assign job_status request_id j) other = Some j' ->
                  profiles j' = PNone \/ stored_list j').
  { intros job_status request_id j [Hwf Hall] Hj.
    split; [now apply well_formed_assign|].
    intros other j' Hj'.
    destruct (String.eqb_spec other request_id) as [->|Hother].
    - rewrite lookup_assign_same in Hj'. now injection Hj' as <-.
    - rewrite lookup_assign_other in Hj' by assumption. eapply Hall, Hj'. }
  intros job_status Hreach.
  induction Hreach
    as [|job_status request_id now _ IH|job_status request_id _ IH
        |job_status request_id _ IH
        |job_status prospect_main file_now now request_id company _ IH].
  - split; [constructor|]. intros request_id j [=].
  - cbn [search_prospects fst]. apply Hassign; [exact IH|now left].
  - unfold delete_search. destruct (lookup job_status request_id) as [j0|] eqn:Hj0;
      cbn [fst]; [|exact IH].
    destruct IH as [Hwf Hall]. split; [now apply well_formed_remove|].
    intros other j Hother.
    destruct (String.eqb_spec other request_id) as [->|Hne].
    + now rewrite lookup_remove_same in Hother.
    + rewrite lookup_remove_other in Hother by assumption. eapply Hall, Hother.
  - unfold start_processing.
    destruct (lookup job_status request_id) as [j|] eqn:Hj; cbn [fst]; [|exact IH].
    apply Hassign; [exact IH|]. destruct IH as [_ Hall]. exact (Hall _ _ Hj).
  - unfold finish_processing.
    destruct (lookup job_status request_id) as [j|] eqn:Hj; [|exact IH].
    destruct prospect_main as [r|text];
      [destruct (truthy r);
       [destruct (profile_dicts json_loads r) as [dicts|text] eqn:Hdicts|]|];
      cbn [fst]; (apply Hassign; [exact IH|]).
    + right. exists dicts. split; [reflexivity|exact (profile_dicts_mappings r dicts Hdicts)].
    + destruct IH as [_ Hall]. exact (Hall _ _ Hj).
    + right. exists []. split; reflexivity.
    + destruct IH as [_ Hall]. exact (Hall _ _ Hj).
Qed.

(** X23.  In every store the service can reach (from the empty one, by
    requests and background tasks in any order), what a job holds as its
    profiles is [None] or a list of mappings; so the status endpoint
    never has to parse or drop anything.  Its list holds every stored
    profile, in order, each cut down to the keys title, url, content and
    score; the answer is this list when the response model accepts each
    of its entries as a [Profile], and the [ValidationError] of the
    response model otherwise. *)
Theorem status_lists_every_stored_profile :
  forall job_status request_id j,
    reachable json_loads job_status ->
    lookup job_status request_id = Some j ->
    exists l,
      (profiles j = PNone /\ l = [] \/ profiles j = PList l /\ forallb is_dict l = true)
      /\ valid_profiles json_loads (profiles j) = Done (map four_keys l)
      /\ get_search_status json_loads accepts_profile request_id job_status
         = if forallb accepts_profile (map four_keys l)
           then Done (SearchStatusResponse.mk request_id (status j) (message j)
                        (map four_keys l) (created_at j) (completed_at j))
           else Failed ValidationError.
Proof.
  intros job_status request_id j Hreach Hj.
  destruct (reachable_invariant job_status Hreach) as [_ Hall].
  unfold get_search_status. rewrite Hj.
  destruct (Hall _ _ Hj) as [Hnone|(l & Hl & Hdicts)].
  - exists []. split; [now left|]. rewrite Hnone. split; reflexivity.
  - exists l. split; [now right|].
    rewrite Hl, (valid_profiles_of_mappings l Hdicts). split; reflexivity.
Qed.

(** X24.  Deleting a job forgets that job and nothing else: afterwards
    the status endpoint answers 404 for it and answers for every other
    job as before, the total of [list_searches] is one less, and a
    second deletion answers 404 and leaves the store as it is. *)
Theorem delete_search_forgets_one_job :
  forall job_status request_id j,
    well_formed job_status ->
    lookup job_status request_id = Some j ->
    let job_status' := fst (delete_search request_id job_status) in
    snd (delete_search request_id job_status)
    = Done ("Search request " ++ request_id ++ " deleted successfully")%string
    /\ get_search_status json_loads accepts_profile request_id job_status'
       = Failed (HTTPException 404 "Request ID not found")
    /\ (forall other,
          other <> request_id ->
          get_search_status json_loads accepts_profile other job_status'
          = get_search_status json_loads accepts_profile other job_status)
    /\ snd (list_searches job_status') = snd (list_searches job_status) - 1
    /\ delete_search request_id job_status'
       = (job_status', Failed (HTTPException 404 "Request ID not found")).
Proof.
  intros job_status request_id j Hwf Hj job_status'.
  unfold job_status', delete_search. rewrite Hj. cbn [fst snd].
  pose proof (lookup_remove_same job_status request_id Hwf) as Hgone.
  split; [reflexivity|]. split; [unfold get_search_status; now rewrite Hgone|].
  split.
  - intros other Hother. unfold get_search_status.
    now rewrite lookup_remove_other.
  - split; [now apply length_remove with j|]. now rewrite Hgone.
Qed.

(** X25.  A new search is registered at the end of the store: for a
    request id not yet in use, the status endpoint then answers
    processing, with the message of the start, no profile, the creation
    time that the response carries and no completion time; it answers
    for every other job as before, and [list_searches] lists the new job
    last and counts one more. *)
Theorem search_prospects_registers_a_job :
  forall job_status request_id now,
    lookup job_status request_id = None ->
    let job_status' := fst (search_prospects request_id now job_status) in
    ProspectResponse.created_at (snd (search_prospects request_id now job_status)) = now
    /\ get_search_status json_loads accepts_profile request_id job_status'
       = Done (SearchStatusResponse.mk request_id "processing" "Search initiated"
                 [] now None)
    /\ (forall other,
          other <> request_id ->
          get_search_status json_loads accepts_profile other job_status'
          = get_search_status json_loads accepts_profile other job_status)
    /\ fst (list_searches job_status')
       = fst (list_searches job_status) ++ [Summary.mk request_id "processing" now None]
    /\ snd (list_searches job_status') = snd (list_searches job_status) + 1.
Proof.
  intros job_status request_id now Hfresh job_status'.
  unfold job_status', search_prospects. cbn [fst snd ProspectResponse.created_at].
  rewrite lookup_assign_same. split; [reflexivity|].
  split; [unfold get_search_status; now rewrite lookup_assign_same|].
  split.
  - intros other Hother. unfold get_search_status. now rewrite lookup_assign_other.
  - rewrite (keys_assign_absent _ _ _ Hfresh). unfold list_searches. cbn [fst snd].
    rewrite map_app. split; [reflexivity|].
    unfold len. rewrite length_app. cbn [List.length]. lia.
Qed.

End ApiFacts.

(** ** Concrete inputs of the further properties *)

Lemma extract_profiles_gives_base_records_witness :
  let profiles := [base_profile (PStr "Alice, CTO") (PStr "https://example.com/alice")
                                (PStr "") (PInt 0)] in
  extract_profiles demo_loads (demo_results [alice]) = Ok profiles
  /\ Forall base_shaped profiles
  /\ deduplicate_by_url profiles <> Raise AttributeError.
Proof.
  intros profiles.
  assert (Hrun : extract_profiles demo_loads (demo_results [alice]) = Ok profiles)
    by reflexivity.
  split; [exact Hrun|].
  exact (extract_profiles_gives_base_records demo_loads (demo_results [alice]) profiles Hrun).
Defined.

Lemma extract_profiles_results_shadows_profiles_witness :
  let d := [("results", PList []); ("profiles", PList [alice])] in
  let d' := [("results", PList [])] in
  dict_get d "results" = Some (PList [])
  /\ dict_get d' "results" = Some (PList [])
  /\ extract_profiles demo_loads (PDict d) = extract_profiles demo_loads (PDict d').
Proof.
  intros d d'.
  assert (Hd : dict_get d "results" = Some (PList [])) by reflexivity.
  assert (Hd' : dict_get d' "results" = Some (PList [])) by reflexivity.
  split; [exact Hd|]. split; [exact Hd'|].
  exact (extract_profiles_results_shadows_profiles demo_loads d d' (PList []) Hd Hd').
Defined.

Lemma extract_profiles_text_as_decoded_witness :
  let text := ("```json " ++ demo_dumps (demo_results [alice]) ++ " ```")%string in
  text <> ""
  /\ demo_loads (strip_fence text) = Some (demo_results [alice])
  /\ (forall t, demo_results [alice] <> PStr t)
  /\ extract_profiles demo_loads (PStr text)
     = extract_profiles demo_loads (demo_results [alice]).
Proof.
  intros text.
  assert (Htext : text <> "") by discriminate.
  assert (Hloads : demo_loads (strip_fence text) = Some (demo_results [alice]))
    by (vm_compute; reflexivity).
  assert (Hnot_str : forall t, demo_results [alice] <> PStr t) by discriminate.
  split; [exact Htext|]. split; [exact Hloads|]. split; [exact Hnot_str|].
  exact (extract_profiles_text_as_decoded demo_loads text (demo_results [alice])
           Htext Hloads Hnot_str).
Defined.

Lemma deduplicate_by_url_extends_witness :
  deduplicate_by_url ([alice; nameless; bob] ++ [alice; carol]) = Ok [alice; bob; carol]
  /\ exists kept1 kept2,
      deduplicate_by_url [alice; nameless; bob] = Ok kept1
      /\ [alice; bob; carol] = kept1 ++ kept2
      /\ len kept1 <= len [alice; bob; carol].
Proof.
  assert (Hrun : deduplicate_by_url ([alice; nameless; bob] ++ [alice; carol])
                 = Ok [alice; bob; carol]) by reflexivity.
  split; [exact Hrun|].
  exact (deduplicate_by_url_extends [alice; nameless; bob] [alice; carol]
           [alice; bob; carol] Hrun).
Defined.

Lemma deduplicate_by_url_sound_and_complete_witness :
  let kept := [PDict [("url", PInt 1)]; PDict [("url", PStr "a")]] in
  deduplicate_by_url numbered_pool = Ok kept
  /\ subseq kept numbered_pool
  /\ Forall keyed_record kept
  /\ distinct_urls kept
  /\ (forall p, In p numbered_pool -> py_truthy (url_of p) = true ->
                exists q, In q kept /\ key_eq (url_of p) (url_of q) = true).
Proof.
  intros kept.
  assert (Hrun : deduplicate_by_url numbered_pool = Ok kept) by reflexivity.
  split; [exact Hrun|].
  exact (deduplicate_by_url_sound_and_complete numbered_pool kept Hrun).
Defined.

Lemma filter_is_asked_for_what_is_missing_witness :
  1 <= 2
  /\ Forall (asks_between 1 2)
            (prompts_to filter_agent (trace (fst (demo_run script_retry 2 2)))).
Proof.
  assert (Hd : 1 <= 2) by lia.
  split; [exact Hd|].
  exact (filter_is_asked_for_what_is_missing nat (scripted script_retry) demo_loads
           demo_dumps demo_titles "Acme" 2 2 Hd 0%nat).
Defined.

Lemma returned_profiles_come_from_the_filter_witness :
  snd (demo_run script_success 2 2) = Ok [alice; bob]
  /\ Forall (filter_item (scripted script_success) demo_loads) [alice; bob].
Proof.
  assert (Hrun : snd (demo_run script_success 2 2) = Ok [alice; bob])
    by (vm_compute; reflexivity).
  split; [exact Hrun|].
  exact (returned_profiles_come_from_the_filter nat (scripted script_success) demo_loads
           demo_dumps demo_titles "Acme" 2 2 0%nat [alice; bob] Hrun).
Defined.

Lemma short_list_only_after_every_attempt_witness :
  0 <= 2
  /\ snd (demo_run script_retry 2 2) = Ok [alice; bob]
  /\ (len [alice; bob] = 2
      \/ (len [alice; bob] < 2
          /\ attempts_started (trace (fst (demo_run script_retry 2 2)))
             = Z.to_nat (2 + 1))).
Proof.
  assert (Hd : 0 <= 2) by lia.
  assert (Hrun : snd (demo_run script_retry 2 2) = Ok [alice; bob])
    by (vm_compute; reflexivity).
  split; [exact Hd|]. split; [exact Hrun|].
  exact (short_list_only_after_every_attempt nat (scripted script_retry) demo_loads
           demo_dumps demo_titles "Acme" 2 2 Hd 0%nat [alice; bob] Hrun).
Defined.

Lemma undecodable_array_makes_the_output_the_title_witness :
  json_match output_with_two_arrays = Some "[CTO] or [CIO]"
  /\ demo_loads "[CTO] or [CIO]" = None
  /\ parse_position_titles demo_loads (PStr output_with_two_arrays)
     = PList [PStr output_with_two_arrays].
Proof.
  assert (Hmatch : json_match output_with_two_arrays = Some "[CTO] or [CIO]")
    by reflexivity.
  assert (Hloads : demo_loads "[CTO] or [CIO]" = None) by reflexivity.
  split; [exact Hmatch|]. split; [exact Hloads|].
  exact (undecodable_array_makes_the_output_the_title demo_loads
           output_with_two_arrays "[CTO] or [CIO]" Hmatch Hloads).
Defined.


Lemma short_lines_give_the_fallback_titles_witness :
  ascii_text output_of_short_titles = true
  /\ json_match output_of_short_titles = None
  /\ Forall (fun line => (String.length (strip line) <= 3)%nat)
            (split_lines output_of_short_titles)
  /\ parse_position_titles demo_loads (PStr output_of_short_titles) = PList []
  /\ titles_for_search demo_loads (PStr output_of_short_titles)
     = Ok (PList fallback_titles).
Proof.
  assert (Hascii : ascii_text output_of_short_titles = true) by reflexivity.
  assert (Hmatch : json_match output_of_short_titles = None) by reflexivity.
  assert (Hshort : Forall (fun line => (String.length (strip line) <= 3)%nat)
                          (split_lines output_of_short_titles))
    by (repeat constructor).
  split; [exact Hascii|]. split; [exact Hmatch|]. split; [exact Hshort|].
  exact (short_lines_give_the_fallback_titles demo_loads output_of_short_titles
           Hascii Hmatch Hshort).
Defined.



Lemma workflow_failure_is_reported_as_completed_witness :
  let final_profiles :=
    main (scripted []) demo_loads demo_dumps failing_titles "Acme Corp" 2 0%nat in
  let run :=
    Api.finish_processing demo_api_loads (Api.main_returned final_profiles)
                          "2024-05-01T10:04:59" "2024-05-01T10:05:00"
                          "job-1" "Acme Corp" two_jobs in
  (final_profiles = None \/ final_profiles = Some [])
  /\ Api.lookup two_jobs "job-1" = Some first_job
  /\ snd run = Api.Done tt
  /\ snd (fst run) = []
  /\ Api.get_search_status demo_api_loads demo_accepts "job-1" (fst (fst run))
     = Api.Done (Api.SearchStatusResponse.mk "job-1" "completed"
                   "Search completed successfully." []
                   (Api.created_at first_job) (Some "2024-05-01T10:05:00")).
Proof.
  intros final_profiles run.
  assert (Hfinal : final_profiles = None \/ final_profiles = Some [])
    by (left; reflexivity).
  assert (Hjob : Api.lookup two_jobs "job-1" = Some first_job) by reflexivity.
  split; [exact Hfinal|]. split; [exact Hjob|].
  exact (workflow_failure_is_reported_as_completed demo_api_loads demo_accepts
           nat (scripted []) demo_loads demo_dumps failing_titles "Acme Corp" 2 0%nat
           "2024-05-01T10:04:59" "2024-05-01T10:05:00" "job-1" two_jobs first_job
           Hfinal Hjob).
Defined.

Lemma deleted_job_is_not_recreated_witness :
  let meanwhile := fun job_status => fst (Api.delete_search "job-1" job_status) in
  let run :=
    Api.process_prospect_search demo_api_loads (Api.Returns (Api.Value (PList [alice])))
                                meanwhile "2024-05-01T10:04:59" "2024-05-01T10:05:00"
                                "job-1" "Acme Corp" two_jobs in
  Api.lookup (meanwhile (fst (Api.start_processing "job-1" two_jobs))) "job-1" = None
  /\ snd run = Api.Failed (Api.KeyError "job-1")
  /\ snd (fst run) = []
  /\ Api.lookup (fst (fst run)) "job-1" = None.
Proof.
  intros meanwhile run.
  assert (Hgone : Api.lookup (meanwhile (fst (Api.start_processing "job-1" two_jobs)))
                             "job-1" = None) by reflexivity.
  split; [exact Hgone|].
  exact (deleted_job_is_not_recreated demo_api_loads
           (Api.Returns (Api.Value (PList [alice])))
           meanwhile "2024-05-01T10:04:59" "2024-05-01T10:05:00" "job-1" "Acme Corp"
           two_jobs Hgone).
Defined.

Example status_of_a_record_without_title :
  Api.get_search_status demo_api_loads demo_accepts "job-1" store_with_untitled
  = Api.Failed Api.ValidationError.
Proof. vm_compute. reflexivity. Qed.

Lemma status_lists_every_stored_profile_witness :
  let j := Api.mkJob "completed" "Search completed successfully." (PList [alice; bob])
                     "2024-05-01T10:00:00" (Some "2024-05-01T10:05:00") None in
  Api.reachable demo_api_loads served_store
  /\ Api.lookup served_store "job-1" = Some j
  /\ forallb demo_accepts (map Api.four_keys [alice; bob]) = true
  /\ exists l,
      (Api.profiles j = PNone /\ l = []
       \/ Api.profiles j = PList l /\ forallb is_dict l = true)
      /\ Api.valid_profiles demo_api_loads (Api.profiles j) = Api.Done (map Api.four_keys l)
      /\ Api.get_search_status demo_api_loads demo_accepts "job-1" served_store
         = if forallb demo_accepts (map Api.four_keys l)
           then Api.Done (Api.SearchStatusResponse.mk "job-1" (Api.status j)
                            (Api.message j) (map Api.four_keys l)
                            (Api.created_at j) (Api.completed_at j))
           else Api.Failed Api.ValidationError.
Proof.
  intros j.
  assert (Hreach : Api.reachable demo_api_loads served_store).
  { unfold served_store.
    apply Api.reachable_finish, Api.reachable_start, Api.reachable_search,
      Api.reachable_empty. }
  assert (Hjob : Api.lookup served_store "job-1" = Some j) by (vm_compute; reflexivity).
  split; [exact Hreach|]. split; [exact Hjob|]. split; [reflexivity|].
  exact (status_lists_every_stored_profile demo_api_loads demo_accepts served_store
           "job-1" j Hreach Hjob).
Defined.

Lemma delete_search_forgets_one_job_witness :
  let job_status' := fst (Api.delete_search "job-1" two_jobs) in
  Api.well_formed two_jobs
  /\ Api.lookup two_jobs "job-1" = Some first_job
  /\ snd (Api.delete_search "job-1" two_jobs)
     = Api.Done ("Search request " ++ "job-1" ++ " deleted successfully")%string
  /\ Api.get_search_status demo_api_loads demo_accepts "job-1" job_status'
     = Api.Failed (Api.HTTPException 404 "Request ID not found")
  /\ (forall other,
        other <> "job-1" ->
        Api.get_search_status demo_api_loads demo_accepts other job_status'
        = Api.get_search_status demo_api_loads demo_accepts other two_jobs)
  /\ snd (Api.list_searches job_status') = snd (Api.list_searches two_jobs) - 1
  /\ Api.delete_search "job-1" job_status'
     = (job_status', Api.Failed (Api.HTTPException 404 "Request ID not found")).
Proof.
  intros job_status'.
  assert (Hwf : Api.well_formed two_jobs).
  { unfold Api.well_formed, two_jobs. cbn [map fst].
    constructor; [intros [H|[]]; discriminate H|].
    constructor; [intros []|constructor]. }
  assert (Hjob : Api.lookup two_jobs "job-1" = Some first_job) by reflexivity.
  split; [exact Hwf|]. split; [exact Hjob|].
  exact (delete_search_forgets_one_job demo_api_loads demo_accepts two_jobs "job-1"
           first_job Hwf Hjob).
Defined.

Lemma search_prospects_registers_a_job_witness :
  let job_status' := fst (Api.search_prospects "job-3" "2024-05-01T11:00:00" two_jobs) in
  Api.lookup two_jobs "job-3" = None
  /\ Api.ProspectResponse.created_at
       (snd (Api.search_prospects "job-3" "2024-05-01T11:00:00" two_jobs))
     = "2024-05-01T11:00:00"
  /\ Api.get_search_status demo_api_loads demo_accepts "job-3" job_status'
     = Api.Done (Api.SearchStatusResponse.mk "job-3" "processing" "Search initiated"
                   [] "2024-05-01T11:00:00" None)
  /\ (forall other,
        other <> "job-3" ->
        Api.get_search_status demo_api_loads demo_accepts other job_status'
        = Api.get_search_status demo_api_loads demo_accepts other two_jobs)
  /\ fst (Api.list_searches job_status')
     = fst (Api.list_searches two_jobs)
       ++ [Api.Summary.mk "job-3" "processing" "2024-05-01T11:00:00" None]
  /\ snd (Api.list_searches job_status') = snd (Api.list_searches two_jobs) + 1.
Proof.
  intros job_status'.
  assert (Hfresh : Api.lookup two_jobs "job-3" = None) by reflexivity.
  split; [exact Hfresh|].
  exact (search_prospects_registers_a_job demo_api_loads demo_accepts two_jobs "job-3"
           "2024-05-01T11:00:00" Hfresh).
Defined.

Lemma extract_profiles_raises_exactly_on_scalars_witness :
  decoded_result demo_loads (PDict [("results", PInt 5)])
  = Some (PDict [("results", PInt 5)])
  /\ extract_profiles demo_loads (PDict [("results", PInt 5)]) = Raise TypeError
  /\ (extract_profiles demo_loads (PDict [("results", PInt 5)]) = Raise TypeError
      <-> (TypeError = TypeError
           /\ py_truthy (PDict [("results", PInt 5)]) = true
           /\ exists d,
               PDict [("results", PInt 5)] = PDict d
               /\ truthy_scalar (selected_data d) = true)).
Proof.
  assert (Hdecoded : decoded_result demo_loads (PDict [("results", PInt 5)])
                     = Some (PDict [("results", PInt 5)])) by reflexivity.
  split; [exact Hdecoded|]. split; [reflexivity|].
  exact (extract_profiles_raises_exactly_on_scalars demo_loads
           (PDict [("results", PInt 5)]) (PDict [("results", PInt 5)]) TypeError Hdecoded).
Defined.
